(** * Voice-command actions (src/action.py): a shallow embedding

    The development follows the Python module: the text helpers the
    actions rely on ([str.lower], [str.replace], [str.strip], the [re]
    patterns), a small model of dynamically typed Python values, an
    effect monad recording what an action says and does, and then the
    three actions that carry state: [VolumeControl], [YouTubePlayer]
    and [TuneInRadio]. *)

From Stdlib Require Import ZArith NArith List Bool Ascii String Lia.
From Stdlib Require Import Numbers.DecimalString.
Import ListNotations.

#[local] Set Warnings "-register-all".

Local Open Scope string_scope.
Local Open Scope Z_scope.

(** ** Text

    Python strings are sequences of code points.  They are modelled by
    [string], that is by code points 0..255; the character classes below
    are Python's classes on that range. *)

Module Text.

Definition code (c : ascii) : N := N_of_ascii c.

Definition between (lo hi : N) (c : ascii) : bool :=
  (lo <=? code c)%N && (code c <=? hi)%N.

(** [str.isdecimal], the class [\d] of a [str] pattern. *)
Definition isdecimal (c : ascii) : bool := between 48 57 c.

(** Alphanumeric code points (alphabetic, decimal, digit or numeric). *)
Definition isalnum (c : ascii) : bool :=
  between 48 57 c || between 65 90 c || between 97 122 c
  || (code c =? 170)%N || between 178 179 c || (code c =? 181)%N
  || between 185 186 c || between 188 190 c
  || between 192 214 c || between 216 246 c || between 248 255 c.

(** The class [\w] of a [str] pattern: alphanumeric or underscore. *)
Definition isword (c : ascii) : bool := isalnum c || (c =? "_")%char.

(** [str.isspace], the characters removed by [str.strip()]. *)
Definition isspace (c : ascii) : bool :=
  between 9 13 c || between 28 32 c || (code c =? 133)%N || (code c =? 160)%N.

Definition lower_char (c : ascii) : ascii :=
  if between 65 90 c || (between 192 222 c && negb (code c =? 215)%N)
  then ascii_of_N (code c + 32)
  else c.

(** [s.lower()] *)
Fixpoint lower (s : string) : string :=
  match s with
  | EmptyString => EmptyString
  | String c s' => String (lower_char c) (lower s')
  end.

(** White space of a [bytes] object, removed by [bytes.strip()]. *)
Definition bytes_isspace (c : ascii) : bool :=
  between 9 13 c || (code c =? 32)%N.

Fixpoint lstrip_by (sp : ascii -> bool) (s : string) : string :=
  match s with
  | EmptyString => EmptyString
  | String c s' => if sp c then lstrip_by sp s' else s
  end.

Fixpoint rstrip_by (sp : ascii -> bool) (s : string) : string :=
  match s with
  | EmptyString => EmptyString
  | String c s' =>
      match rstrip_by sp s' with
      | EmptyString => if sp c then EmptyString else String c EmptyString
      | r => String c r
      end
  end.

(** [s.strip()] on a [str] *)
Definition strip (s : string) : string := rstrip_by isspace (lstrip_by isspace s).

(** [b.strip()] on a [bytes] *)
Definition bytes_strip (s : string) : string :=
  rstrip_by bytes_isspace (lstrip_by bytes_isspace s).

(** [drop_prefix p s] is [Some r] when [s = p ++ r]. *)
Fixpoint drop_prefix (p s : string) : option string :=
  match p with
  | EmptyString => Some s
  | String a p' =>
      match s with
      | EmptyString => None
      | String b s' => if (a =? b)%char then drop_prefix p' s' else None
      end
  end.

(** [s.replace(old, new, 1)]: only the leftmost occurrence is replaced. *)
Fixpoint replace1 (old new s : string) : string :=
  match drop_prefix old s with
  | Some r => new ++ r
  | None =>
      match s with
      | EmptyString => EmptyString
      | String c s' => String c (replace1 old new s')
      end
  end.

(** [old in s] *)
Fixpoint contains (old s : string) : bool :=
  match drop_prefix old s with
  | Some _ => true
  | None =>
      match s with
      | EmptyString => false
      | String _ s' => contains old s'
      end
  end.

(** [sep.join(l)] *)
Fixpoint join (sep : string) (l : list string) : string :=
  match l with
  | [] => EmptyString
  | [x] => x
  | x :: l' => x ++ sep ++ join sep l'
  end.

Definition is_empty (s : string) : bool :=
  match s with EmptyString => true | _ => false end.

Fixpoint all_space (s : string) : bool :=
  match s with
  | EmptyString => true
  | String c s' => isspace c && all_space s'
  end.

(** [str(n)] and the [%d] conversion of an integer. *)
Definition decimal (n : Z) : string := NilZero.string_of_int (Z.to_int n).

(** Value of a string of decimal digits, most significant first. *)
Fixpoint digits_value (acc : Z) (s : string) : Z :=
  match s with
  | EmptyString => acc
  | String c s' => digits_value (10 * acc + Z.of_N (code c - 48)) s'
  end.

Fixpoint all_decimal (s : string) : bool :=
  match s with
  | EmptyString => true
  | String c s' => isdecimal c && all_decimal s'
  end.

(** [int(s)] for a text already stripped of white space: an optional sign
    and at least one decimal digit (underscores between digits are not
    modelled); [None] stands for [ValueError]. *)
Definition parse_int (s : string) : option Z :=
  match s with
  | EmptyString => None
  | String c ds =>
      if (c =? "-")%char then
        if negb (is_empty ds) && all_decimal ds then Some (- digits_value 0 ds) else None
      else if (c =? "+")%char then
        if negb (is_empty ds) && all_decimal ds then Some (digits_value 0 ds) else None
      else if all_decimal (String c ds) then Some (digits_value 0 (String c ds))
      else None
  end.

End Text.

(** ** Regular expressions

    The fragment of [re] used by the module: a pattern is a sequence of
    items; repetition applies to one-character classes; the engine
    backtracks, leftmost alternative first, as [re] does. *)

Module Re.

Inductive cclass :=
| CWord                (* \w *)
| CDigit               (* \d *)
| CDot                 (* .  : anything but a newline *)
| CChar (c : ascii).   (* a literal character *)

Definition cmatch (k : cclass) (x : ascii) : bool :=
  match k with
  | CWord => Text.isword x
  | CDigit => Text.isdecimal x
  | CDot => negb (x =? "010")%char
  | CChar c => (x =? c)%char
  end.

Inductive item :=
| One (k : cclass)          (* k *)
| Plus (k : cclass)         (* k+ , greedy *)
| Star (k : cclass)         (* k* , greedy *)
| LazyStar (k : cclass)     (* k*? *)
| NotAhead (c : ascii)      (* (?!c) *)
| NotBehind (c : ascii)     (* (?<!c) *)
| GOpen                     (* ( : start of group 1 *)
| GClose.                   (* ) : end of group 1 *)

Definition regex := list item.

(** The literal text [s] as a pattern. *)
Fixpoint lit (s : string) : regex :=
  match s with
  | EmptyString => []
  | String c s' => One (CChar c) :: lit s'
  end.

(** A successful match: the text left after it and group 1. *)
Definition result := (string * option string)%type.

(** A continuation receives the text before the position (reversed), the
    text from the position on, where group 1 was opened and its capture. *)
Definition cont := string -> string -> option string -> option string -> option result.

Fixpoint greedy (k : cclass) (next : cont)
         (prev rest : string) (gs cap : option string) : option result :=
  match rest with
  | String x rest' =>
      if cmatch k x then
        match greedy k next (String x prev) rest' gs cap with
        | Some r => Some r
        | None => next prev rest gs cap
        end
      else next prev rest gs cap
  | EmptyString => next prev rest gs cap
  end.

Fixpoint lazy (k : cclass) (next : cont)
         (prev rest : string) (gs cap : option string) : option result :=
  match next prev rest gs cap with
  | Some r => Some r
  | None =>
      match rest with
      | String x rest' =>
          if cmatch k x then lazy k next (String x prev) rest' gs cap else None
      | EmptyString => None
      end
  end.

(** Text consumed between the position [from] and the later position [to]. *)
Definition consumed (from to : string) : string :=
  substring 0 (String.length from - String.length to) from.

Fixpoint run (r : regex) (prev rest : string) (gs cap : option string)
  : option result :=
  match r with
  | [] => Some (rest, cap)
  | One k :: r' =>
      match rest with
      | String x rest' =>
          if cmatch k x then run r' (String x prev) rest' gs cap else None
      | EmptyString => None
      end
  | Plus k :: r' =>
      match rest with
      | String x rest' =>
          if cmatch k x then greedy k (run r') (String x prev) rest' gs cap else None
      | EmptyString => None
      end
  | Star k :: r' => greedy k (run r') prev rest gs cap
  | LazyStar k :: r' => lazy k (run r') prev rest gs cap
  | NotAhead c :: r' =>
      match rest with
      | String x _ => if (x =? c)%char then None else run r' prev rest gs cap
      | EmptyString => run r' prev rest gs cap
      end
  | NotBehind c :: r' =>
      match prev with
      | String x _ => if (x =? c)%char then None else run r' prev rest gs cap
      | EmptyString => run r' prev rest gs cap
      end
  | GOpen :: r' => run r' prev rest (Some rest) cap
  | GClose :: r' =>
      run r' prev rest gs
          (match gs with Some from => Some (consumed from rest) | None => cap end)
  end.

(** A match object: [group()] and [group(1)]. *)
Record match_obj := { group0 : string; group1 : option string }.

Fixpoint search_from (r : regex) (prev rest : string) : option match_obj :=
  match run r prev rest None None with
  | Some (after, cap) => Some {| group0 := consumed rest after; group1 := cap |}
  | None =>
      match rest with
      | EmptyString => None
      | String x rest' => search_from r (String x prev) rest'
      end
  end.

(** [re.search(r, s)] *)
Definition search (r : regex) (s : string) : option match_obj :=
  search_from r EmptyString s.

(** [re.findall(r, s)] for a pattern without groups: the matches from
    left to right, not overlapping.  [skip] counts the characters of the
    last match that the scan still has to pass. *)
Fixpoint findall_from (r : regex) (prev rest : string) (skip : nat) : list string :=
  match skip with
  | S n =>
      match rest with
      | EmptyString => []
      | String x rest' => findall_from r (String x prev) rest' n
      end
  | O =>
      match run r prev rest None None with
      | Some (after, _) =>
          consumed rest after ::
          match rest with
          | EmptyString => []
          | String x rest' =>
              findall_from r (String x prev) rest'
                           (String.length rest - String.length after - 1)
          end
      | None =>
          match rest with
          | EmptyString => []
          | String x rest' => findall_from r (String x prev) rest' 0
          end
      end
  end.

Definition findall (r : regex) (s : string) : list string :=
  findall_from r EmptyString s 0.

End Re.

(** ** Python values

    The values that flow through the players come from [youtube_dl] and
    from [json.loads]; they are dynamically typed, and the code indexes
    them without checking their shape. *)

Inductive exn :=
| AttributeError | IndexError | KeyError | TypeError | ValueError
| RuntimeError | URLError | CalledProcessError | OSError.

(** A dictionary is a list of entries with distinct keys, in insertion
    order. *)
Inductive pyval :=
| PNone
| PBool (b : bool)
| PInt (n : Z)
| PStr (s : string)
| PList (l : list pyval)
| PDict (d : list (string * pyval)).

(** Truth value of an object, as tested by [if x] and [not x]. *)
Definition truthy (v : pyval) : bool :=
  match v with
  | PNone => false
  | PBool b => b
  | PInt n => negb (n =? 0)
  | PStr s => negb (Text.is_empty s)
  | PList l => match l with [] => false | _ => true end
  | PDict d => match d with [] => false | _ => true end
  end.

Fixpoint assoc (k : string) (d : list (string * pyval)) : option pyval :=
  match d with
  | [] => None
  | (k', v) :: d' => if (k =? k')%string then Some v else assoc k d'
  end.

(** [v[k]] for a string key [k]. *)
Definition getitem_key (v : pyval) (k : string) : exn + pyval :=
  match v with
  | PDict d => match assoc k d with Some x => inr x | None => inl KeyError end
  | _ => inl TypeError
  end.

(** [v[0]] *)
Definition getitem_0 (v : pyval) : exn + pyval :=
  match v with
  | PList l => match l with x :: _ => inr x | [] => inl IndexError end
  | PStr s => match s with String c _ => inr (PStr (String c "")) | "" => inl IndexError end
  | PDict _ => inl KeyError
  | _ => inl TypeError
  end.

Fixpoint chars (s : string) : list pyval :=
  match s with
  | EmptyString => []
  | String c s' => PStr (String c "") :: chars s'
  end.

(** The elements visited by [for x in v]. *)
Definition iterate (v : pyval) : exn + list pyval :=
  match v with
  | PList l => inr l
  | PDict d => inr (map (fun kv => PStr (fst kv)) d)
  | PStr s => inr (chars s)
  | _ => inl TypeError
  end.

(** [v == s] for a string [s]. *)
Definition eq_str (v : pyval) (s : string) : bool :=
  match v with
  | PStr s' => (s' =? s)%string
  | _ => false
  end.

(** ** Effects

    An action speaks through [say], logs, runs shell commands, talks to
    the network and drives a media player and the GPIO library.  Each of
    these is recorded as an event; the state of the object ([self]) and
    of the GPIO library is threaded through. *)

Inductive callback := YouTube_on_input_event | TuneIn_on_input_event.

Inductive edge := RISING | FALLING | BOTH.
Inductive pull := PUD_OFF | PUD_DOWN | PUD_UP.

Inductive event :=
| Say (text : string)              (* self.say(text) *)
| Log (level : string) (msg : pyval)
| Shell (cmd : string)             (* subprocess.call / check_output *)
| UrlOpen (url : string)           (* urllib.request.urlopen *)
| YdlExtract (query : string)      (* YoutubeDL.extract_info *)
| MediaNew (url : pyval)           (* instance.media_new(url) *)
| SetMedia                         (* player.set_media(media) *)
| PlayerPlay                       (* player.play() *)
| PlayerStop                       (* player.stop() *)
| Sleep                            (* time.sleep(1) *)
| GpioSetmode
| GpioSetup (channel : Z) (p : pull).

Record St (O : Type) := mkSt {
  self : O;
  trace : list event;
  edge_detect : list (Z * (edge * list callback))
}.
Arguments mkSt {O}.
Arguments self {O}.
Arguments trace {O}.
Arguments edge_detect {O}.

(** How a call ends: it returns, raises, or never returns. *)
Inductive outcome (A : Type) :=
| Return (a : A)
| Raise (e : exn)
| Blocks.
Arguments Return {A}.
Arguments Raise {A}.
Arguments Blocks {A}.

Definition M (O A : Type) := St O -> outcome A * St O.

Definition ret {O A} (a : A) : M O A := fun s => (Return a, s).

Definition raise {O A} (e : exn) : M O A := fun s => (Raise e, s).

Definition bind {O A B} (m : M O A) (f : A -> M O B) : M O B :=
  fun s =>
    match m s with
    | (Return a, s') => f a s'
    | (Raise e, s') => (Raise e, s')
    | (Blocks, s') => (Blocks, s')
    end.

Notation "x <- m ;; k" := (bind m (fun x => k))
  (at level 61, m at next level, right associativity).
Notation "m ;; k" := (bind m (fun _ => k))
  (at level 61, right associativity).

Definition lift {O A} (r : exn + A) : M O A :=
  match r with
  | inr a => ret a
  | inl e => raise e
  end.

Definition emit {O} (e : event) : M O unit :=
  fun s => (Return tt, mkSt (self s) (trace s ++ [e])%list (edge_detect s)).

Definition get_self {O} : M O O := fun s => (Return (self s), s).

Definition set_self {O} (o : O) : M O unit :=
  fun s => (Return tt, mkSt o (trace s) (edge_detect s)).

Definition say {O} (text : string) : M O unit := emit (Say text).

(** What has been observed of a state: the sentences spoken, the network
    requests and the calls on the media player. *)
Definition spoken_of (e : event) : list string :=
  match e with Say t => [t] | _ => [] end.

Definition is_network (e : event) : bool :=
  match e with UrlOpen _ | YdlExtract _ => true | _ => false end.

Definition is_player (e : event) : bool :=
  match e with MediaNew _ | SetMedia | PlayerPlay | PlayerStop => true | _ => false end.

Definition spoken {O} (s : St O) : list string := flat_map spoken_of (trace s).
Definition network_calls {O} (s : St O) : list event := filter is_network (trace s).
Definition player_calls {O} (s : St O) : list event := filter is_player (trace s).

(** The world outside the program: what the network, the shell and the
    library functions answer.  [None] stands for a raised exception. *)
Record Env := {
  extract_info : string -> option pyval;   (* youtube_dl, [None]: raises *)
  urlopen : string -> option string;       (* decoded body, [None]: URLError *)
  json_loads : string -> option pyval;     (* [None]: ValueError *)
  quote : string -> string;                (* urllib.parse.quote *)
  str_of : pyval -> string;                (* the builtin str() *)
  check_output : string -> option string;  (* [None]: CalledProcessError *)
  call_fault : string -> option exn        (* subprocess.call raising *)
}.

(** ** The GPIO library (RPi.GPIO)

    Edge detection can be enabled once per channel; enabling it again
    raises [RuntimeError].  A further callback can be added only to a
    channel whose edge detection is enabled. *)

Module GPIO.

Definition table := list (Z * (edge * list callback)).

Fixpoint lookup (channel : Z) (t : table) : option (edge * list callback) :=
  match t with
  | [] => None
  | (c, x) :: t' => if c =? channel then Some x else lookup channel t'
  end.

Fixpoint update (channel : Z) (x : edge * list callback) (t : table) : table :=
  match t with
  | [] => [(channel, x)]
  | (c, y) :: t' => if c =? channel then (c, x) :: t' else (c, y) :: update channel x t'
  end.

Definition setmode_BCM {O} : M O unit := emit GpioSetmode.

Definition setup_IN {O} (channel : Z) (pull_up_down : pull) : M O unit :=
  emit (GpioSetup channel pull_up_down).

Definition add_event_detect {O} (channel : Z) (e : edge) (cb : callback) : M O unit :=
  fun s =>
    match lookup channel (edge_detect s) with
    | Some _ => (Raise RuntimeError, s)
    | None => (Return tt, mkSt (self s) (trace s) (update channel (e, [cb]) (edge_detect s)))
    end.

Definition add_event_callback {O} (channel : Z) (cb : callback) : M O unit :=
  fun s =>
    match lookup channel (edge_detect s) with
    | Some (e, cbs) =>
        (Return tt, mkSt (self s) (trace s) (update channel (e, (cbs ++ [cb])%list) (edge_detect s)))
    | None => (Raise RuntimeError, s)
    end.

End GPIO.

(** [try: body except <caught>: handler] *)
Definition try_except {O A} (body : M O A) (caught : exn -> bool) (handler : M O A)
  : M O A :=
  fun s =>
    match body s with
    | (Raise e, s') => if caught e then handler s' else (Raise e, s')
    | r => r
    end.

(** [subprocess.call(cmd, shell=True)]; the exit status is not used. *)
Definition subprocess_call {O} (env : Env) (cmd : string) : M O unit :=
  emit (Shell cmd) ;;
  match call_fault env cmd with
  | Some e => raise e
  | None => ret tt
  end.

(** [subprocess.check_output(cmd, shell=True)] *)
Definition subprocess_check_output {O} (env : Env) (cmd : string) : M O string :=
  emit (Shell cmd) ;;
  match check_output env cmd with
  | Some out => ret out
  | None => raise CalledProcessError
  end.

(** [int(s)] *)
Definition int_of {O} (s : string) : M O Z :=
  match Text.parse_int s with
  | Some n => ret n
  | None => raise ValueError
  end.

(** ** VolumeControl *)

Module VolumeControl.

Record t := mk { keyword : string; value : option Z }.

Definition dq : string := String "034" "".

Definition GET_VOLUME : string :=
  "amixer get Master | grep " ++ dq ++ "Front Left:" ++ dq ++ " | sed "
  ++ dq ++ "s/.*\[\([0-9]\+\)%\].*/\1/" ++ dq.

(** ['amixer -q set Master %d%%' % vol] *)
Definition SET_VOLUME (vol : Z) : string :=
  "amixer -q set Master " ++ Text.decimal vol ++ "%".

Definition UP := "up".
Definition DOWN := "down".
Definition MAX := "max".
Definition MUTE := "mute".

Definition __init__ (keyword : string) : t := mk keyword None.

Definition assign_value (v : Z) : M t unit :=
  o <- get_self ;; set_self (mk (keyword o) (Some v)).

Definition set (env : Env) (value : Z) : M t unit :=
  let vol := Z.max 0 (Z.min 100 value) in
  try_except
    (subprocess_call env (SET_VOLUME vol) ;;
     emit (Log "info" (PStr ("volume: " ++ Text.decimal vol))) ;;
     assign_value vol)
    (fun e => match e with ValueError | CalledProcessError => true | _ => false end)
    (emit (Log "exception" (PStr "Error using amixer to adjust volume."))).

Definition increment (env : Env) (value : Z) : M t unit :=
  out <- subprocess_check_output env GET_VOLUME ;;
  n <- int_of (Text.bytes_strip out) ;;
  set env (n + value).

Definition tell (env : Env) : M t unit :=
  o <- get_self ;;
  (match value o with
   | Some v => if v =? 0 then
                 out <- subprocess_check_output env GET_VOLUME ;;
                 n <- int_of (Text.bytes_strip out) ;;
                 assign_value n
               else ret tt
   | None =>
       out <- subprocess_check_output env GET_VOLUME ;;
       n <- int_of (Text.bytes_strip out) ;;
       assign_value n
   end) ;;
  o' <- get_self ;;
  match value o' with
  | Some v => say ("Volume at " ++ Text.decimal v ++ " %.")
  | None => raise TypeError
  end.

Definition run (env : Env) (voice_command : string) : M t unit :=
  o <- get_self ;;
  let mode := Text.strip (Text.replace1 (keyword o) "" (Text.lower voice_command)) in
  if (mode =? UP)%string then increment env 10 ;; tell env
  else if (mode =? DOWN)%string then increment env (-10) ;; tell env
  else if (mode =? MAX)%string then set env 100 ;; tell env
  else if (mode =? MUTE)%string then set env 0 ;; tell env
  else if negb (Text.is_empty mode) then
    match Re.search [Re.Plus Re.CDigit] mode with
    | Some m => vol <- int_of (Re.group0 m) ;; set env vol ;; tell env
    | None => say "Please specify a value."
    end
  else tell env.

End VolumeControl.

(** ** The media players

    [YouTubePlayer] and [TuneInRadio] have the same fields.  Their
    callbacks are run by other threads: the GPIO library calls
    [_on_input_event] on an edge of the input line, the media player
    calls [_on_player_event]. *)

Record player := mkPlayer {
  keyword : string;
  now_playing : pyval;
  done : bool;
  input_value : bool
}.

Definition set_now_playing (v : pyval) : M player unit :=
  o <- get_self ;; set_self (mkPlayer (keyword o) v (done o) (input_value o)).

Definition set_done (b : bool) : M player unit :=
  o <- get_self ;; set_self (mkPlayer (keyword o) (now_playing o) b (input_value o)).

Definition set_input_value (b : bool) : M player unit :=
  o <- get_self ;; set_self (mkPlayer (keyword o) (now_playing o) (done o) b).

(** [text + v] for a string [text] *)
Definition str_add {O} (text : string) (v : pyval) : M O string :=
  match v with
  | PStr s => ret (text ++ s)
  | _ => raise TypeError
  end.

Inductive vlc_event :=
| MediaPlayerEndReached
| MediaPlayerEncounteredError
| MediaPlayerOther.

(** What the other threads do while [run] is busy: the GPIO thread calls
    the input callback for [channel] at a moment when [GPIO.input(channel)]
    reads [level]; the player thread delivers an event. *)
Inductive async :=
| InputEvent (channel level : Z)
| PlayerEvent (ty : vlc_event).

(** The callbacks that fire while [player.play()] is in progress, and
    those that fire during each [time.sleep(1)] of the waiting loop. *)
Record schedule := { during_play : list async; ticks : list (list async) }.

Section Waiting.

Variable on_input_event : Z -> Z -> M player unit.
Variable on_player_event : vlc_event -> M player unit.

(** An exception raised by a callback stays in the thread that ran it. *)
Definition deliver (a : async) (s : St player) : St player :=
  match a with
  | InputEvent channel level => snd (on_input_event level channel s)
  | PlayerEvent ty => snd (on_player_event ty s)
  end.

Definition deliver_all (l : list async) (s : St player) : St player :=
  fold_left (fun s a => deliver a s) l s.

Definition callbacks (l : list async) : M player unit :=
  fun s => (Return tt, deliver_all l s).

(** [while not self.done: time.sleep(1)] *)
Fixpoint wait (ticks : list (list async)) (s : St player) : outcome unit * St player :=
  if done (self s) then (Return tt, s)
  else
    match ticks with
    | [] => (Blocks, s)
    | l :: ticks' => wait ticks' (deliver_all l (snd (emit Sleep s)))
    end.

End Waiting.

(** ** YouTubePlayer *)

Module YouTubePlayer.

Definition _init_gpio (channel : Z) (polarity : edge) (pull_up_down : pull)
  : M player unit :=
  set_input_value (match polarity with RISING => true | _ => false end) ;;
  GPIO.setmode_BCM ;;
  GPIO.setup_IN channel pull_up_down ;;
  try_except
    (GPIO.add_event_detect channel polarity YouTube_on_input_event)
    (fun e => match e with RuntimeError => true | _ => false end)
    (emit (Log "info" (PStr "Event already added")) ;;
     GPIO.add_event_callback channel YouTube_on_input_event).

(** The player object is created and the two event types are attached
    to [_on_player_event]; of this only the fields are kept. *)
Definition _init_player : M player unit :=
  set_now_playing PNone ;;
  set_done false.

Definition __init__ (keyword : string) : M player unit :=
  set_self (mkPlayer keyword PNone false false) ;;
  _init_player ;;
  _init_gpio 23 FALLING PUD_UP.

(** [level] is what [GPIO.input(channel)] reads (0 or 1); Python compares
    it with the boolean [input_value] as a number. *)
Definition _on_input_event (level : Z) (channel : Z) : M player unit :=
  o <- get_self ;;
  if level =? Z.b2z (input_value o) then
    emit PlayerStop ;;
    set_done true
  else ret tt.

Definition _on_player_event (ty : vlc_event) : M player unit :=
  match ty with
  | MediaPlayerEndReached => set_done true
  | MediaPlayerEncounteredError =>
      o <- get_self ;;
      text <- str_add "Can't play " (now_playing o) ;;
      say text ;;
      set_done true
  | MediaPlayerOther => ret tt
  end.

(** [ydl.extract_info(track, download=False)]; whatever it raises is
    caught by the caller's [except Exception]. *)
Definition ydl_extract_info (env : Env) (track : string) : M player pyval :=
  emit (YdlExtract track) ;;
  match extract_info env track with
  | Some meta => ret meta
  | None => raise RuntimeError
  end.

(** [r'(?!_)\w+(?<!_)'] *)
Definition pattern : Re.regex :=
  [Re.NotAhead "_"; Re.Plus Re.CWord; Re.NotBehind "_"]%char.

(** [' '.join(re.findall(pattern, title))] *)
Definition clean_title (title : string) : string :=
  Text.join " " (Re.findall pattern title).

Definition run (env : Env) (sched : schedule) (voice_command : string)
  : M player unit :=
  o <- get_self ;;
  let track := Text.strip (Text.replace1 (keyword o) "" (Text.lower voice_command)) in
  if Text.is_empty track then say "Please specify a song"
  else
    found <- try_except
               (meta <- ydl_extract_info env track ;; ret (Some meta))
               (fun _ => true)
               (say ("Failed to find " ++ track) ;; ret None) ;;
    match found with
    | None => ret tt
    | Some meta =>
        if negb (truthy meta) then say ("Failed to find " ++ track)
        else
          entries <- lift (getitem_key meta "entries") ;;
          track_info <- lift (getitem_0 entries) ;;
          if negb (truthy track_info) then say ("Failed to find " ++ track)
          else
            url <- lift (getitem_key track_info "url") ;;
            emit (Log "debug" url) ;;
            emit (MediaNew url) ;;
            emit SetMedia ;;
            title <- lift (getitem_key track_info "title") ;;
            match title with
            | PStr t =>
                set_now_playing (PStr (clean_title t)) ;;
                emit (Log "info" (PStr (clean_title t))) ;;
                say ("Now playing " ++ clean_title t) ;;
                emit PlayerPlay ;;
                callbacks _on_input_event _on_player_event (during_play sched) ;;
                set_done false ;;
                wait _on_input_event _on_player_event (ticks sched)
            | _ => raise TypeError
            end
    end.

End YouTubePlayer.

(** ** TuneInRadio *)

Module TuneInRadio.

Definition BASE_URL := "http://tunein.com/".
Definition FILTER_STATIONS := "Stations".

Definition _init_gpio (channel : Z) (polarity : edge) (pull_up_down : pull)
  : M player unit :=
  set_input_value (match polarity with RISING => true | _ => false end) ;;
  GPIO.setmode_BCM ;;
  GPIO.setup_IN channel pull_up_down ;;
  try_except
    (GPIO.add_event_detect channel polarity TuneIn_on_input_event)
    (fun e => match e with RuntimeError => true | _ => false end)
    (emit (Log "info" (PStr "Event already added")) ;;
     GPIO.add_event_callback channel TuneIn_on_input_event).

Definition _init_player : M player unit :=
  set_now_playing PNone ;;
  set_done false.

Definition __init__ (keyword : string) : M player unit :=
  set_self (mkPlayer keyword PNone false false) ;;
  _init_player ;;
  _init_gpio 23 FALLING PUD_UP.

Definition _on_input_event (level : Z) (channel : Z) : M player unit :=
  o <- get_self ;;
  if level =? Z.b2z (input_value o) then
    emit PlayerStop ;;
    set_done true
  else ret tt.

Definition _on_player_event (ty : vlc_event) : M player unit :=
  match ty with
  | MediaPlayerEndReached => set_done true
  | MediaPlayerEncounteredError =>
      o <- get_self ;;
      text <- str_add "Can't play " (now_playing o) ;;
      say text ;;
      set_done true
  | MediaPlayerOther => ret tt
  end.

(** [urlopen(Request(url))], [read().decode('ascii', 'ignore')], [close()] *)
Definition read_url (env : Env) (url : string) : M player string :=
  emit (UrlOpen url) ;;
  match urlopen env url with
  | Some body => ret body
  | None => raise URLError
  end.

Definition loads (env : Env) (text : string) : M player pyval :=
  match json_loads env text with
  | Some v => ret v
  | None => raise ValueError
  end.

Definition dq : ascii := "034"%char.

(** [r'TuneIn.payload = (\{.*\})'] *)
Definition payload_pattern : Re.regex :=
  (Re.lit "TuneIn" ++ [Re.One Re.CDot] ++ Re.lit "payload = "
   ++ [Re.GOpen; Re.One (Re.CChar "{"); Re.Star Re.CDot; Re.One (Re.CChar "}");
       Re.GClose])%list%char.

(** [r'"StreamUrl":"(.*?)"'] *)
Definition stream_url_pattern : Re.regex :=
  ([Re.One (Re.CChar dq)] ++ Re.lit "StreamUrl"
   ++ [Re.One (Re.CChar dq); Re.One (Re.CChar ":"); Re.One (Re.CChar dq);
       Re.GOpen; Re.LazyStar Re.CDot; Re.GClose; Re.One (Re.CChar dq)])%list%char.

(** The loop over the categories: the guide items of the first category
    whose title is the filter, [None] when there is none. *)
Fixpoint first_category (search_filter : string) (categories : list pyval)
  : exn + pyval :=
  match categories with
  | [] => inr PNone
  | category :: rest =>
      match getitem_key category "Title" with
      | inl e => inl e
      | inr title =>
          if eq_str title search_filter then getitem_key category "GuideItems"
          else first_category search_filter rest
      end
  end.

Definition _search (env : Env) (search_str : string) (search_filter : string)
  : M player pyval :=
  let url := BASE_URL ++ "search/?query=" ++ quote env search_str in
  emit (Log "debug" (PStr url)) ;;
  xml_str <- read_url env url ;;
  match Re.search payload_pattern xml_str with
  | None => ret PNone
  | Some result =>
      match Re.group1 result with
      | None => raise TypeError
      | Some payload =>
          result <- loads env payload ;;
          guide <- lift (getitem_key result "ContainerGuideItems") ;;
          categories <- lift (getitem_key guide "containers") ;;
          l <- lift (iterate categories) ;;
          lift (first_category search_filter l)
      end
  end.

Definition _get_stream_list (env : Env) (url : string) : M player pyval :=
  emit (Log "debug" (PStr url)) ;;
  json_str <- read_url env url ;;
  result <- loads env json_str ;;
  lift (getitem_key result "Streams").

Definition _get_stream_url (env : Env) (station_id : pyval) : M player pyval :=
  let url := BASE_URL ++ "station/?stationId=" ++ str_of env station_id in
  emit (Log "debug" (PStr url)) ;;
  xml_str <- read_url env url ;;
  match Re.search stream_url_pattern xml_str with
  | None => raise AttributeError
  | Some result =>
      match Re.group1 result with
      | None => ret PNone
      | Some g =>
          if Text.is_empty g then ret PNone
          else
            let json_url := "http:" ++ g in
            streams <- _get_stream_list env json_url ;;
            if negb (truthy streams) then ret PNone
            else
              stream <- lift (getitem_0 streams) ;;
              lift (getitem_key stream "Url")
      end
  end.

Definition run (env : Env) (sched : schedule) (voice_command : string)
  : M player unit :=
  o <- get_self ;;
  let search_str :=
    Text.strip (Text.replace1 (keyword o) "" (Text.lower voice_command)) in
  if Text.is_empty search_str then say "Please specify a station"
  else
    stations <- _search env search_str FILTER_STATIONS ;;
    if negb (truthy stations) then say "Didn't find any stations"
    else
      station <- lift (getitem_0 stations) ;;
      station_id <- lift (getitem_key station "Id") ;;
      url <- _get_stream_url env station_id ;;
      if negb (truthy url) then say "Didn't find any streams"
      else
        emit (Log "debug" url) ;;
        emit (MediaNew url) ;;
        emit SetMedia ;;
        title <- lift (getitem_key station "Title") ;;
        set_now_playing title ;;
        emit (Log "info" title) ;;
        text <- str_add "Now playing " title ;;
        say text ;;
        emit PlayerPlay ;;
        callbacks _on_input_event _on_player_event (during_play sched) ;;
        set_done false ;;
        wait _on_input_event _on_player_event (ticks sched).

End TuneInRadio.

(** ** SpeakTime *)

Module SpeakTime.

Definition HRS_TEXT : list string :=
  ["midnight"; "one"; "two"; "three"; "four"; "five"; "six";
   "seven"; "eight"; "nine"; "ten"; "eleven"; "twelve"].

Definition MINS_TEXT : list string :=
  ["five"; "ten"; "quarter"; "twenty"; "twenty-five"; "half"].

(** [l[i]]: a negative index counts from the end of the list. *)
Definition item (l : list string) (i : Z) : exn + string :=
  let n := Z.of_nat (List.length l) in
  let j := if i <? 0 then i + n else i in
  if (0 <=? j) && (j <? n) then
    match nth_error l (Z.to_nat j) with
    | Some x => inr x
    | None => inl IndexError
    end
  else inl IndexError.

(** [to_str(dt)] for [dt.hour = hour] and [dt.minute = minute]. *)
Definition to_str (hour minute : Z) : exn + string :=
  let minute_rounded := (minute + 2) / 5 in
  let minute_is_inverted := 6 <? minute_rounded in
  let minute_rounded :=
    if minute_is_inverted then 12 - minute_rounded else minute_rounded in
  let hour := if minute_is_inverted then (hour + 1) mod 24 else hour in
  let hour := if 12 <? hour then hour - 12 else hour in
  if minute_rounded =? 0 then
    if hour =? 0 then inr "It is midnight."
    else
      match item HRS_TEXT hour with
      | inr h => inr ("It is " ++ h ++ " o'clock.")
      | inl e => inl e
      end
  else
    match item MINS_TEXT (minute_rounded - 1) with
    | inl e => inl e
    | inr m =>
        match item HRS_TEXT hour with
        | inl e => inl e
        | inr h =>
            if minute_is_inverted
            then inr ("It is " ++ m ++ " to " ++ h ++ ".")
            else inr ("It is " ++ m ++ " past " ++ h ++ ".")
        end
    end.

(** [run]: [now] is what [datetime.datetime.now()] returns, as hour and
    minute. *)
Definition run (now : Z * Z) (voice_command : string) : M unit unit :=
  time_str <- lift (to_str (fst now) (snd now)) ;;
  say time_str.

End SpeakTime.

(** ** SpeakShellCommandOutput *)

Module SpeakShellCommandOutput.

(** [failure_text] is [None] or a string. *)
Record t := mk { shell_command : string; failure_text : option string }.

(** [decode] is [bytes.decode('utf-8')]; [None] stands for
    [UnicodeDecodeError], a [ValueError]. *)
Definition run (env : Env) (decode : string -> option string)
           (voice_command : string) : M t unit :=
  o <- get_self ;;
  out <- subprocess_check_output env (shell_command o) ;;
  let output := Text.bytes_strip out in
  if negb (Text.is_empty output) then
    match decode output with
    | Some text => say text
    | None => raise ValueError
    end
  else
    match failure_text o with
    | Some text => if negb (Text.is_empty text) then say text else ret tt
    | None => ret tt
    end.

End SpeakShellCommandOutput.

(** ** RepeatAfterMe *)

Module RepeatAfterMe.

Record t := mk { keyword : string }.

Definition run (voice_command : string) : M t unit :=
  o <- get_self ;;
  let to_repeat := Text.replace1 (keyword o) "" (Text.lower voice_command) in
  say to_repeat.

End RepeatAfterMe.

(** ** Vocabulary of the statements *)

(** The query of a command: the command in lower case, without the first
    occurrence of the keyword, stripped. *)
Definition query_of (o : player) (voice_command : string) : string :=
  Text.strip (Text.replace1 (keyword o) "" (Text.lower voice_command)).

(** The callbacks and the waiting loop of each class. *)
Abbreviation yt_deliver :=
  (deliver YouTubePlayer._on_input_event YouTubePlayer._on_player_event).
Abbreviation yt_deliver_all :=
  (deliver_all YouTubePlayer._on_input_event YouTubePlayer._on_player_event).
Abbreviation yt_wait :=
  (wait YouTubePlayer._on_input_event YouTubePlayer._on_player_event).
Abbreviation ti_deliver :=
  (deliver TuneInRadio._on_input_event TuneInRadio._on_player_event).
Abbreviation ti_deliver_all :=
  (deliver_all TuneInRadio._on_input_event TuneInRadio._on_player_event).
Abbreviation ti_wait :=
  (wait TuneInRadio._on_input_event TuneInRadio._on_player_event).

(** The state [s] with the session marked done and the trace [t]. *)
Definition finished (s : St player) (t : list event) : St player :=
  mkSt (mkPlayer (keyword (self s)) (now_playing (self s)) true (input_value (self s)))
       t (edge_detect s).

(** The fields that no callback changes, and the direction in which
    [done] and the trace move. *)
Record extends (s s' : St player) : Prop := {
  same_keyword : keyword (self s') = keyword (self s);
  same_now_playing : now_playing (self s') = now_playing (self s);
  same_input_value : input_value (self s') = input_value (self s);
  same_edge_detect : edge_detect s' = edge_detect s;
  done_stays : done (self s) = true -> done (self s') = true;
  trace_grows : exists l, trace s' = (trace s ++ l)%list
                          /\ Forall (fun e => e = PlayerStop
                                              \/ exists label, e = Say ("Can't play " ++ label)) l
}.

(** The video search yields no candidate: it raises, it returns nothing,
    or the first entry of its result is empty. *)
Definition no_video (env : Env) (track : string) : Prop :=
  extract_info env track = None
  \/ (exists meta, extract_info env track = Some meta /\ truthy meta = false)
  \/ (exists meta entries first,
         extract_info env track = Some meta /\ truthy meta = true
         /\ getitem_key meta "entries" = inr entries
         /\ getitem_0 entries = inr first /\ truthy first = false).

(** An asynchronous event that leaves a playing session alone: an input
    callback at the idle level, or a player event other than the end of
    the stream and the error. *)
Definition idle (active : bool) (a : async) : Prop :=
  match a with
  | InputEvent _ level => level <> Z.b2z active
  | PlayerEvent MediaPlayerOther => True
  | PlayerEvent _ => False
  end.

Definition not_error (a : async) : Prop :=
  a <> PlayerEvent MediaPlayerEncounteredError.

Fixpoint all_word (s : string) : bool :=
  match s with
  | EmptyString => true
  | String c s' => Text.isword c && all_word s'
  end.

(** The character just before the end of [w], read after [prev] (which
    is reversed). *)
Fixpoint last_of (prev w : string) : option ascii :=
  match w with
  | EmptyString => match prev with String x _ => Some x | EmptyString => None end
  | String x w' => last_of (String x prev) w'
  end.

(** An event that is neither speech nor a call on the media player. *)
Definition background (e : event) : Prop :=
  spoken_of e = [] /\ is_player e = false.

(** Between [s] and [s'] exactly the sentence [text] was spoken. *)
Definition says_once (text : string) (s s' : St player) : Prop :=
  spoken s' = (spoken s ++ [text])%list.

Definition says_nothing (s s' : St player) : Prop := spoken s' = spoken s.

(** A search without candidates reported by one sentence, a "failed to
    find" message that contains the query. *)
Definition reports_failed_to_find (query : string) (s s' : St player) : Prop :=
  exists text,
    says_once text s s'
    /\ Text.contains "failed to find" (Text.lower text) = true
    /\ Text.contains query text = true.

(** Every event that [m] adds to the trace satisfies [P]. *)
Definition emits_only {O A} (P : event -> Prop) (m : M O A) : Prop :=
  forall s, exists l, trace (snd (m s)) = (trace s ++ l)%list /\ Forall P l.

(** A shell command of the volume control is acceptable when it reads
    the volume or sets it to a level between 0 and 100. *)
Definition volume_command_ok (e : event) : Prop :=
  match e with
  | Shell cmd =>
      cmd = VolumeControl.GET_VOLUME
      \/ exists vol, 0 <= vol <= 100 /\ cmd = VolumeControl.SET_VOLUME vol
  | _ => True
  end.

(** ** Sessions that reach playback *)

(** The video search has a first entry with an address and a title. *)
Definition video_found (env : Env) (track : string) (url : pyval) (title : string)
  : Prop :=
  exists meta entries first,
    extract_info env track = Some meta /\ truthy meta = true
    /\ getitem_key meta "entries" = inr entries
    /\ getitem_0 entries = inr first /\ truthy first = true
    /\ getitem_key first "url" = inr url
    /\ getitem_key first "title" = inr (PStr title).

(** From the state [s], the radio search returns a first station with an
    identifier and a title, and the address of its first stream; the two
    requests leave the state [s2]. *)
Definition station_found (env : Env) (search_str : string) (s s2 : St player)
           (url : pyval) (title : string) : Prop :=
  exists stations station station_id s1,
    TuneInRadio._search env search_str TuneInRadio.FILTER_STATIONS s
    = (Return stations, s1)
    /\ truthy stations = true
    /\ getitem_0 stations = inr station
    /\ getitem_key station "Id" = inr station_id
    /\ TuneInRadio._get_stream_url env station_id s1 = (Return url, s2)
    /\ truthy url = true
    /\ getitem_key station "Title" = inr (PStr title).

(** [m] touches neither the object nor the table of the GPIO library. *)
Definition keeps_object {O A} (m : M O A) : Prop :=
  forall s, self (snd (m s)) = self s /\ edge_detect (snd (m s)) = edge_detect s.

(** ** Scenarios *)

Module Scenario.

Definition video (title : string) : pyval :=
  PDict [("entries", PList [PDict [("url", PStr "http://v/1"); ("title", PStr title)]])].

Definition guide : pyval :=
  PDict [("ContainerGuideItems",
          PDict [("containers",
                  PList [PDict [("Title", PStr "Stations");
                                ("GuideItems",
                                 PList [PDict [("Id", PStr "s1");
                                               ("Title", PStr "Jazz FM")]])]])])].

Definition env_of (found : option pyval) (pages : string -> option string)
           (json : option pyval) : Env :=
  {| extract_info := fun _ => found;
     urlopen := pages;
     json_loads := fun _ => json;
     quote := fun q => q;
     str_of := fun v => match v with PStr t => t | PInt n => Text.decimal n | _ => "" end;
     check_output := fun _ => Some "40";
     call_fault := fun _ => None |}.

(** The video search finds one video with the given title. *)
Definition one_video (title : string) : Env :=
  env_of (Some (video title)) (fun _ => None) None.

(** The video search raises. *)
Definition no_result : Env := env_of None (fun _ => None) None.

(** The radio search page carries no payload. *)
Definition no_payload : Env :=
  env_of None (fun _ => Some "<html></html>") None.

(** The radio search finds a station; the page of the station has no
    stream address. *)
Definition no_stream_marker : Env :=
  env_of None
         (fun url => if Text.contains "search/" url
                     then Some "TuneIn.payload = {}" else Some "<html></html>")
         (Some guide).

(** Every request fails. *)
Definition offline : Env := env_of None (fun _ => None) None.

Definition fresh : St player := mkSt (mkPlayer "" PNone false false) [] [].

(** The two players as [make_actor] creates them, one after the other. *)
Definition youtube_ready : St player := snd (YouTubePlayer.__init__ "play" fresh).
Definition tunein_ready : St player := snd (TuneInRadio.__init__ "radio" youtube_ready).

Definition no_events : schedule := {| during_play := []; ticks := [] |}.

(** A session of the video player that is playing [title]: the state in
    which [run] waits when no event ever comes. *)
Definition playing (title : string) : St player :=
  snd (YouTubePlayer.run (one_video title) no_events "play it" youtube_ready).

Definition ends_at_once : schedule :=
  {| during_play := []; ticks := [[PlayerEvent MediaPlayerEndReached]] |}.

Definition fails_at_once : schedule :=
  {| during_play := []; ticks := [[PlayerEvent MediaPlayerEncounteredError]] |}.

Definition volume_start : St VolumeControl.t :=
  mkSt (VolumeControl.__init__ "volume") [] [].

End Scenario.

(** The integers 0, 1, ..., n - 1. *)
Definition upto (n : nat) : list Z := map Z.of_nat (seq 0 n).

(** [P] holds at every hour and minute of the day. *)
Definition all_times (P : Z -> Z -> bool) : bool :=
  forallb (fun h => forallb (P h) (upto 60)) (upto 24).

(** The sentence [r], when there is one, contains [piece]. *)
Definition sentence_has (piece : string) (r : exn + string) : bool :=
  match r with
  | inr text => Text.contains piece text
  | inl _ => false
  end.

Definition is_sentence (r : exn + string) : bool :=
  match r with inr _ => true | inl _ => false end.

Definition same_result (a b : exn + string) : bool :=
  match a, b with
  | inr x, inr y => (x =? y)%string
  | _, _ => false
  end.

(** Every character of [s] satisfies [p]. *)
Fixpoint all_of (p : ascii -> bool) (s : string) : bool :=
  match s with
  | EmptyString => true
  | String c s' => p c && all_of p s'
  end.

Definition first_char (s : string) : option ascii :=
  match s with
  | EmptyString => None
  | String c _ => Some c
  end.

Fixpoint last_char (s : string) : option ascii :=
  match s with
  | EmptyString => None
  | String c s' => match last_char s' with Some d => Some d | None => Some c end
  end.

(** The characters that [str.lower()] changes. *)
Definition is_upper (c : ascii) : bool :=
  Text.between 65 90 c || (Text.between 192 222 c && negb (Text.code c =? 215)%N).

(** The mode of a volume command: the command in lower case, without the
    keyword, stripped. *)
Definition volume_mode (o : VolumeControl.t) (voice_command : string) : string :=
  Text.strip (Text.replace1 (VolumeControl.keyword o) "" (Text.lower voice_command)).

Definition not_digit (c : ascii) : bool := negb (Text.isdecimal c).

(** [s] does not start with a decimal digit. *)
Definition no_digit_first (s : string) : bool :=
  match s with
  | EmptyString => true
  | String c _ => negb (Text.isdecimal c)
  end.

(** A piece of a label: a run of word characters, not empty, that
    neither starts nor ends with an underscore. *)
Definition token_ok (tok : string) : bool :=
  all_word tok
  && match first_char tok with Some c => negb (c =? "_")%char | None => false end
  && match last_char tok with Some c => negb (c =? "_")%char | None => false end.

Definition word_or_space (c : ascii) : bool := Text.isword c || (c =? " ")%char.

Definition not_alnum (c : ascii) : bool := negb (Text.isalnum c).

(** [m] adds at most [n] network requests to the trace. *)
Definition at_most_requests {O A} (n : nat) (m : M O A) : Prop :=
  forall s, exists l,
    trace (snd (m s)) = (trace s ++ l)%list
    /\ (List.length (filter is_network l) <= n)%nat.

(** A category of the radio guide whose title is not [wanted]. *)
Definition other_category (wanted : string) (category : pyval) : Prop :=
  exists title, getitem_key category "Title" = inr title
                /\ eq_str title wanted = false.

(** [m] reversed onto [prev]: the text before a position, once [m] has
    been read from there. *)
Fixpoint rev_onto (m prev : string) : string :=
  match m with
  | EmptyString => prev
  | String c m' => rev_onto m' (String c prev)
  end.

(** The text [m] does not start at any position of [pre] in
    [pre ++ rest]. *)
Fixpoint not_before (m pre rest : string) : bool :=
  match pre with
  | EmptyString => true
  | String c pre' =>
      match Text.drop_prefix m (String c pre' ++ rest) with
      | Some _ => false
      | None => not_before m pre' rest
      end
  end.

Definition double_quote : ascii := "034"%char.

(** The text before the stream address: StreamUrl in double quotes, a
    colon and the opening double quote. *)
Definition stream_marker : string :=
  String double_quote ("StreamUrl" ++ String double_quote (":" ++ String double_quote "")).

(** Neither a double quote nor a newline. *)
Definition in_quotes (c : ascii) : bool :=
  negb (c =? double_quote)%char && negb (c =? "010")%char.




(** ** More scenarios *)

Module Cases.

(** No shell command succeeds. *)
Definition no_shell : Env :=
  {| extract_info := fun _ => None;
     urlopen := fun _ => None;
     json_loads := fun _ => None;
     quote := fun q => q;
     str_of := fun _ => "";
     check_output := fun _ => None;
     call_fault := fun _ => None |}.

(** The page of a station with a stream address, and the list of
    streams found at that address. *)
Definition station_page : string :=
  "var x = {" ++ stream_marker ++ "//stream.example/1.json"
  ++ String double_quote ",}".

Definition with_stream : Env :=
  Scenario.env_of
    None
    (fun url => if Text.contains "station/" url then Some station_page
                else Some "streams")
    (Some (PDict [("Streams", PList [PDict [("Url", PStr "http://radio/1.mp3")]])])).


(** The radio search finds the station of [Scenario.guide], the page of
    the station names a list of streams, and the list has one stream. *)
Definition on_air : Env :=
  {| extract_info := fun _ => None;
     urlopen := fun url =>
                  if Text.contains "search/" url then Some "TuneIn.payload = {}"
                  else if Text.contains "station/" url then Some station_page
                       else Some "streams";
     json_loads := fun text =>
                     if (text =? "{}")%string then Some Scenario.guide
                     else Some (PDict [("Streams",
                                        PList [PDict [("Url", PStr "http://radio/1.mp3")]])]);
     quote := fun q => q;
     str_of := fun v => match v with PStr t => t | PInt n => Text.decimal n | _ => "" end;
     check_output := fun _ => None;
     call_fault := fun _ => None |}.

End Cases.

(** * Properties *)

(** ** Text *)

Example lower_ex : Text.lower "Play  Some_Song" = "play  some_song".
Proof. reflexivity. Qed.

Example strip_ex : Text.strip "  a b  " = "a b".
Proof. reflexivity. Qed.

Example replace1_ex : Text.replace1 "play" "" "play the player" = " the player".
Proof. reflexivity. Qed.

Lemma lstrip_all_space (s : string) :
  Text.all_space s = true -> Text.lstrip_by Text.isspace s = "".
Proof.
  induction s as [|c s IH]; simpl; intros H.
  - reflexivity.
  - apply andb_true_iff in H as [Hc Hs]. rewrite Hc. now apply IH.
Qed.

Lemma strip_all_space (s : string) :
  Text.all_space s = true -> Text.strip s = "".
Proof.
  intros H. unfold Text.strip. now rewrite lstrip_all_space.
Qed.

Lemma rstrip_empty (s : string) :
  Text.rstrip_by Text.isspace s = "" -> Text.all_space s = true.
Proof.
  induction s as [|c s IH]; simpl; intros H.
  - reflexivity.
  - destruct (Text.rstrip_by Text.isspace s) eqn:E.
    + destruct (Text.isspace c); [now rewrite IH | discriminate].
    + discriminate.
Qed.

Lemma lstrip_keeps_non_space (s : string) :
  Text.all_space (Text.lstrip_by Text.isspace s) = Text.all_space s.
Proof.
  induction s as [|c s IH]; simpl.
  - reflexivity.
  - destruct (Text.isspace c) eqn:E; simpl; [exact IH | now rewrite E].
Qed.

(** A text strips to nothing exactly when it is empty or made of white
    space only. *)
Lemma strip_empty_iff (s : string) :
  Text.strip s = "" <-> Text.all_space s = true.
Proof.
  split; [|apply strip_all_space].
  unfold Text.strip. intros H. apply rstrip_empty in H.
  now rewrite lstrip_keeps_non_space in H.
Qed.

(** ** Observations of a trace *)

Lemma spoken_app {O} (s : St O) (l : list event) :
  flat_map spoken_of (trace s ++ l) = (spoken s ++ flat_map spoken_of l)%list.
Proof. unfold spoken. apply flat_map_app. Qed.

Lemma spoken_mkSt {O} (o : O) (t : list event) g :
  spoken (mkSt o t g) = flat_map spoken_of t.
Proof. reflexivity. Qed.

Lemma network_calls_mkSt {O} (o : O) (t : list event) g :
  network_calls (mkSt o t g) = filter is_network t.
Proof. reflexivity. Qed.

Lemma player_calls_mkSt {O} (o : O) (t : list event) g :
  player_calls (mkSt o t g) = filter is_player t.
Proof. reflexivity. Qed.

(** ** Empty queries *)

Lemma YouTube_run_empty env sched cmd (s : St player) :
  Text.strip (Text.replace1 (keyword (self s)) "" (Text.lower cmd)) = "" ->
  YouTubePlayer.run env sched cmd s
  = (Return tt,
     mkSt (self s) (trace s ++ [Say "Please specify a song"]) (edge_detect s)).
Proof.
  intros H. unfold YouTubePlayer.run, bind, get_self. rewrite H. reflexivity.
Qed.

Lemma TuneIn_run_empty env sched cmd (s : St player) :
  Text.strip (Text.replace1 (keyword (self s)) "" (Text.lower cmd)) = "" ->
  TuneInRadio.run env sched cmd s
  = (Return tt,
     mkSt (self s) (trace s ++ [Say "Please specify a station"]) (edge_detect s)).
Proof.
  intros H. unfold TuneInRadio.run, bind, get_self. rewrite H. reflexivity.
Qed.

(** C2.  For every command whose text, once lower-cased and with the
    keyword removed, is empty or white space only, [run] returns at once:
    it speaks the one sentence asking for a target, makes no network
    request and no call on the media player.  This holds for the video
    player and for the radio player. *)
Theorem empty_query_only_asks_for_target env sched cmd (s : St player) :
  Text.all_space (Text.replace1 (keyword (self s)) "" (Text.lower cmd)) = true ->
  (fst (YouTubePlayer.run env sched cmd s) = Return tt
   /\ trace (snd (YouTubePlayer.run env sched cmd s))
      = (trace s ++ [Say "Please specify a song"])%list
   /\ spoken (snd (YouTubePlayer.run env sched cmd s))
      = (spoken s ++ ["Please specify a song"])%list
   /\ network_calls (snd (YouTubePlayer.run env sched cmd s)) = network_calls s
   /\ player_calls (snd (YouTubePlayer.run env sched cmd s)) = player_calls s)
  /\
  (fst (TuneInRadio.run env sched cmd s) = Return tt
   /\ trace (snd (TuneInRadio.run env sched cmd s))
      = (trace s ++ [Say "Please specify a station"])%list
   /\ spoken (snd (TuneInRadio.run env sched cmd s))
      = (spoken s ++ ["Please specify a station"])%list
   /\ network_calls (snd (TuneInRadio.run env sched cmd s)) = network_calls s
   /\ player_calls (snd (TuneInRadio.run env sched cmd s)) = player_calls s).
Proof.
  intros H. apply strip_all_space in H.
  rewrite (YouTube_run_empty env sched cmd s H).
  rewrite (TuneIn_run_empty env sched cmd s H).
  cbn [fst snd trace].
  rewrite !spoken_mkSt, !network_calls_mkSt, !player_calls_mkSt.
  unfold spoken, network_calls, player_calls.
  rewrite !flat_map_app, !filter_app. cbn. rewrite !app_nil_r.
  repeat split; reflexivity.
Qed.

(** ** What a computation may emit *)

Section EmitsOnly.

Context {O : Type} (P : event -> Prop).

Lemma emits_ret {A} (a : A) : emits_only P (ret a : M O A).
Proof. intros s. exists []. cbn. now rewrite app_nil_r. Qed.

Lemma emits_raise {A} (e : exn) : emits_only P (raise e : M O A).
Proof. intros s. exists []. cbn. now rewrite app_nil_r. Qed.

Lemma emits_lift {A} (r : exn + A) : emits_only P (lift r : M O A).
Proof. destruct r; [apply emits_raise | apply emits_ret]. Qed.

Lemma emits_get_self : emits_only P (get_self : M O O).
Proof. intros s. exists []. cbn. now rewrite app_nil_r. Qed.

Lemma emits_set_self (o : O) : emits_only P (set_self o).
Proof. intros s. exists []. cbn. now rewrite app_nil_r. Qed.

Lemma emits_emit (e : event) : P e -> emits_only P (emit e : M O unit).
Proof. intros H s. exists [e]. cbn. split; [reflexivity | now constructor]. Qed.

Lemma emits_bind {A B} (m : M O A) (f : A -> M O B) :
  emits_only P m -> (forall a, emits_only P (f a)) -> emits_only P (bind m f).
Proof.
  intros Hm Hf s. unfold bind.
  destruct (Hm s) as (l & Hl & Pl).
  destruct (m s) as [[a | e |] s1]; cbn in *.
  - destruct (Hf a s1) as (l' & Hl' & Pl').
    exists (l ++ l')%list. rewrite Hl', Hl, app_assoc. split; [reflexivity|].
    apply Forall_app. now split.
  - now exists l.
  - now exists l.
Qed.

Lemma emits_try_except {A} (body handler : M O A) caught :
  emits_only P body -> emits_only P handler ->
  emits_only P (try_except body caught handler).
Proof.
  intros Hb Hh s. unfold try_except.
  destruct (Hb s) as (l & Hl & Pl).
  destruct (body s) as [[a | e |] s1]; cbn in *.
  - now exists l.
  - destruct (caught e).
    + destruct (Hh s1) as (l' & Hl' & Pl').
      exists (l ++ l')%list. rewrite Hl', Hl, app_assoc. split; [reflexivity|].
      apply Forall_app. now split.
    + now exists l.
  - now exists l.
Qed.

End EmitsOnly.

Create HintDb emits.

#[local] Hint Resolve emits_ret emits_raise emits_lift emits_get_self
  emits_set_self emits_bind emits_try_except : emits.

(** ** VolumeControl *)

Lemma emits_check_output env cmd :
  cmd = VolumeControl.GET_VOLUME ->
  emits_only volume_command_ok
             (subprocess_check_output env cmd : M VolumeControl.t string).
Proof.
  intros ->. unfold subprocess_check_output.
  apply emits_bind; [apply emits_emit; now left|].
  intros _. destruct (check_output env _); auto with emits.
Qed.

Lemma emits_int_of (txt : string) :
  emits_only volume_command_ok (int_of txt : M VolumeControl.t Z).
Proof. unfold int_of. destruct (Text.parse_int txt); auto with emits. Qed.

Lemma emits_assign_value v :
  emits_only volume_command_ok (VolumeControl.assign_value v).
Proof. unfold VolumeControl.assign_value. auto with emits. Qed.

Lemma emits_set env value :
  emits_only volume_command_ok (VolumeControl.set env value).
Proof.
  unfold VolumeControl.set, subprocess_call.
  apply emits_try_except.
  - apply emits_bind.
    + apply emits_bind.
      * apply emits_emit. right. exists (Z.max 0 (Z.min 100 value)).
        split; [lia | reflexivity].
      * intros _. destruct (call_fault env _); auto with emits.
    + intros _. apply emits_bind; [now apply emits_emit|].
      intros _. apply emits_assign_value.
  - now apply emits_emit.
Qed.

Lemma emits_increment env d :
  emits_only volume_command_ok (VolumeControl.increment env d).
Proof.
  unfold VolumeControl.increment.
  apply emits_bind; [now apply emits_check_output|]. intros out.
  apply emits_bind; [apply emits_int_of|]. intros n. apply emits_set.
Qed.

Lemma emits_read_volume env :
  emits_only volume_command_ok
    (out <- subprocess_check_output env VolumeControl.GET_VOLUME ;;
     n <- int_of (Text.bytes_strip out) ;;
     VolumeControl.assign_value n).
Proof.
  apply emits_bind; [now apply emits_check_output|]. intros out.
  apply emits_bind; [apply emits_int_of|]. intros n. apply emits_assign_value.
Qed.

Lemma emits_tell env :
  emits_only volume_command_ok (VolumeControl.tell env).
Proof.
  unfold VolumeControl.tell.
  apply emits_bind; [apply emits_get_self|]. intros o.
  apply emits_bind.
  - destruct (VolumeControl.value o) as [v|].
    + destruct (v =? 0); [apply emits_read_volume | apply emits_ret].
    + apply emits_read_volume.
  - intros _. apply emits_bind; [apply emits_get_self|]. intros o'.
    destruct (VolumeControl.value o'); [now apply emits_emit | apply emits_raise].
Qed.

Lemma emits_run env cmd :
  emits_only volume_command_ok (VolumeControl.run env cmd).
Proof.
  unfold VolumeControl.run.
  apply emits_bind; [apply emits_get_self|]. intros o.
  repeat match goal with
         | |- emits_only _ (if ?b then _ else _) => destruct b
         end.
  - apply emits_bind; [apply emits_increment | intros; apply emits_tell].
  - apply emits_bind; [apply emits_increment | intros; apply emits_tell].
  - apply emits_bind; [apply emits_set | intros; apply emits_tell].
  - apply emits_bind; [apply emits_set | intros; apply emits_tell].
  - destruct (Re.search _ _).
    + apply emits_bind; [apply emits_int_of|]. intros vol.
      apply emits_bind; [apply emits_set | intros; apply emits_tell].
    + now apply emits_emit.
  - apply emits_tell.
Qed.

Lemma set_without_fault env value (s : St VolumeControl.t) :
  call_fault env (VolumeControl.SET_VOLUME (Z.max 0 (Z.min 100 value))) = None ->
  VolumeControl.set env value s
  = (Return tt,
     mkSt (VolumeControl.mk (VolumeControl.keyword (self s))
                            (Some (Z.max 0 (Z.min 100 value))))
          ((trace s ++ [Shell (VolumeControl.SET_VOLUME (Z.max 0 (Z.min 100 value)))])
             ++ [Log "info" (PStr ("volume: " ++ Text.decimal (Z.max 0 (Z.min 100 value))))])
          (edge_detect s)).
Proof.
  intros H.
  unfold VolumeControl.set, try_except, subprocess_call, bind, emit.
  rewrite H. reflexivity.
Qed.

Lemma set_with_fault env value (s : St VolumeControl.t) e :
  call_fault env (VolumeControl.SET_VOLUME (Z.max 0 (Z.min 100 value))) = Some e ->
  self (snd (VolumeControl.set env value s)) = self s.
Proof.
  intros H.
  unfold VolumeControl.set, try_except, subprocess_call, bind, emit.
  rewrite H. cbn. destruct e; reflexivity.
Qed.

(** C10.  Whatever integer [set] receives, the level it passes to the
    mixer lies between 0 and 100: it is the input when the input is in
    that range, 0 below it and 100 above it; the level recorded in
    [self.value] is that same level (when the mixer call raises, nothing
    is recorded).  Every way [run] takes to change the volume (the
    spoken number, up, down, max, mute) goes through [set]: the only
    shell commands of [run] read the volume or set it to a level between
    0 and 100. *)
Theorem volume_set_is_clamped env (value : Z) (s : St VolumeControl.t) :
  (exists vol,
      0 <= vol <= 100
      /\ (value < 0 -> vol = 0)
      /\ (100 < value -> vol = 100)
      /\ (0 <= value <= 100 -> vol = value)
      /\ (exists l, trace (snd (VolumeControl.set env value s))
                    = (trace s ++ Shell (VolumeControl.SET_VOLUME vol) :: l)%list
                    /\ Forall (fun e => match e with Shell _ => False | _ => True end) l)
      /\ (VolumeControl.value (self (snd (VolumeControl.set env value s))) = Some vol
          \/ self (snd (VolumeControl.set env value s)) = self s)
      /\ (call_fault env (VolumeControl.SET_VOLUME vol) = None ->
          fst (VolumeControl.set env value s) = Return tt
          /\ VolumeControl.value (self (snd (VolumeControl.set env value s))) = Some vol))
  /\ (forall cmd, emits_only volume_command_ok (VolumeControl.run env cmd)).
Proof.
  split; [|intros cmd; apply emits_run].
  exists (Z.max 0 (Z.min 100 value)).
  repeat (split; [lia|]).
  destruct (call_fault env (VolumeControl.SET_VOLUME (Z.max 0 (Z.min 100 value))))
    as [e|] eqn:F.
  - split; [|split; [right; eapply set_with_fault; eauto | discriminate]].
    unfold VolumeControl.set, try_except, subprocess_call, bind, emit.
    rewrite F.
    destruct e;
      first [ exists nil; split; [reflexivity | apply Forall_nil]
            | exists [Log "exception" (PStr "Error using amixer to adjust volume.")];
              split; [unfold raise; cbn [snd trace]; now rewrite <- app_assoc
                     | repeat constructor] ].
  - rewrite (set_without_fault env value s F). cbn [fst snd self trace].
    split; [|split; [now left | intros _; now split]].
    eexists. rewrite <- app_assoc. split; [reflexivity|]. repeat constructor.
Qed.

(** ** The callbacks *)

(** The two classes define the same callbacks. *)
Lemma TuneIn_callbacks_same :
  TuneInRadio._on_input_event = YouTubePlayer._on_input_event
  /\ TuneInRadio._on_player_event = YouTubePlayer._on_player_event.
Proof. split; reflexivity. Qed.

Lemma eta_state (s : St player) :
  mkSt (mkPlayer (keyword (self s)) (now_playing (self s)) (done (self s))
                 (input_value (self s)))
       (trace s) (edge_detect s) = s.
Proof. destruct s as [[k n d i] t g]. reflexivity. Qed.

Lemma on_input_active level channel (s : St player) :
  level = Z.b2z (input_value (self s)) ->
  YouTubePlayer._on_input_event level channel s
  = (Return tt, finished s (trace s ++ [PlayerStop])).
Proof.
  intros ->. unfold YouTubePlayer._on_input_event, bind, get_self.
  rewrite Z.eqb_refl. reflexivity.
Qed.

Lemma on_input_idle level channel (s : St player) :
  level <> Z.b2z (input_value (self s)) ->
  YouTubePlayer._on_input_event level channel s = (Return tt, s).
Proof.
  intros H. unfold YouTubePlayer._on_input_event, bind, get_self.
  apply Z.eqb_neq in H. rewrite H. reflexivity.
Qed.

Lemma on_end_reached (s : St player) :
  YouTubePlayer._on_player_event MediaPlayerEndReached s
  = (Return tt, finished s (trace s)).
Proof. reflexivity. Qed.

Lemma on_error label (s : St player) :
  now_playing (self s) = PStr label ->
  YouTubePlayer._on_player_event MediaPlayerEncounteredError s
  = (Return tt, finished s (trace s ++ [Say ("Can't play " ++ label)])).
Proof.
  intros H. unfold YouTubePlayer._on_player_event, bind, get_self.
  rewrite H. reflexivity.
Qed.

Lemma on_error_without_label (s : St player) :
  (forall label, now_playing (self s) <> PStr label) ->
  YouTubePlayer._on_player_event MediaPlayerEncounteredError s
  = (Raise TypeError, s).
Proof.
  intros H. unfold YouTubePlayer._on_player_event, bind, get_self.
  destruct (now_playing (self s)) eqn:E; try reflexivity.
  now destruct (H s0).
Qed.

(** What one callback can do to a session: nothing, or mark it done
    after stopping the player, or after saying that it cannot play, or
    silently. *)
Lemma deliver_cases (a : async) (s : St player) :
  yt_deliver a s = s
  \/ yt_deliver a s = finished s (trace s)
  \/ ((exists channel, a = InputEvent channel (Z.b2z (input_value (self s))))
      /\ yt_deliver a s = finished s (trace s ++ [PlayerStop]))
  \/ (exists label, a = PlayerEvent MediaPlayerEncounteredError
                    /\ now_playing (self s) = PStr label
                    /\ yt_deliver a s
                       = finished s (trace s ++ [Say ("Can't play " ++ label)])).
Proof.
  destruct a as [channel level | ty]; unfold deliver.
  - destruct (Z.eq_dec level (Z.b2z (input_value (self s)))) as [E | E].
    + right. right. left. rewrite (on_input_active _ _ _ E). subst. split; eauto.
    + left. now rewrite (on_input_idle _ _ _ E).
  - destruct ty.
    + right. left. reflexivity.
    + destruct (now_playing (self s)) as [| | |label| |] eqn:E;
        try (left; rewrite on_error_without_label; [reflexivity | congruence]).
      right. right. right. exists label. rewrite (on_error label s E). auto.
    + left. reflexivity.
Qed.

Lemma extends_refl s : extends s s.
Proof.
  constructor; auto. exists []. now rewrite app_nil_r.
Qed.

Lemma extends_trans s1 s2 s3 : extends s1 s2 -> extends s2 s3 -> extends s1 s3.
Proof.
  intros [k1 n1 i1 g1 d1 (l1 & t1 & f1)] [k2 n2 i2 g2 d2 (l2 & t2 & f2)].
  constructor; try congruence; auto.
  exists (l1 ++ l2)%list. rewrite t2, t1, app_assoc. split; [reflexivity|].
  apply Forall_app. now split.
Qed.

Lemma extends_finished s l :
  Forall (fun e => e = PlayerStop \/ exists label, e = Say ("Can't play " ++ label)) l ->
  extends s (finished s (trace s ++ l)).
Proof. intros H. constructor; cbn; auto. now exists l. Qed.

Lemma deliver_extends (a : async) (s : St player) : extends s (yt_deliver a s).
Proof.
  destruct (deliver_cases a s) as [E | [E | [[_ E] | (label & _ & _ & E)]]]; rewrite E.
  - apply extends_refl.
  - rewrite <- (app_nil_r (trace s)). apply extends_finished. constructor.
  - apply extends_finished. repeat constructor.
  - apply extends_finished. constructor; [right; now exists label | constructor].
Qed.

Lemma deliver_all_cons (a : async) (l : list async) (s : St player) :
  yt_deliver_all (a :: l) s = yt_deliver_all l (yt_deliver a s).
Proof. reflexivity. Qed.

Lemma deliver_all_extends (l : list async) (s : St player) :
  extends s (yt_deliver_all l s).
Proof.
  revert s. induction l as [|a l IH]; intros s.
  - apply extends_refl.
  - rewrite deliver_all_cons.
    eapply extends_trans; [apply deliver_extends | apply IH].
Qed.

Lemma deliver_idle (a : async) (s : St player) :
  idle (input_value (self s)) a -> yt_deliver a s = s.
Proof.
  destruct a as [channel level | ty]; unfold deliver, idle.
  - intros H. now rewrite on_input_idle.
  - destruct ty; intros H; try contradiction. reflexivity.
Qed.

Lemma deliver_all_idle (l : list async) (s : St player) :
  Forall (idle (input_value (self s))) l -> yt_deliver_all l s = s.
Proof.
  induction 1 as [|a l Ha _ IH]; [reflexivity|].
  now rewrite deliver_all_cons, (deliver_idle a s Ha).
Qed.

Lemma deliver_all_app (l1 l2 : list async) (s : St player) :
  yt_deliver_all (l1 ++ l2) s = yt_deliver_all l2 (yt_deliver_all l1 s).
Proof. unfold deliver_all. apply fold_left_app. Qed.

(** A callback that is not the player's error says nothing. *)
Lemma deliver_quiet (a : async) (s : St player) :
  not_error a -> spoken (yt_deliver a s) = spoken s.
Proof.
  intros H.
  destruct (deliver_cases a s) as [E | [E | [[_ E] | (label & Ea & _)]]];
    try rewrite E; try reflexivity.
  - unfold spoken, finished. cbn. rewrite flat_map_app. cbn. now rewrite app_nil_r.
  - contradiction.
Qed.

Lemma deliver_all_quiet (l : list async) (s : St player) :
  Forall not_error l -> spoken (yt_deliver_all l s) = spoken s.
Proof.
  intros H. revert s. induction H as [|a l Ha _ IH]; intros s; [reflexivity|].
  now rewrite deliver_all_cons, IH, deliver_quiet.
Qed.

(** ** The waiting loop *)

Lemma wait_done (t : list (list async)) (s : St player) :
  done (self s) = true -> yt_wait t s = (Return tt, s).
Proof. intros H. destruct t; cbn; now rewrite H. Qed.

Lemma wait_tick (l : list async) (t : list (list async)) (s : St player) :
  done (self s) = false ->
  yt_wait (l :: t) s
  = yt_wait t (yt_deliver_all l (mkSt (self s) (trace s ++ [Sleep]) (edge_detect s))).
Proof. intros H. cbn. now rewrite H. Qed.

(** Ticks with idle events only leave the session playing: the loop
    sleeps through them. *)
Lemma wait_idle_ticks (quiet t : list (list async)) (s : St player) :
  done (self s) = false ->
  Forall (Forall (idle (input_value (self s)))) quiet ->
  yt_wait (quiet ++ t) s
  = yt_wait t (mkSt (self s) (trace s ++ repeat Sleep (List.length quiet))
                    (edge_detect s)).
Proof.
  intros D H. revert s D H. induction quiet as [|l quiet IH]; intros s D H.
  - cbn [app List.length repeat]. rewrite app_nil_r. now destruct s.
  - inversion H as [|? ? Hl Hq]; subst.
    cbn [app]. rewrite wait_tick by assumption.
    rewrite deliver_all_idle by exact Hl.
    rewrite IH; cbn [self trace edge_detect]; auto.
    now rewrite <- app_assoc.
Qed.

Lemma spoken_repeat_sleep (n : nat) : flat_map spoken_of (repeat Sleep n) = [].
Proof. induction n; cbn; auto. Qed.

Lemma cancel_press (s : St player) (channel : Z)
      (quiet later : list (list async)) (before after : list async) :
  done (self s) = false ->
  Forall (Forall (idle (input_value (self s)))) quiet ->
  Forall (idle (input_value (self s))) before ->
  yt_deliver (InputEvent channel (Z.b2z (input_value (self s)))) s
  = finished s (trace s ++ [PlayerStop])
  /\ exists s',
      yt_wait (quiet ++ (before ++ InputEvent channel (Z.b2z (input_value (self s)))
                                :: after) :: later)%list s
      = (Return tt, s')
      /\ done (self s') = true
      /\ In PlayerStop (trace s')
      /\ (Forall not_error after -> spoken s' = spoken s).
Proof.
  intros D Hq Hb. split.
  { unfold deliver. now rewrite on_input_active. }
  rewrite wait_idle_ticks by assumption.
  rewrite wait_tick by exact D. cbn [self trace edge_detect].
  rewrite deliver_all_app. rewrite (deliver_all_idle before) by exact Hb.
  rewrite deliver_all_cons. unfold deliver at 1.
  rewrite on_input_active by reflexivity. cbn [self trace edge_detect snd].
  match goal with
  | |- context [yt_deliver_all after ?x] =>
      set (s3 := x); pose proof (deliver_all_extends after s3) as E
  end.
  exists (yt_deliver_all after s3).
  assert (D' : done (self (yt_deliver_all after s3)) = true)
    by (apply (done_stays _ _ E); reflexivity).
  split; [now apply wait_done|]. split; [exact D'|]. split.
  - destruct (trace_grows _ _ E) as (l & -> & _).
    subst s3. unfold finished. cbn [trace].
    apply in_or_app. left. apply in_or_app. right. now left.
  - intros Ha. rewrite deliver_all_quiet by exact Ha.
    subst s3. unfold spoken, finished. cbn [trace].
    rewrite !flat_map_app, spoken_repeat_sleep. cbn. now rewrite !app_nil_r.
Qed.

(** The path of [run] that reaches playback: the search has a first
    entry with an address and a title. *)
Lemma YouTube_run_plays env sched cmd (s : St player) meta entries first url title :
  Text.is_empty (query_of (self s) cmd) = false ->
  extract_info env (query_of (self s) cmd) = Some meta ->
  truthy meta = true ->
  getitem_key meta "entries" = inr entries ->
  getitem_0 entries = inr first ->
  truthy first = true ->
  getitem_key first "url" = inr url ->
  getitem_key first "title" = inr (PStr title) ->
  YouTubePlayer.run env sched cmd s
  = yt_wait (ticks sched)
            (snd (set_done false
                    (yt_deliver_all
                       (during_play sched)
                       (mkSt (mkPlayer (keyword (self s))
                                       (PStr (YouTubePlayer.clean_title title))
                                       (done (self s)) (input_value (self s)))
                             (trace s
                              ++ [YdlExtract (query_of (self s) cmd);
                                  Log "debug" url; MediaNew url; SetMedia;
                                  Log "info" (PStr (YouTubePlayer.clean_title title));
                                  Say ("Now playing " ++ YouTubePlayer.clean_title title);
                                  PlayerPlay])
                             (edge_detect s))))).
Proof.
  unfold query_of. intros Q E T K I F U L.
  cbv [YouTubePlayer.run bind get_self try_except YouTubePlayer.ydl_extract_info
       emit say].
  cbn [self trace edge_detect]. rewrite Q, E.
  cbv [ret]. rewrite T. cbn [negb]. rewrite K. cbv [lift ret]. rewrite I, F.
  cbn [negb]. rewrite U, L.
  cbv [set_now_playing bind get_self set_self callbacks].
  cbn [self trace edge_detect keyword now_playing done input_value].
  rewrite <- !app_assoc. reflexivity.
Qed.

Example play_then_cancel :
  YouTubePlayer.run (Scenario.one_video "x")
                    {| during_play := []; ticks := [[]; [InputEvent 23 0]; []] |}
                    "play it" Scenario.youtube_ready
  = (Return tt,
     finished (Scenario.playing "x")
              (trace (Scenario.playing "x") ++ [Sleep; Sleep; PlayerStop])).
Proof. vm_compute. reflexivity. Qed.

(** A press that comes while [player.play()] is still in progress stops
    the player, but [run] then sets [done] to false and waits. *)
Example press_while_play_starts :
  YouTubePlayer.run (Scenario.one_video "x")
                    {| during_play := [InputEvent 23 0]; ticks := [[]] |}
                    "play it" Scenario.youtube_ready
  = (Blocks,
     mkSt (self (Scenario.playing "x"))
          (trace (Scenario.playing "x") ++ [PlayerStop; Sleep])
          (edge_detect (Scenario.playing "x"))).
Proof. vm_compute. reflexivity. Qed.

(** Inside the waiting loop ([done] is false), a callback of the cancel
    switch that reads the active level calls [player.stop()] and marks
    the session done without saying anything.  Whatever idle ticks come
    first, the loop returns after the tick of the press, with the stop
    recorded; if no player error follows the press in that tick, nothing
    at all has been said since the loop started.  The two players behave
    alike.  What [run] does with a press that comes before the loop is
    the subject of [press_after_play] below. *)
Theorem cancel_press_stops_playback (s : St player) (channel : Z)
        (quiet later : list (list async)) (before after : list async) :
  done (self s) = false ->
  Forall (Forall (idle (input_value (self s)))) quiet ->
  Forall (idle (input_value (self s))) before ->
  (yt_deliver (InputEvent channel (Z.b2z (input_value (self s)))) s
   = finished s (trace s ++ [PlayerStop])
   /\ exists s',
       yt_wait (quiet ++ (before ++ InputEvent channel (Z.b2z (input_value (self s)))
                                 :: after) :: later)%list s
       = (Return tt, s')
       /\ done (self s') = true
       /\ In PlayerStop (trace s')
       /\ (Forall not_error after -> spoken s' = spoken s))
  /\
  (ti_deliver (InputEvent channel (Z.b2z (input_value (self s)))) s
   = finished s (trace s ++ [PlayerStop])
   /\ exists s',
       ti_wait (quiet ++ (before ++ InputEvent channel (Z.b2z (input_value (self s)))
                                 :: after) :: later)%list s
       = (Return tt, s')
       /\ done (self s') = true
       /\ In PlayerStop (trace s')
       /\ (Forall not_error after -> spoken s' = spoken s)).
Proof.
  intros D Hq Hb. split.
  - now apply cancel_press.
  - exact (cancel_press s channel quiet later before after D Hq Hb).
Qed.

(** ** The level guard *)

Ltac init_gpio_tac :=
  cbv [YouTubePlayer._init_gpio TuneInRadio._init_gpio
       try_except bind set_input_value get_self set_self
       GPIO.setmode_BCM GPIO.setup_IN GPIO.add_event_detect
       GPIO.add_event_callback emit];
  cbn [self trace edge_detect].

Lemma YouTube_init_gpio_bound channel polarity pud (s : St player) e cbs :
  GPIO.lookup channel (edge_detect s) = Some (e, cbs) ->
  YouTubePlayer._init_gpio channel polarity pud s
  = (Return tt,
     mkSt (mkPlayer (keyword (self s)) (now_playing (self s)) (done (self s))
                    (match polarity with RISING => true | _ => false end))
          (((trace s ++ [GpioSetmode]) ++ [GpioSetup channel pud])
             ++ [Log "info" (PStr "Event already added")])
          (GPIO.update channel (e, cbs ++ [YouTube_on_input_event])%list
                       (edge_detect s))).
Proof.
  intros H. init_gpio_tac. rewrite H. cbn [self trace edge_detect].
  rewrite ?H. reflexivity.
Qed.

Lemma YouTube_init_gpio_free channel polarity pud (s : St player) :
  GPIO.lookup channel (edge_detect s) = None ->
  YouTubePlayer._init_gpio channel polarity pud s
  = (Return tt,
     mkSt (mkPlayer (keyword (self s)) (now_playing (self s)) (done (self s))
                    (match polarity with RISING => true | _ => false end))
          ((trace s ++ [GpioSetmode]) ++ [GpioSetup channel pud])
          (GPIO.update channel (polarity, [YouTube_on_input_event])
                       (edge_detect s))).
Proof.
  intros H. init_gpio_tac. rewrite H. cbn [self trace edge_detect].
  rewrite ?H. reflexivity.
Qed.

Lemma TuneIn_init_gpio_bound channel polarity pud (s : St player) e cbs :
  GPIO.lookup channel (edge_detect s) = Some (e, cbs) ->
  TuneInRadio._init_gpio channel polarity pud s
  = (Return tt,
     mkSt (mkPlayer (keyword (self s)) (now_playing (self s)) (done (self s))
                    (match polarity with RISING => true | _ => false end))
          (((trace s ++ [GpioSetmode]) ++ [GpioSetup channel pud])
             ++ [Log "info" (PStr "Event already added")])
          (GPIO.update channel (e, cbs ++ [TuneIn_on_input_event])%list
                       (edge_detect s))).
Proof.
  intros H. init_gpio_tac. rewrite H. cbn [self trace edge_detect].
  rewrite ?H. reflexivity.
Qed.

Lemma TuneIn_init_gpio_free channel polarity pud (s : St player) :
  GPIO.lookup channel (edge_detect s) = None ->
  TuneInRadio._init_gpio channel polarity pud s
  = (Return tt,
     mkSt (mkPlayer (keyword (self s)) (now_playing (self s)) (done (self s))
                    (match polarity with RISING => true | _ => false end))
          ((trace s ++ [GpioSetmode]) ++ [GpioSetup channel pud])
          (GPIO.update channel (polarity, [TuneIn_on_input_event])
                       (edge_detect s))).
Proof.
  intros H. init_gpio_tac. rewrite H. cbn [self trace edge_detect].
  rewrite ?H. reflexivity.
Qed.

Lemma YouTube_init_gpio_input_value channel polarity pud (s : St player) :
  input_value (self (snd (YouTubePlayer._init_gpio channel polarity pud s)))
  = match polarity with RISING => true | _ => false end.
Proof.
  destruct (GPIO.lookup channel (edge_detect s)) as [[e cbs]|] eqn:E.
  - now rewrite (YouTube_init_gpio_bound _ _ _ _ _ _ E).
  - now rewrite (YouTube_init_gpio_free _ _ _ _ E).
Qed.

Lemma TuneIn_init_gpio_input_value channel polarity pud (s : St player) :
  input_value (self (snd (TuneInRadio._init_gpio channel polarity pud s)))
  = match polarity with RISING => true | _ => false end.
Proof.
  destruct (GPIO.lookup channel (edge_detect s)) as [[e cbs]|] eqn:E.
  - now rewrite (TuneIn_init_gpio_bound _ _ _ _ _ _ E).
  - now rewrite (TuneIn_init_gpio_free _ _ _ _ E).
Qed.

Lemma level_guard (active : bool) (s : St player) (channel level : Z) :
  input_value (self s) = active ->
  (level = Z.b2z active ->
   YouTubePlayer._on_input_event level channel s
   = (Return tt, finished s (trace s ++ [PlayerStop])))
  /\ (level <> Z.b2z active ->
      YouTubePlayer._on_input_event level channel s = (Return tt, s)).
Proof.
  intros <-. split; intros H.
  - now apply on_input_active.
  - now apply on_input_idle.
Qed.

(** C9.  [_init_gpio] records the level that counts as a press: high for
    a rising edge, low otherwise (low for the default, a falling edge on
    a pulled-up line).  A call of the input callback stops the player and
    marks the session done when the line reads that level; when the line
    reads the other level the call changes nothing at all. *)
Theorem input_callback_checks_level (channel0 : Z) (polarity : edge) (pud : pull)
        (s0 s : St player) (channel level : Z) :
  (input_value (self s)
   = input_value (self (snd (YouTubePlayer._init_gpio channel0 polarity pud s0))) ->
   (level = match polarity with RISING => 1 | _ => 0 end ->
    YouTubePlayer._on_input_event level channel s
    = (Return tt, finished s (trace s ++ [PlayerStop])))
   /\ (level <> match polarity with RISING => 1 | _ => 0 end ->
       YouTubePlayer._on_input_event level channel s = (Return tt, s)))
  /\
  (input_value (self s)
   = input_value (self (snd (TuneInRadio._init_gpio channel0 polarity pud s0))) ->
   (level = match polarity with RISING => 1 | _ => 0 end ->
    TuneInRadio._on_input_event level channel s
    = (Return tt, finished s (trace s ++ [PlayerStop])))
   /\ (level <> match polarity with RISING => 1 | _ => 0 end ->
       TuneInRadio._on_input_event level channel s = (Return tt, s))).
Proof.
  split; intros H.
  - rewrite YouTube_init_gpio_input_value in H.
    destruct (level_guard _ s channel level H) as [A I].
    destruct polarity; split; assumption.
  - rewrite TuneIn_init_gpio_input_value in H.
    destruct (level_guard _ s channel level H) as [A I].
    destruct polarity; split; assumption.
Qed.

(** ** Arming the cancel switch *)

Lemma lookup_update (channel : Z) x (t : GPIO.table) :
  GPIO.lookup channel (GPIO.update channel x t) = Some x.
Proof.
  induction t as [|[c y] t IH]; cbn.
  - now rewrite Z.eqb_refl.
  - destruct (c =? channel) eqn:E; cbn; rewrite E; [reflexivity | exact IH].
Qed.

Lemma YouTube_init_unfold kw (s : St player) :
  YouTubePlayer.__init__ kw s
  = YouTubePlayer._init_gpio 23 FALLING PUD_UP
      (mkSt (mkPlayer kw PNone false false) (trace s) (edge_detect s)).
Proof. reflexivity. Qed.

Lemma TuneIn_init_unfold kw (s : St player) :
  TuneInRadio.__init__ kw s
  = TuneInRadio._init_gpio 23 FALLING PUD_UP
      (mkSt (mkPlayer kw PNone false false) (trace s) (edge_detect s)).
Proof. reflexivity. Qed.

(** C6.  When edge detection is already enabled on the channel,
    [_init_gpio] returns normally: the conflict is logged ("Event already
    added") and the callback of the new object is appended to the
    callbacks of the channel.  So the constructor of either player
    returns normally when channel 23 is already bound. *)
Theorem rearming_bound_channel_adds_callback
        (channel : Z) (polarity : edge) (pud : pull) (kw : string)
        (s : St player) (e : edge) (cbs : list callback) :
  GPIO.lookup channel (edge_detect s) = Some (e, cbs) ->
  (fst (YouTubePlayer._init_gpio channel polarity pud s) = Return tt
   /\ In (Log "info" (PStr "Event already added"))
         (trace (snd (YouTubePlayer._init_gpio channel polarity pud s)))
   /\ GPIO.lookup channel
        (edge_detect (snd (YouTubePlayer._init_gpio channel polarity pud s)))
      = Some (e, (cbs ++ [YouTube_on_input_event])%list))
  /\
  (fst (TuneInRadio._init_gpio channel polarity pud s) = Return tt
   /\ In (Log "info" (PStr "Event already added"))
         (trace (snd (TuneInRadio._init_gpio channel polarity pud s)))
   /\ GPIO.lookup channel
        (edge_detect (snd (TuneInRadio._init_gpio channel polarity pud s)))
      = Some (e, (cbs ++ [TuneIn_on_input_event])%list))
  /\
  (channel = 23 ->
   fst (YouTubePlayer.__init__ kw s) = Return tt
   /\ fst (TuneInRadio.__init__ kw s) = Return tt).
Proof.
  intros H.
  rewrite (YouTube_init_gpio_bound channel polarity pud s e cbs H).
  rewrite (TuneIn_init_gpio_bound channel polarity pud s e cbs H).
  cbn [fst snd trace edge_detect]. rewrite !lookup_update.
  repeat split; try (apply in_or_app; right; now left).
  - rewrite YouTube_init_unfold. subst channel.
    now rewrite (YouTube_init_gpio_bound
                   23 FALLING PUD_UP
                   (mkSt (mkPlayer kw PNone false false) (trace s) (edge_detect s))
                   e cbs H).
  - rewrite TuneIn_init_unfold. subst channel.
    now rewrite (TuneIn_init_gpio_bound
                   23 FALLING PUD_UP
                   (mkSt (mkPlayer kw PNone false false) (trace s) (edge_detect s))
                   e cbs H).
Qed.

Lemma rearming_bound_channel_adds_callback_witness :
  GPIO.lookup 23 (edge_detect Scenario.youtube_ready)
  = Some (FALLING, [YouTube_on_input_event])
  /\ fst (TuneInRadio._init_gpio 23 FALLING PUD_UP Scenario.youtube_ready) = Return tt
  /\ GPIO.lookup 23
       (edge_detect (snd (TuneInRadio._init_gpio 23 FALLING PUD_UP Scenario.youtube_ready)))
     = Some (FALLING, [YouTube_on_input_event; TuneIn_on_input_event]).
Proof.
  split; [reflexivity|].
  destruct (rearming_bound_channel_adds_callback
              23 FALLING PUD_UP "radio" Scenario.youtube_ready
              FALLING [YouTube_on_input_event] eq_refl)
    as [_ [[R [_ L]] _]].
  split; [exact R | exact L].
Defined.

(** ** Late callbacks *)

(** C8, as stated, fails: after a press has ended the session, the
    callback of a player error still speaks. *)
Lemma late_error_callback_is_not_noop :
  done (self (yt_deliver (InputEvent 23 0) (Scenario.playing "x"))) = true
  /\ yt_deliver (PlayerEvent MediaPlayerEncounteredError)
                (yt_deliver (InputEvent 23 0) (Scenario.playing "x"))
     <> yt_deliver (InputEvent 23 0) (Scenario.playing "x")
  /\ spoken (yt_deliver (PlayerEvent MediaPlayerEncounteredError)
                        (yt_deliver (InputEvent 23 0) (Scenario.playing "x")))
     = ["Now playing x"; "Can't play x"].
Proof.
  split; [reflexivity|]. split; [|reflexivity].
  intros H. apply (f_equal (fun s => List.length (trace s))) in H.
  vm_compute in H. discriminate.
Qed.

Lemma late_callbacks (s : St player) (l : list async) :
  done (self s) = true ->
  done (self (yt_deliver_all l s)) = true
  /\ now_playing (self (yt_deliver_all l s)) = now_playing (self s)
  /\ (exists t, trace (yt_deliver_all l s) = (trace s ++ t)%list
                /\ Forall (fun e => e = PlayerStop
                                    \/ exists label, e = Say ("Can't play " ++ label)) t)
  /\ yt_deliver (PlayerEvent MediaPlayerEndReached) s = s.
Proof.
  intros D. destruct (deliver_all_extends l s) as [_ N _ _ D' T].
  repeat split; auto.
  unfold deliver. rewrite on_end_reached. cbn [snd]. unfold finished.
  rewrite <- D. apply eta_state.
Qed.

Lemma finished_when_done (s : St player) (t : list event) :
  done (self s) = true -> finished s t = mkSt (self s) t (edge_detect s).
Proof.
  destruct s as [[k n d i] t0 g]. cbn. intros ->. reflexivity.
Qed.

(** What each callback does to a session that is already done. *)
Lemma late_callback_effect (s : St player) :
  done (self s) = true ->
  (forall channel,
      yt_deliver (InputEvent channel (Z.b2z (input_value (self s)))) s
      = mkSt (self s) (trace s ++ [PlayerStop]) (edge_detect s))
  /\ (forall label,
         now_playing (self s) = PStr label ->
         yt_deliver (PlayerEvent MediaPlayerEncounteredError) s
         = mkSt (self s) (trace s ++ [Say ("Can't play " ++ label)]) (edge_detect s))
  /\ ((forall label, now_playing (self s) <> PStr label) ->
      yt_deliver (PlayerEvent MediaPlayerEncounteredError) s = s)
  /\ (forall a, idle (input_value (self s)) a -> yt_deliver a s = s).
Proof.
  intros D. split; [|split; [|split]].
  - intros channel. unfold deliver. rewrite on_input_active by reflexivity.
    cbn [snd]. now apply finished_when_done.
  - intros label N. unfold deliver. rewrite (on_error label s N).
    cbn [snd]. now apply finished_when_done.
  - intros N. unfold deliver. now rewrite on_error_without_label.
  - intros a. apply deliver_idle.
Qed.

(** C8, amended.  No callback ever clears [done] or changes the label:
    once a terminal callback has set [done], it stays set through later
    callbacks in any number and order, and the waiting loop returns at
    its next test whatever has come in between.  The late callbacks are
    not all without effect.  The end of the stream, an input callback at
    the idle level and a player error without a label change nothing.  A
    press at the active level adds one call of [player.stop()] and
    nothing else; a player error adds the one sentence "Can't play" with
    the label and nothing else.  (The one place that clears [done] is
    [run] itself, after [player.play()]: this statement is about the
    callbacks and the loop.) *)
Theorem done_is_never_cleared (s : St player) (l : list async) :
  done (self s) = true ->
  (done (self (yt_deliver_all l s)) = true
   /\ now_playing (self (yt_deliver_all l s)) = now_playing (self s)
   /\ (exists t, trace (yt_deliver_all l s) = (trace s ++ t)%list
                 /\ Forall (fun e => e = PlayerStop
                                     \/ exists label, e = Say ("Can't play " ++ label)) t)
   /\ yt_deliver (PlayerEvent MediaPlayerEndReached) s = s
   /\ (forall ticks,
          yt_wait ticks (yt_deliver_all l s) = (Return tt, yt_deliver_all l s))
   /\ (forall channel,
          yt_deliver (InputEvent channel (Z.b2z (input_value (self s)))) s
          = mkSt (self s) (trace s ++ [PlayerStop]) (edge_detect s))
   /\ (forall label,
          now_playing (self s) = PStr label ->
          yt_deliver (PlayerEvent MediaPlayerEncounteredError) s
          = mkSt (self s) (trace s ++ [Say ("Can't play " ++ label)]) (edge_detect s))
   /\ ((forall label, now_playing (self s) <> PStr label) ->
       yt_deliver (PlayerEvent MediaPlayerEncounteredError) s = s)
   /\ (forall a, idle (input_value (self s)) a -> yt_deliver a s = s))
  /\
  (done (self (ti_deliver_all l s)) = true
   /\ now_playing (self (ti_deliver_all l s)) = now_playing (self s)
   /\ (exists t, trace (ti_deliver_all l s) = (trace s ++ t)%list
                 /\ Forall (fun e => e = PlayerStop
                                     \/ exists label, e = Say ("Can't play " ++ label)) t)
   /\ ti_deliver (PlayerEvent MediaPlayerEndReached) s = s
   /\ (forall ticks,
          ti_wait ticks (ti_deliver_all l s) = (Return tt, ti_deliver_all l s))
   /\ (forall channel,
          ti_deliver (InputEvent channel (Z.b2z (input_value (self s)))) s
          = mkSt (self s) (trace s ++ [PlayerStop]) (edge_detect s))
   /\ (forall label,
          now_playing (self s) = PStr label ->
          ti_deliver (PlayerEvent MediaPlayerEncounteredError) s
          = mkSt (self s) (trace s ++ [Say ("Can't play " ++ label)]) (edge_detect s))
   /\ ((forall label, now_playing (self s) <> PStr label) ->
       ti_deliver (PlayerEvent MediaPlayerEncounteredError) s = s)
   /\ (forall a, idle (input_value (self s)) a -> ti_deliver a s = s)).
Proof.
  intros D.
  destruct (late_callbacks s l D) as (D' & N & T & E).
  destruct (late_callback_effect s D) as (P & R & R' & I).
  pose proof (fun ticks => wait_done ticks (yt_deliver_all l s) D') as W.
  split.
  - repeat (split; [assumption|]). assumption.
  - repeat (split; [assumption|]). assumption.
Qed.

Lemma done_is_never_cleared_witness :
  done (self (yt_deliver (InputEvent 23 0) (Scenario.playing "x"))) = true
  /\ done (self (yt_deliver_all
                   [PlayerEvent MediaPlayerEncounteredError; InputEvent 23 0]
                   (yt_deliver (InputEvent 23 0) (Scenario.playing "x"))))
     = true.
Proof.
  split; [reflexivity|].
  exact (proj1 (proj1 (done_is_never_cleared
                         (yt_deliver (InputEvent 23 0) (Scenario.playing "x"))
                         [PlayerEvent MediaPlayerEncounteredError; InputEvent 23 0]
                         eq_refl))).
Defined.

(** ** Searches without result *)

Lemma background_events (l : list event) :
  Forall background l -> flat_map spoken_of l = [] /\ filter is_player l = [].
Proof.
  induction 1 as [|e l [He1 He2] _ [IH1 IH2]].
  - split; reflexivity.
  - cbn [flat_map filter]. now rewrite He1, He2, IH1, IH2.
Qed.

Lemma background_extension {O} (s s' : St O) (l : list event) :
  trace s' = (trace s ++ l)%list -> Forall background l ->
  spoken s' = spoken s /\ player_calls s' = player_calls s.
Proof.
  intros E H. unfold spoken, player_calls. rewrite E, flat_map_app, filter_app.
  destruct (background_events l H) as [-> ->].
  now rewrite !app_nil_r.
Qed.

Lemma YouTube_run_not_found env sched cmd (s : St player) :
  Text.is_empty (query_of (self s) cmd) = false ->
  no_video env (query_of (self s) cmd) ->
  YouTubePlayer.run env sched cmd s
  = (Return tt,
     mkSt (self s)
          ((trace s ++ [YdlExtract (query_of (self s) cmd)])
             ++ [Say ("Failed to find " ++ query_of (self s) cmd)])
          (edge_detect s)).
Proof.
  unfold query_of. intros Q N.
  cbv [YouTubePlayer.run bind get_self try_except YouTubePlayer.ydl_extract_info
       emit say].
  cbn [self trace edge_detect]. rewrite Q.
  destruct N as [E | [(meta & E & T) | (meta & entries & first & E & T & K & I & F)]];
    rewrite E; cbv [ret raise]; cbn [self trace edge_detect].
  - reflexivity.
  - rewrite T. reflexivity.
  - rewrite T. cbn [negb]. rewrite K. cbv [lift ret]. rewrite I, F. reflexivity.
Qed.

Lemma TuneIn_run_no_stations env sched cmd (s s1 : St player) stations :
  Text.is_empty (query_of (self s) cmd) = false ->
  TuneInRadio._search env (query_of (self s) cmd) TuneInRadio.FILTER_STATIONS s
  = (Return stations, s1) ->
  truthy stations = false ->
  TuneInRadio.run env sched cmd s
  = (Return tt,
     mkSt (self s1) (trace s1 ++ [Say "Didn't find any stations"]) (edge_detect s1)).
Proof.
  unfold query_of. intros Q S T.
  unfold TuneInRadio.run. unfold bind at 1. unfold get_self at 1. rewrite Q.
  unfold bind at 1. rewrite S, T. reflexivity.
Qed.

Lemma TuneIn_run_no_streams env sched cmd (s s1 s2 : St player)
      stations station station_id url :
  Text.is_empty (query_of (self s) cmd) = false ->
  TuneInRadio._search env (query_of (self s) cmd) TuneInRadio.FILTER_STATIONS s
  = (Return stations, s1) ->
  truthy stations = true ->
  getitem_0 stations = inr station ->
  getitem_key station "Id" = inr station_id ->
  TuneInRadio._get_stream_url env station_id s1 = (Return url, s2) ->
  truthy url = false ->
  TuneInRadio.run env sched cmd s
  = (Return tt,
     mkSt (self s2) (trace s2 ++ [Say "Didn't find any streams"]) (edge_detect s2)).
Proof.
  unfold query_of. intros Q S T G0 GI U TU.
  unfold TuneInRadio.run. unfold bind at 1. unfold get_self at 1. rewrite Q.
  unfold bind at 1. rewrite S, T. cbn [negb].
  unfold bind at 1. rewrite G0. cbn [lift]. unfold ret at 1.
  unfold bind at 1. rewrite GI. cbn [lift]. unfold ret at 1.
  unfold bind at 1. rewrite U, TU. reflexivity.
Qed.

#[local] Hint Extern 1 (emits_only background (emit _)) =>
  (apply emits_emit; split; reflexivity) : emits.

Lemma read_url_background env url :
  emits_only background (TuneInRadio.read_url env url).
Proof.
  unfold TuneInRadio.read_url. apply emits_bind; [auto with emits|].
  intros _. destruct (urlopen env url); auto with emits.
Qed.

Lemma loads_background env text :
  emits_only background (TuneInRadio.loads env text).
Proof. unfold TuneInRadio.loads. destruct (json_loads env text); auto with emits. Qed.

#[local] Hint Resolve read_url_background loads_background : emits.

Lemma search_background env q f :
  emits_only background (TuneInRadio._search env q f).
Proof.
  unfold TuneInRadio._search.
  apply emits_bind; [auto with emits|]. intros _.
  apply emits_bind; [auto with emits|]. intros xml_str.
  destruct (Re.search _ _) as [m|]; [|auto with emits].
  destruct (Re.group1 m); [|auto with emits].
  repeat (apply emits_bind; [auto with emits|]; intros ?).
  auto with emits.
Qed.

Lemma get_stream_list_background env url :
  emits_only background (TuneInRadio._get_stream_list env url).
Proof.
  unfold TuneInRadio._get_stream_list.
  repeat (apply emits_bind; [auto with emits|]; intros ?).
  auto with emits.
Qed.

Lemma get_stream_url_background env station_id :
  emits_only background (TuneInRadio._get_stream_url env station_id).
Proof.
  unfold TuneInRadio._get_stream_url.
  apply emits_bind; [auto with emits|]. intros _.
  apply emits_bind; [auto with emits|]. intros xml_str.
  destruct (Re.search _ _) as [m|]; [|auto with emits].
  destruct (Re.group1 m) as [g|]; [|auto with emits].
  destruct (Text.is_empty g); [auto with emits|].
  apply emits_bind; [apply get_stream_list_background|]. intros streams.
  destruct (negb (truthy streams)); [auto with emits|].
  apply emits_bind; auto with emits.
Qed.

(** A station page without the [StreamUrl] marker: [re.search] returns
    [None] and [result.group(1)] raises. *)
Lemma get_stream_url_without_marker env station_id body (s : St player) :
  urlopen env (TuneInRadio.BASE_URL ++ "station/?stationId=" ++ str_of env station_id)
  = Some body ->
  Re.search TuneInRadio.stream_url_pattern body = None ->
  fst (TuneInRadio._get_stream_url env station_id s) = Raise AttributeError.
Proof.
  intros U R.
  cbv [TuneInRadio._get_stream_url TuneInRadio.read_url bind emit].
  rewrite U. cbv [ret]. now rewrite R.
Qed.

Lemma get_stream_url_fetch_fault env station_id (s : St player) :
  urlopen env (TuneInRadio.BASE_URL ++ "station/?stationId=" ++ str_of env station_id)
  = None ->
  fst (TuneInRadio._get_stream_url env station_id s) = Raise URLError.
Proof.
  intros U.
  cbv [TuneInRadio._get_stream_url TuneInRadio.read_url bind emit].
  now rewrite U.
Qed.

Lemma says_once_intro (text : string) (s : St player) (t : list event) o g :
  flat_map spoken_of t = [text] ->
  says_once text s (mkSt o (trace s ++ t) g).
Proof.
  intros H. unfold says_once, spoken. cbn [trace].
  now rewrite flat_map_app, H.
Qed.

(** C3, as stated, fails on the radio path: the search page carries no
    payload, the search yields no station, and the one sentence spoken
    is "Didn't find any stations", which does not name the query. *)
Lemma radio_not_found_does_not_name_query :
  fst (TuneInRadio._search Scenario.no_payload "jazz" TuneInRadio.FILTER_STATIONS
                           Scenario.tunein_ready) = Return PNone
  /\ fst (TuneInRadio.run Scenario.no_payload Scenario.no_events "radio jazz"
                          Scenario.tunein_ready) = Return tt
  /\ spoken (snd (TuneInRadio.run Scenario.no_payload Scenario.no_events "radio jazz"
                                  Scenario.tunein_ready))
     = ["Didn't find any stations"]
  /\ ~ reports_failed_to_find
       "jazz" Scenario.tunein_ready
       (snd (TuneInRadio.run Scenario.no_payload Scenario.no_events "radio jazz"
                             Scenario.tunein_ready)).
Proof.
  split; [reflexivity|]. split; [reflexivity|]. split; [reflexivity|].
  intros (text & Once & _ & Named).
  unfold says_once in Once. vm_compute in Once.
  injection Once as <-. vm_compute in Named. discriminate.
Qed.

(** On the video path the report has the expected form. *)
Example video_not_found_names_query :
  reports_failed_to_find
    "xyzzy" Scenario.youtube_ready
    (snd (YouTubePlayer.run Scenario.no_result Scenario.no_events "play xyzzy"
                            Scenario.youtube_ready)).
Proof. exists "Failed to find xyzzy". repeat split; reflexivity. Qed.

(** C3, amended.  For a query that is not empty: when the video search
    raises, returns nothing or returns an empty first entry, [run]
    speaks the one sentence "Failed to find " followed by the query and
    returns; when the radio search returns no station, [run] speaks the
    one sentence "Didn't find any stations" and returns.  In both cases
    the media player is not touched. *)
Theorem not_found_is_reported env sched cmd (s : St player) :
  Text.is_empty (query_of (self s) cmd) = false ->
  (no_video env (query_of (self s) cmd) ->
   fst (YouTubePlayer.run env sched cmd s) = Return tt
   /\ says_once ("Failed to find " ++ query_of (self s) cmd)
                s (snd (YouTubePlayer.run env sched cmd s))
   /\ player_calls (snd (YouTubePlayer.run env sched cmd s)) = player_calls s)
  /\
  (forall stations s1,
      TuneInRadio._search env (query_of (self s) cmd) TuneInRadio.FILTER_STATIONS s
      = (Return stations, s1) ->
      truthy stations = false ->
      fst (TuneInRadio.run env sched cmd s) = Return tt
      /\ says_once "Didn't find any stations"
                   s (snd (TuneInRadio.run env sched cmd s))
      /\ player_calls (snd (TuneInRadio.run env sched cmd s)) = player_calls s).
Proof.
  intros Q. split.
  - intros N. rewrite (YouTube_run_not_found env sched cmd s Q N).
    cbn [fst snd]. split; [reflexivity|]. split.
    + rewrite <- app_assoc. now apply says_once_intro.
    + unfold player_calls. cbn [trace]. rewrite !filter_app. cbn.
      now rewrite !app_nil_r.
  - intros stations s1 S T.
    rewrite (TuneIn_run_no_stations env sched cmd s s1 stations Q S T).
    cbn [fst snd]. split; [reflexivity|].
    destruct (search_background env (query_of (self s) cmd)
                                TuneInRadio.FILTER_STATIONS s) as (l & E & B).
    rewrite S in E. cbn [snd] in E.
    destruct (background_extension s s1 l E B) as [Sp Pl].
    split.
    + unfold says_once, spoken in *. cbn [trace]. rewrite flat_map_app.
      cbn. now rewrite Sp.
    + unfold player_calls in *. cbn [trace]. rewrite filter_app. cbn.
      now rewrite app_nil_r.
Qed.

Lemma not_found_is_reported_witness :
  Text.is_empty (query_of (self Scenario.youtube_ready) "play xyzzy") = false
  /\ no_video Scenario.no_result (query_of (self Scenario.youtube_ready) "play xyzzy")
  /\ says_once "Failed to find xyzzy" Scenario.youtube_ready
               (snd (YouTubePlayer.run Scenario.no_result Scenario.no_events
                                       "play xyzzy" Scenario.youtube_ready)).
Proof.
  split; [reflexivity|]. split; [left; reflexivity|].
  exact (proj1 (proj2 (proj1 (not_found_is_reported
                                Scenario.no_result Scenario.no_events "play xyzzy"
                                Scenario.youtube_ready eq_refl)
                             (or_introl eq_refl)))).
Defined.

(** ** Radio: failures of the resolution *)

(** C4 fails on the code.  The radio search finds a station whose page
    has no [StreamUrl] marker: [run] ends with [AttributeError] and
    nothing is spoken.  When the network is down, the first request
    raises and [run] ends with that exception, again without a word. *)
Theorem radio_resolution_failure_escapes :
  Re.search TuneInRadio.stream_url_pattern "<html></html>" = None
  /\ fst (TuneInRadio.run Scenario.no_stream_marker Scenario.no_events "radio jazz"
                          Scenario.tunein_ready) = Raise AttributeError
  /\ spoken (snd (TuneInRadio.run Scenario.no_stream_marker Scenario.no_events
                                  "radio jazz" Scenario.tunein_ready)) = []
  /\ fst (TuneInRadio.run Scenario.offline Scenario.no_events "radio jazz"
                          Scenario.tunein_ready) = Raise URLError
  /\ spoken (snd (TuneInRadio.run Scenario.offline Scenario.no_events
                                  "radio jazz" Scenario.tunein_ready)) = [].
Proof. repeat split; vm_compute; reflexivity. Qed.

(** ** Title of the video *)

Lemma greedy_word_to_end (w prev : string) gs cap :
  all_word w = true ->
  last_of prev w <> Some "_"%char ->
  Re.greedy Re.CWord (Re.run [Re.NotBehind "_"%char]) prev w gs cap = Some ("", cap).
Proof.
  revert prev. induction w as [|x w IH]; intros prev W L.
  - cbn in *. destruct prev as [|y prev]; [reflexivity|].
    destruct (Ascii.eqb_spec y "_"%char) as [-> | _]; [now destruct L | reflexivity].
  - cbn [all_word] in W. apply andb_true_iff in W as [Wx Ww].
    cbn [Re.greedy Re.cmatch]. rewrite Wx.
    now rewrite (IH (String x prev) Ww L).
Qed.

Lemma substring_whole (w : string) : substring 0 (String.length w) w = w.
Proof. induction w as [|x w IH]; cbn; [reflexivity | now rewrite IH]. Qed.

Lemma findall_skips_rest (rest prev : string) :
  Re.findall_from YouTubePlayer.pattern prev rest (String.length rest) = [].
Proof.
  revert prev. induction rest as [|x rest IH]; intros prev; [reflexivity|].
  cbn [String.length Re.findall_from]. apply IH.
Qed.

Lemma run_pattern (prev : string) (c : ascii) (w : string) :
  Re.run YouTubePlayer.pattern prev (String c w) None None
  = if (c =? "_")%char then None
    else if Text.isword c
         then Re.greedy Re.CWord (Re.run [Re.NotBehind "_"%char])
                        (String c prev) w None None
         else None.
Proof. reflexivity. Qed.

(** A run of word characters that neither starts nor ends with an
    underscore is one match of the pattern: it is kept whole, with the
    underscores inside it. *)
Lemma clean_title_keeps_word (c : ascii) (w : string) :
  Text.isword c = true -> c <> "_"%char ->
  all_word w = true -> last_of (String c "") w <> Some "_"%char ->
  YouTubePlayer.clean_title (String c w) = String c w.
Proof.
  intros Wc Uc Ww L.
  unfold YouTubePlayer.clean_title, Re.findall.
  cbn [Re.findall_from]. rewrite run_pattern.
  destruct (Ascii.eqb_spec c "_"%char) as [E | _]; [contradiction|].
  rewrite Wc, (greedy_word_to_end w (String c "") None None Ww L).
  unfold Re.consumed. cbn [String.length]. rewrite Nat.sub_0_r.
  change (substring 0 (S (String.length w)) (String c w))
    with (substring 0 (String.length (String c w)) (String c w)).
  rewrite substring_whole.
  replace (S (String.length w) - 1)%nat with (String.length w) by lia.
  now rewrite findall_skips_rest.
Qed.

Example clean_title_keeps_word_ex :
  YouTubePlayer.clean_title "Daylight_Official_Video" = "Daylight_Official_Video".
Proof. apply clean_title_keeps_word; [reflexivity | discriminate | reflexivity | discriminate]. Qed.

(** C1 fails on the code.  The pattern trims underscores at the two ends
    of a run of word characters and keeps those inside: the label of
    "foo_bar__42!!baz" is "foo_bar__42 baz", and that is what is spoken. *)
Theorem title_keeps_inner_underscores :
  Re.findall YouTubePlayer.pattern "foo_bar__42!!baz" = ["foo_bar__42"; "baz"]
  /\ YouTubePlayer.clean_title "foo_bar__42!!baz" = "foo_bar__42 baz"
  /\ YouTubePlayer.clean_title "foo_bar__42!!baz" <> "foo bar 42 baz"
  /\ YouTubePlayer.clean_title "__a__ _b_c_ ___ d" = "a b_c d"
  /\ spoken (snd (YouTubePlayer.run (Scenario.one_video "foo_bar__42!!baz")
                                    Scenario.ends_at_once "play foo"
                                    Scenario.youtube_ready))
     = ["Now playing foo_bar__42 baz"].
Proof.
  repeat split; try (vm_compute; reflexivity).
  vm_compute. discriminate.
Qed.

(** ** What the terminal transitions say *)

(** C7, as stated, fails: the transition to Completed says nothing.  The
    only sentence of a session that plays to the end is the announcement
    made before playback; a session that fails on a player error has
    spoken twice. *)
Lemma end_of_stream_says_nothing :
  done (self (yt_deliver (PlayerEvent MediaPlayerEndReached) (Scenario.playing "x")))
  = true
  /\ ~ (exists text,
           says_once text (Scenario.playing "x")
                     (yt_deliver (PlayerEvent MediaPlayerEndReached)
                                 (Scenario.playing "x")))
  /\ spoken (snd (YouTubePlayer.run (Scenario.one_video "Daylight_Official_Video")
                                    Scenario.ends_at_once "play daylight"
                                    Scenario.youtube_ready))
     = ["Now playing Daylight_Official_Video"]
  /\ spoken (snd (YouTubePlayer.run (Scenario.one_video "Daylight_Official_Video")
                                    Scenario.fails_at_once "play daylight"
                                    Scenario.youtube_ready))
     = ["Now playing Daylight_Official_Video"; "Can't play Daylight_Official_Video"].
Proof.
  split; [reflexivity|]. split; [|split; vm_compute; reflexivity].
  intros (text & Once). unfold says_once in Once.
  vm_compute in Once. discriminate.
Qed.

Lemma playing_exits (s : St player) (channel : Z) :
  (says_nothing s (yt_deliver (PlayerEvent MediaPlayerEndReached) s)
   /\ done (self (yt_deliver (PlayerEvent MediaPlayerEndReached) s)) = true)
  /\ (says_nothing
        s (yt_deliver (InputEvent channel (Z.b2z (input_value (self s)))) s)
      /\ done (self (yt_deliver (InputEvent channel (Z.b2z (input_value (self s)))) s))
         = true)
  /\ (forall label,
         now_playing (self s) = PStr label ->
         says_once ("Can't play " ++ label)
                   s (yt_deliver (PlayerEvent MediaPlayerEncounteredError) s)
         /\ done (self (yt_deliver (PlayerEvent MediaPlayerEncounteredError) s)) = true).
Proof.
  unfold deliver. split; [|split].
  - rewrite on_end_reached. split; reflexivity.
  - rewrite on_input_active by reflexivity. split; [|reflexivity].
    unfold says_nothing, spoken. cbn [snd finished trace].
    rewrite flat_map_app. cbn. now rewrite app_nil_r.
  - intros label H. rewrite (on_error label s H). split; [|reflexivity].
    cbn [snd]. unfold finished. now apply says_once_intro.
Qed.

Lemma silent_then_once (text : string) (s s1 : St player) :
  (exists l, trace s1 = (trace s ++ l)%list /\ Forall background l) ->
  says_once text s (mkSt (self s1) (trace s1 ++ [Say text]) (edge_detect s1)).
Proof.
  intros (l & E & B). destruct (background_extension s s1 l E B) as [Sp _].
  unfold says_once, spoken in *. cbn [trace]. rewrite flat_map_app. cbn.
  now rewrite Sp.
Qed.

(** C7, amended.  Of the callbacks that end playback, the end of the
    stream and the cancel press at the active level mark the session
    done in silence; the player error, when the label is a string,
    speaks once ("Can't play" and the label) and marks the session done.
    Before playback, [run] speaks exactly one sentence in each of these
    cases: the query is empty ("Please specify a song", "Please specify
    a station"); the video search raises, returns a false value, or
    returns a result whose first entry is a false value ("Failed to
    find" and the query); the radio search returns a false value
    ("Didn't find any stations"); the radio search returns a true value
    whose first station has an identifier, and the resolution of its
    stream returns a false value ("Didn't find any streams").  Nothing
    is stated about a session that [run] leaves by an exception (an
    empty list of entries, a missing key, a station page without the
    marker, a request or a decoding that fails). *)
Theorem terminal_transitions_speech env sched cmd (s : St player) (channel : Z) :
  ((says_nothing s (yt_deliver (PlayerEvent MediaPlayerEndReached) s)
    /\ done (self (yt_deliver (PlayerEvent MediaPlayerEndReached) s)) = true)
   /\ (says_nothing
         s (yt_deliver (InputEvent channel (Z.b2z (input_value (self s)))) s)
       /\ done (self (yt_deliver (InputEvent channel (Z.b2z (input_value (self s)))) s))
          = true)
   /\ (forall label,
          now_playing (self s) = PStr label ->
          says_once ("Can't play " ++ label)
                    s (yt_deliver (PlayerEvent MediaPlayerEncounteredError) s)
          /\ done (self (yt_deliver (PlayerEvent MediaPlayerEncounteredError) s))
             = true))
  /\
  ((says_nothing s (ti_deliver (PlayerEvent MediaPlayerEndReached) s)
    /\ done (self (ti_deliver (PlayerEvent MediaPlayerEndReached) s)) = true)
   /\ (says_nothing
         s (ti_deliver (InputEvent channel (Z.b2z (input_value (self s)))) s)
       /\ done (self (ti_deliver (InputEvent channel (Z.b2z (input_value (self s)))) s))
          = true)
   /\ (forall label,
          now_playing (self s) = PStr label ->
          says_once ("Can't play " ++ label)
                    s (ti_deliver (PlayerEvent MediaPlayerEncounteredError) s)
          /\ done (self (ti_deliver (PlayerEvent MediaPlayerEncounteredError) s))
             = true))
  /\
  (Text.is_empty (query_of (self s) cmd) = true ->
   says_once "Please specify a song" s (snd (YouTubePlayer.run env sched cmd s))
   /\ says_once "Please specify a station" s (snd (TuneInRadio.run env sched cmd s)))
  /\
  (Text.is_empty (query_of (self s) cmd) = false ->
   (no_video env (query_of (self s) cmd) ->
    says_once ("Failed to find " ++ query_of (self s) cmd)
              s (snd (YouTubePlayer.run env sched cmd s)))
   /\ (forall stations s1,
          TuneInRadio._search env (query_of (self s) cmd)
                              TuneInRadio.FILTER_STATIONS s
          = (Return stations, s1) ->
          (truthy stations = false ->
           says_once "Didn't find any stations"
                     s (snd (TuneInRadio.run env sched cmd s)))
          /\ (forall station station_id url s2,
                 truthy stations = true ->
                 getitem_0 stations = inr station ->
                 getitem_key station "Id" = inr station_id ->
                 TuneInRadio._get_stream_url env station_id s1 = (Return url, s2) ->
                 truthy url = false ->
                 says_once "Didn't find any streams"
                           s (snd (TuneInRadio.run env sched cmd s))))).
Proof.
  split; [apply playing_exits|]. split; [exact (playing_exits s channel)|].
  split.
  - intros Q. unfold query_of in Q.
    assert (E : Text.strip (Text.replace1 (keyword (self s)) "" (Text.lower cmd)) = "")
      by (destruct (Text.strip _); [reflexivity | discriminate]).
    rewrite (YouTube_run_empty env sched cmd s E), (TuneIn_run_empty env sched cmd s E).
    split; now apply says_once_intro.
  - intros Q. split.
    + intros N. rewrite (YouTube_run_not_found env sched cmd s Q N). cbn [snd].
      rewrite <- app_assoc. now apply says_once_intro.
    + intros stations s1 S.
      destruct (search_background env (query_of (self s) cmd)
                                  TuneInRadio.FILTER_STATIONS s) as (l & E & B).
      rewrite S in E. cbn [snd] in E.
      split.
      * intros T. rewrite (TuneIn_run_no_stations env sched cmd s s1 stations Q S T).
        cbn [snd]. apply silent_then_once. eauto.
      * intros station station_id url s2 T G0 GI U TU.
        rewrite (TuneIn_run_no_streams env sched cmd s s1 s2 stations station
                                       station_id url Q S T G0 GI U TU).
        cbn [snd]. apply silent_then_once.
        destruct (get_stream_url_background env station_id s1) as (l2 & E2 & B2).
        rewrite U in E2. cbn [snd] in E2.
        exists (l ++ l2)%list. rewrite E2, E, app_assoc. split; [reflexivity|].
        apply Forall_app. now split.
Qed.

Lemma terminal_transitions_speech_witness :
  now_playing (self (Scenario.playing "x")) = PStr "x"
  /\ says_once "Can't play x" (Scenario.playing "x")
               (yt_deliver (PlayerEvent MediaPlayerEncounteredError)
                           (Scenario.playing "x"))
  /\ Text.is_empty (query_of (self (Scenario.playing "x")) " Play ") = true
  /\ says_once "Please specify a song" (Scenario.playing "x")
               (snd (YouTubePlayer.run Scenario.offline Scenario.no_events " Play "
                                       (Scenario.playing "x"))).
Proof.
  pose proof (terminal_transitions_speech
                Scenario.offline Scenario.no_events " Play " (Scenario.playing "x") 23)
    as [[_ [_ E]] [_ [Q _]]].
  split; [reflexivity|]. split; [exact (proj1 (E "x" eq_refl))|].
  split; [reflexivity|]. exact (proj1 (Q eq_refl)).
Defined.

(** ** Witnesses *)

Lemma empty_query_only_asks_for_target_witness :
  Text.all_space (Text.replace1 (keyword (self Scenario.tunein_ready)) ""
                                (Text.lower "Radio   ")) = true
  /\ trace (snd (TuneInRadio.run Scenario.offline Scenario.no_events "Radio   "
                                 Scenario.tunein_ready))
     = (trace Scenario.tunein_ready ++ [Say "Please specify a station"])%list
  /\ network_calls (snd (TuneInRadio.run Scenario.offline Scenario.no_events
                                         "Radio   " Scenario.tunein_ready))
     = network_calls Scenario.tunein_ready.
Proof.
  pose proof (empty_query_only_asks_for_target
                Scenario.offline Scenario.no_events "Radio   " Scenario.tunein_ready
                eq_refl) as [_ [_ [T [_ [N _]]]]].
  split; [reflexivity|]. split; [exact T | exact N].
Defined.

Lemma cancel_press_stops_playback_witness :
  done (self (Scenario.playing "x")) = false
  /\ exists s',
      yt_wait [[]; [PlayerEvent MediaPlayerOther; InputEvent 23 1];
               [InputEvent 23 1; InputEvent 23 0]; []]
              (Scenario.playing "x")
      = (Return tt, s')
      /\ done (self s') = true
      /\ In PlayerStop (trace s')
      /\ (Forall not_error [] -> spoken s' = spoken (Scenario.playing "x")).
Proof.
  split; [reflexivity|].
  refine (proj2 (proj1 (cancel_press_stops_playback
                          (Scenario.playing "x") 23
                          [[]; [PlayerEvent MediaPlayerOther; InputEvent 23 1]] [[]]
                          [InputEvent 23 1] [] eq_refl _ _))).
  - repeat constructor; cbn; discriminate.
  - repeat constructor; cbn; discriminate.
Defined.

Lemma input_callback_checks_level_witness :
  input_value (self (Scenario.playing "x"))
  = input_value (self (snd (YouTubePlayer._init_gpio 23 FALLING PUD_UP Scenario.fresh)))
  /\ YouTubePlayer._on_input_event 1 23 (Scenario.playing "x")
     = (Return tt, Scenario.playing "x")
  /\ YouTubePlayer._on_input_event 0 23 (Scenario.playing "x")
     = (Return tt,
        finished (Scenario.playing "x")
                 (trace (Scenario.playing "x") ++ [PlayerStop])).
Proof.
  split; [reflexivity|]. split.
  - refine (proj2 (proj1 (input_callback_checks_level
                            23 FALLING PUD_UP Scenario.fresh (Scenario.playing "x")
                            23 1) eq_refl) _).
    discriminate.
  - exact (proj1 (proj1 (input_callback_checks_level
                           23 FALLING PUD_UP Scenario.fresh (Scenario.playing "x")
                           23 0) eq_refl) eq_refl).
Defined.

Lemma volume_set_is_clamped_witness :
  call_fault Scenario.offline (VolumeControl.SET_VOLUME 100) = None
  /\ VolumeControl.value
       (self (snd (VolumeControl.set Scenario.offline 250 Scenario.volume_start)))
     = Some 100.
Proof.
  split; [reflexivity|].
  destruct (volume_set_is_clamped Scenario.offline 250 Scenario.volume_start)
    as [(vol & _ & _ & Hi & _ & _ & _ & V) _].
  rewrite (Hi eq_refl) in V. exact (proj2 (V eq_refl)).
Defined.

(** * Further properties *)

(** ** SpeakTime *)

Lemma In_upto (n : nat) (z : Z) : 0 <= z < Z.of_nat n -> In z (upto n).
Proof.
  intros H. unfold upto. apply in_map_iff. exists (Z.to_nat z). split.
  - lia.
  - apply in_seq. lia.
Qed.

Lemma all_times_spec (P : Z -> Z -> bool) :
  all_times P = true ->
  forall h m, 0 <= h < 24 -> 0 <= m < 60 -> P h m = true.
Proof.
  unfold all_times. intros A h m Hh Hm.
  rewrite forallb_forall in A.
  specialize (A h (In_upto 24 h Hh)).
  rewrite forallb_forall in A.
  exact (A m (In_upto 60 m Hm)).
Qed.

(** X1.  At every time of the day [to_str] finds its words: no index
    leaves the two tables, and the result is a sentence. *)
Theorem to_str_never_fails (hour minute : Z) :
  0 <= hour < 24 -> 0 <= minute < 60 ->
  exists text, SpeakTime.to_str hour minute = inr text.
Proof.
  intros Hh Hm.
  assert (A : all_times (fun h m => is_sentence (SpeakTime.to_str h m)) = true)
    by (vm_compute; reflexivity).
  pose proof (all_times_spec _ A hour minute Hh Hm) as S. cbv beta in S.
  destruct (SpeakTime.to_str hour minute) as [e | text]; [discriminate | eauto].
Qed.

Lemma to_str_never_fails_witness :
  0 <= 23 < 24 /\ 0 <= 59 < 60
  /\ exists text, SpeakTime.to_str 23 59 = inr text.
Proof.
  split; [lia|]. split; [lia|].
  apply (to_str_never_fails 23 59); lia.
Defined.

(** X2.  "It is midnight." is said exactly from 23:58 to 00:02. *)
Theorem to_str_midnight_iff (hour minute : Z) :
  0 <= hour < 24 -> 0 <= minute < 60 ->
  (SpeakTime.to_str hour minute = inr "It is midnight."
   <-> (hour = 0 /\ minute <= 2) \/ (hour = 23 /\ 58 <= minute)).
Proof.
  intros Hh Hm.
  assert (A : all_times
                (fun h m =>
                   Bool.eqb (same_result (SpeakTime.to_str h m) (inr "It is midnight."))
                            ((h =? 0) && (m <=? 2) || (h =? 23) && (58 <=? m)))
              = true)
    by (vm_compute; reflexivity).
  pose proof (all_times_spec _ A hour minute Hh Hm) as S. cbv beta in S.
  apply Bool.eqb_prop in S. split.
  - intros E. rewrite E in S. cbn [same_result] in S. rewrite String.eqb_refl in S.
    symmetry in S. apply orb_true_iff in S.
    rewrite !andb_true_iff in S. lia.
  - intros C.
    assert (R : (hour =? 0) && (minute <=? 2) || (hour =? 23) && (58 <=? minute) = true).
    { apply orb_true_iff. rewrite !andb_true_iff. lia. }
    rewrite R in S.
    destruct (SpeakTime.to_str hour minute) as [e | text]; cbn [same_result] in S;
      [discriminate|].
    apply String.eqb_eq in S. now subst.
Qed.

Lemma to_str_midnight_iff_witness :
  0 <= 23 < 24 /\ 0 <= 58 < 60
  /\ SpeakTime.to_str 23 58 = inr "It is midnight.".
Proof.
  split; [lia|]. split; [lia|].
  apply (to_str_midnight_iff 23 58); [lia | lia |]. right. split; lia.
Defined.

(** X3.  Minutes 3 to 32 are told as "past" the hour, minutes 33 to 57
    as "to" the next hour; nearer to the full hour neither word is
    used. *)
Theorem to_str_past_and_to (hour minute : Z) :
  0 <= hour < 24 -> 0 <= minute < 60 ->
  (sentence_has " past " (SpeakTime.to_str hour minute) = true
   <-> 3 <= minute <= 32)
  /\ (sentence_has " to " (SpeakTime.to_str hour minute) = true
      <-> 33 <= minute <= 57).
Proof.
  intros Hh Hm.
  assert (A : all_times
                (fun h m =>
                   Bool.eqb (sentence_has " past " (SpeakTime.to_str h m))
                            ((3 <=? m) && (m <=? 32))
                   && Bool.eqb (sentence_has " to " (SpeakTime.to_str h m))
                               ((33 <=? m) && (m <=? 57)))
              = true)
    by (vm_compute; reflexivity).
  pose proof (all_times_spec _ A hour minute Hh Hm) as S. cbv beta in S.
  apply andb_true_iff in S as [S1 S2].
  apply Bool.eqb_prop in S1, S2. rewrite S1, S2, !andb_true_iff. lia.
Qed.

Lemma to_str_past_and_to_witness :
  0 <= 16 < 24 /\ 0 <= 40 < 60
  /\ sentence_has " to " (SpeakTime.to_str 16 40) = true.
Proof.
  split; [lia|]. split; [lia|].
  apply (proj2 (to_str_past_and_to 16 40 ltac:(lia) ltac:(lia))). lia.
Defined.

(** X4.  The afternoon is told like the morning: twelve hours later the
    sentence is the same, unless the hour named is the one that is
    "midnight" in the morning and "twelve" in the afternoon. *)
Theorem to_str_twelve_hours_later (hour minute : Z) :
  0 <= hour < 12 -> 0 <= minute < 60 ->
  ~ (hour = 0 /\ minute <= 32) -> ~ (hour = 11 /\ 33 <= minute) ->
  SpeakTime.to_str (hour + 12) minute = SpeakTime.to_str hour minute.
Proof.
  intros Hh Hm N0 N11.
  assert (A : all_times
                (fun h m =>
                   (12 <=? h) || (h =? 0) && (m <=? 32) || (h =? 11) && (33 <=? m)
                   || same_result (SpeakTime.to_str (h + 12) m) (SpeakTime.to_str h m))
              = true)
    by (vm_compute; reflexivity).
  pose proof (all_times_spec _ A hour minute ltac:(lia) Hm) as S. cbv beta in S.
  repeat (apply orb_true_iff in S as [S | S]).
  - lia.
  - apply andb_true_iff in S. exfalso. apply N0. lia.
  - apply andb_true_iff in S. exfalso. apply N11. lia.
  - destruct (SpeakTime.to_str (hour + 12) minute), (SpeakTime.to_str hour minute);
      cbn [same_result] in S; try discriminate.
    apply String.eqb_eq in S. now subst.
Qed.

Lemma to_str_twelve_hours_later_witness :
  0 <= 4 < 12 /\ 0 <= 20 < 60
  /\ SpeakTime.to_str 16 20 = SpeakTime.to_str 4 20.
Proof.
  split; [lia|]. split; [lia|].
  apply (to_str_twelve_hours_later 4 20); lia.
Defined.

(** ** Text of a command *)

Lemma lower_app (a b : string) :
  Text.lower (a ++ b) = Text.lower a ++ Text.lower b.
Proof. induction a as [|c a IH]; cbn; [reflexivity | now rewrite IH]. Qed.

Lemma drop_prefix_app (p r : string) : Text.drop_prefix p (p ++ r) = Some r.
Proof.
  induction p as [|c p IH]; cbn; [reflexivity|]. now rewrite Ascii.eqb_refl.
Qed.

Lemma replace1_at_start (old new r : string) :
  Text.replace1 old new (old ++ r) = new ++ r.
Proof.
  destruct (old ++ r) eqn:E; cbn [Text.replace1]; rewrite <- E, drop_prefix_app;
    reflexivity.
Qed.

Lemma replace1_absent (old new s : string) :
  Text.contains old s = false -> Text.replace1 old new s = s.
Proof.
  induction s as [|c s IH]; cbn [Text.contains Text.replace1]; intros H.
  - destruct (Text.drop_prefix old ""); [discriminate | reflexivity].
  - destruct (Text.drop_prefix old (String c s)); [discriminate|].
    now rewrite IH.
Qed.

Lemma all_of_drop_prefix (P : ascii -> bool) (p s r : string) :
  Text.drop_prefix p s = Some r -> all_of P s = true -> all_of P r = true.
Proof.
  revert s. induction p as [|a p IH]; intros s D A; cbn in D.
  - now injection D as <-.
  - destruct s as [|b s]; [discriminate|].
    destruct (a =? b)%char; [|discriminate].
    cbn in A. apply andb_true_iff in A as [_ A]. eauto.
Qed.

Lemma all_of_replace1 (P : ascii -> bool) (old s : string) :
  all_of P s = true -> all_of P (Text.replace1 old "" s) = true.
Proof.
  induction s as [|c s IH]; intros A; cbn [Text.replace1].
  - destruct (Text.drop_prefix old "") eqn:D; [|reflexivity].
    cbn. eapply all_of_drop_prefix; eauto.
  - destruct (Text.drop_prefix old (String c s)) eqn:D.
    + cbn. eapply all_of_drop_prefix; eauto.
    + cbn in *. apply andb_true_iff in A as [Ac A]. now rewrite Ac, IH.
Qed.

Lemma all_of_lstrip (P sp : ascii -> bool) (s : string) :
  all_of P s = true -> all_of P (Text.lstrip_by sp s) = true.
Proof.
  induction s as [|c s IH]; intros A; cbn [Text.lstrip_by]; [reflexivity|].
  destruct (sp c); [|exact A].
  cbn in A. apply andb_true_iff in A as [_ A]. auto.
Qed.

Lemma all_of_rstrip (P sp : ascii -> bool) (s : string) :
  all_of P s = true -> all_of P (Text.rstrip_by sp s) = true.
Proof.
  induction s as [|c s IH]; intros A; cbn [Text.rstrip_by]; [reflexivity|].
  cbn in A. apply andb_true_iff in A as [Ac A]. specialize (IH A).
  destruct (Text.rstrip_by sp s) as [|y r].
  - destruct (sp c); cbn; [reflexivity | now rewrite Ac].
  - change (P c && all_of P (String y r) = true). now rewrite Ac, IH.
Qed.

Lemma lower_char_not_upper (c : ascii) : is_upper (Text.lower_char c) = false.
Proof.
  destruct c as [[] [] [] [] [] [] [] []]; vm_compute; reflexivity.
Qed.

Lemma lower_not_upper (s : string) :
  all_of (fun c => negb (is_upper c)) (Text.lower s) = true.
Proof.
  induction s as [|c s IH]; cbn; [reflexivity|].
  now rewrite lower_char_not_upper, IH.
Qed.

Lemma lstrip_first (sp : ascii -> bool) (s : string) (c : ascii) :
  first_char (Text.lstrip_by sp s) = Some c -> sp c = false.
Proof.
  induction s as [|x s IH]; cbn [Text.lstrip_by]; [discriminate|].
  destruct (sp x) eqn:E; [exact IH|].
  cbn. intros H. now injection H as <-.
Qed.

Lemma rstrip_first (sp : ascii -> bool) (s : string) (c : ascii) :
  first_char (Text.rstrip_by sp s) = Some c -> first_char s = Some c.
Proof.
  destruct s as [|x s]; cbn [Text.rstrip_by]; [discriminate|].
  destruct (Text.rstrip_by sp s); [destruct (sp x)|]; cbn; congruence.
Qed.

Lemma rstrip_last (sp : ascii -> bool) (s : string) (c : ascii) :
  last_char (Text.rstrip_by sp s) = Some c -> sp c = false.
Proof.
  induction s as [|x s IH]; cbn [Text.rstrip_by]; [discriminate|].
  destruct (Text.rstrip_by sp s) as [|y r] eqn:E.
  - destruct (sp x) eqn:Ex; cbn; [discriminate|].
    intros H. now injection H as <-.
  - cbn [last_char]. cbn [last_char] in IH.
    destruct (match last_char r with Some d => Some d | None => Some y end) eqn:L.
    + intros H. injection H as <-. now apply IH.
    + destruct (last_char r); discriminate.
Qed.

(** X5.  The text that the two players search for (the command in
    lower case, without the keyword, stripped) never starts or ends with
    white space and contains no upper-case letter. *)
Theorem query_is_trimmed_lower_case (o : player) (voice_command : string) :
  (forall c, first_char (query_of o voice_command) = Some c -> Text.isspace c = false)
  /\ (forall c, last_char (query_of o voice_command) = Some c -> Text.isspace c = false)
  /\ all_of (fun c => negb (is_upper c)) (query_of o voice_command) = true.
Proof.
  unfold query_of, Text.strip. split; [|split].
  - intros c H. apply rstrip_first in H. now apply lstrip_first in H.
  - intros c H. now apply rstrip_last in H.
  - apply all_of_rstrip, all_of_lstrip, all_of_replace1, lower_not_upper.
Qed.

(** ** RepeatAfterMe *)

(** X6.  When the command starts with the keyword, in any letter case,
    what is repeated is the rest of the command in lower case, with the
    space that followed the keyword; a later occurrence of the keyword
    stays. *)
Theorem repeat_says_rest_of_command (s : St RepeatAfterMe.t) (a b : string) :
  Text.lower a = RepeatAfterMe.keyword (self s) ->
  RepeatAfterMe.run (a ++ b) s
  = (Return tt, mkSt (self s) (trace s ++ [Say (Text.lower b)]) (edge_detect s)).
Proof.
  intros K. unfold RepeatAfterMe.run, bind, get_self, say, emit.
  cbn [self trace edge_detect].
  now rewrite lower_app, K, replace1_at_start.
Qed.

Lemma repeat_says_rest_of_command_witness :
  Text.lower "Repeat After Me" = "repeat after me"
  /\ RepeatAfterMe.run ("Repeat After Me" ++ " say Repeat after me")
                       (mkSt (RepeatAfterMe.mk "repeat after me") [] [])
     = (Return tt,
        mkSt (RepeatAfterMe.mk "repeat after me") [Say " say repeat after me"] []).
Proof.
  split; [reflexivity|].
  exact (repeat_says_rest_of_command
           (mkSt (RepeatAfterMe.mk "repeat after me") [] [])
           "Repeat After Me" " say Repeat after me" eq_refl).
Defined.

(** X7.  When the lower-cased command does not contain the keyword, the
    whole command is repeated, in lower case. *)
Theorem repeat_without_keyword (s : St RepeatAfterMe.t) (voice_command : string) :
  Text.contains (RepeatAfterMe.keyword (self s)) (Text.lower voice_command) = false ->
  RepeatAfterMe.run voice_command s
  = (Return tt,
     mkSt (self s) (trace s ++ [Say (Text.lower voice_command)]) (edge_detect s)).
Proof.
  intros K. unfold RepeatAfterMe.run, bind, get_self, say, emit.
  cbn [self trace edge_detect]. now rewrite replace1_absent.
Qed.

Lemma repeat_without_keyword_witness :
  Text.contains "repeat after me" (Text.lower "Good Morning") = false
  /\ RepeatAfterMe.run "Good Morning" (mkSt (RepeatAfterMe.mk "repeat after me") [] [])
     = (Return tt, mkSt (RepeatAfterMe.mk "repeat after me") [Say "good morning"] []).
Proof.
  split; [reflexivity|].
  exact (repeat_without_keyword
           (mkSt (RepeatAfterMe.mk "repeat after me") [] []) "Good Morning" eq_refl).
Defined.

(** ** SpeakShellCommandOutput *)

Lemma strip_by_all (sp : ascii -> bool) (s : string) :
  all_of sp s = true -> Text.rstrip_by sp (Text.lstrip_by sp s) = "".
Proof.
  induction s as [|c s IH]; cbn; intros H; [reflexivity|].
  apply andb_true_iff in H as [Hc Hs]. rewrite Hc. auto.
Qed.

(** X8.  The failure text is not what is said when the command fails:
    a failing command raises out of [run] and nothing is said.  The
    failure text is said when the command succeeds and prints nothing
    but white space; otherwise the output is said, stripped. *)
Theorem shell_output_or_failure_text env decode cmd (s : St SpeakShellCommandOutput.t) :
  (check_output env (SpeakShellCommandOutput.shell_command (self s)) = None ->
   SpeakShellCommandOutput.run env decode cmd s
   = (Raise CalledProcessError,
      mkSt (self s)
           (trace s ++ [Shell (SpeakShellCommandOutput.shell_command (self s))])
           (edge_detect s)))
  /\ (forall out text,
         check_output env (SpeakShellCommandOutput.shell_command (self s)) = Some out ->
         all_of Text.bytes_isspace out = true ->
         SpeakShellCommandOutput.failure_text (self s) = Some text ->
         Text.is_empty text = false ->
         SpeakShellCommandOutput.run env decode cmd s
         = (Return tt,
            mkSt (self s)
                 ((trace s ++ [Shell (SpeakShellCommandOutput.shell_command (self s))])
                    ++ [Say text])
                 (edge_detect s)))
  /\ (forall out text,
         check_output env (SpeakShellCommandOutput.shell_command (self s)) = Some out ->
         Text.is_empty (Text.bytes_strip out) = false ->
         decode (Text.bytes_strip out) = Some text ->
         SpeakShellCommandOutput.run env decode cmd s
         = (Return tt,
            mkSt (self s)
                 ((trace s ++ [Shell (SpeakShellCommandOutput.shell_command (self s))])
                    ++ [Say text])
                 (edge_detect s))).
Proof.
  split; [|split].
  - intros C.
    cbv [SpeakShellCommandOutput.run bind get_self subprocess_check_output emit].
    cbn [self trace edge_detect]. now rewrite C.
  - intros out text C B F T.
    cbv [SpeakShellCommandOutput.run bind get_self subprocess_check_output emit].
    cbn [self trace edge_detect]. rewrite C. cbv [ret].
    unfold Text.bytes_strip. rewrite (strip_by_all _ _ B).
    cbn [Text.is_empty negb self]. now rewrite F, T.
  - intros out text C B D.
    cbv [SpeakShellCommandOutput.run bind get_self subprocess_check_output emit].
    cbn [self trace edge_detect]. rewrite C. cbv [ret].
    now rewrite B, D.
Qed.

Lemma shell_output_or_failure_text_witness :
  check_output Scenario.offline "ip -4 route get 1" = Some "40"
  /\ SpeakShellCommandOutput.run
       Scenario.offline (fun b => Some b) "ip address"
       (mkSt (SpeakShellCommandOutput.mk "ip -4 route get 1" (Some "no address")) [] [])
     = (Return tt,
        mkSt (SpeakShellCommandOutput.mk "ip -4 route get 1" (Some "no address"))
             [Shell "ip -4 route get 1"; Say "40"] []).
Proof.
  split; [reflexivity|].
  exact (proj2 (proj2 (shell_output_or_failure_text
                         Scenario.offline (fun b => Some b) "ip address"
                         (mkSt (SpeakShellCommandOutput.mk "ip -4 route get 1"
                                                           (Some "no address")) [] [])))
               "40" "40" eq_refl eq_refl eq_refl).
Defined.

(** ** VolumeControl: the commands *)

Lemma run_digits (prev : string) (c : ascii) (rest : string) :
  Re.run [Re.Plus Re.CDigit] prev (String c rest) None None
  = if Text.isdecimal c
    then Re.greedy Re.CDigit (Re.run []) (String c prev) rest None None
    else None.
Proof. reflexivity. Qed.

Lemma search_from_no_digit (s prev : string) :
  all_of not_digit s = true ->
  Re.search_from [Re.Plus Re.CDigit] prev s = None.
Proof.
  revert prev. induction s as [|c s IH]; intros prev A; [reflexivity|].
  cbn [all_of] in A. apply andb_true_iff in A as [Ac A].
  unfold not_digit in Ac. apply negb_true_iff in Ac.
  cbn [Re.search_from]. rewrite run_digits, Ac. now apply IH.
Qed.

Lemma substring_prefix (a b : string) : substring 0 (String.length a) (a ++ b) = a.
Proof. induction a as [|c a IH]; cbn; [now destruct b | now rewrite IH]. Qed.

Lemma length_append (a b : string) :
  String.length (a ++ b) = (String.length a + String.length b)%nat.
Proof. induction a as [|c a IH]; cbn; [reflexivity | now rewrite IH]. Qed.

Lemma consumed_app (a b : string) : Re.consumed (a ++ b) b = a.
Proof.
  unfold Re.consumed. rewrite length_append.
  replace (String.length a + String.length b - String.length b)%nat
    with (String.length a) by lia.
  apply substring_prefix.
Qed.

Lemma greedy_digits (ds post prev : string) gs cap :
  Text.all_decimal ds = true -> no_digit_first post = true ->
  Re.greedy Re.CDigit (Re.run []) prev (ds ++ post) gs cap = Some (post, cap).
Proof.
  revert prev. induction ds as [|d ds IH]; intros prev D P.
  - cbn [append]. destruct post as [|x post]; [reflexivity|].
    cbn in P. apply negb_true_iff in P.
    cbn [Re.greedy Re.cmatch]. now rewrite P.
  - cbn in D. apply andb_true_iff in D as [Dd D].
    cbn [append Re.greedy Re.cmatch]. rewrite Dd. now rewrite IH.
Qed.

(** [re.search(r'\d+', s)] finds the first run of digits of [s], whole. *)
Lemma search_first_digits (pre ds post prev : string) (d : ascii) :
  all_of not_digit pre = true ->
  Text.all_decimal (String d ds) = true ->
  no_digit_first post = true ->
  Re.search_from [Re.Plus Re.CDigit] prev (pre ++ String d ds ++ post)
  = Some {| Re.group0 := String d ds; Re.group1 := None |}.
Proof.
  revert prev. induction pre as [|c pre IH]; intros prev A D P.
  - cbn [append Re.search_from]. rewrite run_digits.
    pose proof D as D'. cbn in D'. apply andb_true_iff in D' as [Dd Ds].
    rewrite Dd, (greedy_digits ds post (String d prev) None None Ds P).
    change (String d (ds ++ post)) with (String d ds ++ post).
    now rewrite consumed_app.
  - cbn [all_of] in A. apply andb_true_iff in A as [Ac A].
    unfold not_digit in Ac. apply negb_true_iff in Ac.
    cbn [append Re.search_from]. rewrite run_digits, Ac. now apply IH.
Qed.

Lemma digits_value_nonneg (ds : string) (acc : Z) :
  0 <= acc -> 0 <= Text.digits_value acc ds.
Proof.
  revert acc. induction ds as [|d ds IH]; intros acc H; cbn [Text.digits_value];
    [exact H|].
  apply IH. pose proof (N2Z.is_nonneg (Text.code d - 48)). lia.
Qed.

Lemma parse_int_digits (d : ascii) (ds : string) :
  Text.all_decimal (String d ds) = true ->
  Text.parse_int (String d ds) = Some (Text.digits_value 0 (String d ds)).
Proof.
  intros D. unfold Text.parse_int. rewrite D.
  pose proof D as D'. cbn in D'. apply andb_true_iff in D' as [Dd _].
  destruct (Ascii.eqb_spec d "-"%char) as [-> | _]; [discriminate|].
  destruct (Ascii.eqb_spec d "+"%char) as [-> | _]; [discriminate|].
  reflexivity.
Qed.

Lemma tell_known_level env (s : St VolumeControl.t) (v : Z) :
  VolumeControl.value (self s) = Some v -> v <> 0 ->
  VolumeControl.tell env s
  = (Return tt,
     mkSt (self s) (trace s ++ [Say ("Volume at " ++ Text.decimal v ++ " %.")])
          (edge_detect s)).
Proof.
  intros V N. unfold VolumeControl.tell.
  unfold bind at 1. unfold get_self at 1. rewrite V.
  apply Z.eqb_neq in N. rewrite N.
  unfold bind at 1. unfold ret at 1.
  unfold bind at 1. unfold get_self at 1. cbn [self]. now rewrite V.
Qed.

Lemma tell_reads_mixer env (s : St VolumeControl.t) (out : string) (n : Z) :
  VolumeControl.value (self s) = None \/ VolumeControl.value (self s) = Some 0 ->
  check_output env VolumeControl.GET_VOLUME = Some out ->
  Text.parse_int (Text.bytes_strip out) = Some n ->
  VolumeControl.tell env s
  = (Return tt,
     mkSt (VolumeControl.mk (VolumeControl.keyword (self s)) (Some n))
          ((trace s ++ [Shell VolumeControl.GET_VOLUME])
             ++ [Say ("Volume at " ++ Text.decimal n ++ " %.")])
          (edge_detect s)).
Proof.
  intros V C P.
  assert (E : forall k : unit -> M VolumeControl.t unit,
             bind (out <- subprocess_check_output env VolumeControl.GET_VOLUME ;;
                   n <- int_of (Text.bytes_strip out) ;;
                   VolumeControl.assign_value n) k s
             = k tt (mkSt (VolumeControl.mk (VolumeControl.keyword (self s)) (Some n))
                          (trace s ++ [Shell VolumeControl.GET_VOLUME])
                          (edge_detect s))).
  { intros k.
    cbv [bind subprocess_check_output emit int_of VolumeControl.assign_value
         get_self set_self].
    cbn [self trace edge_detect]. rewrite C. cbv [ret]. now rewrite P. }
  unfold VolumeControl.tell. unfold bind at 1. unfold get_self at 1.
  destruct V as [V | V]; rewrite V; [|cbn [Z.eqb]]; rewrite E;
    unfold bind, get_self; cbn [self VolumeControl.value]; reflexivity.
Qed.

Lemma volume_run_unfold env cmd (s : St VolumeControl.t) :
  VolumeControl.run env cmd s
  = (if (volume_mode (self s) cmd =? VolumeControl.UP)%string
     then VolumeControl.increment env 10 ;; VolumeControl.tell env
     else if (volume_mode (self s) cmd =? VolumeControl.DOWN)%string
     then VolumeControl.increment env (-10) ;; VolumeControl.tell env
     else if (volume_mode (self s) cmd =? VolumeControl.MAX)%string
     then VolumeControl.set env 100 ;; VolumeControl.tell env
     else if (volume_mode (self s) cmd =? VolumeControl.MUTE)%string
     then VolumeControl.set env 0 ;; VolumeControl.tell env
     else if negb (Text.is_empty (volume_mode (self s) cmd))
     then match Re.search [Re.Plus Re.CDigit] (volume_mode (self s) cmd) with
          | Some m =>
              vol <- int_of (Re.group0 m) ;;
              VolumeControl.set env vol ;; VolumeControl.tell env
          | None => say "Please specify a value."
          end
     else VolumeControl.tell env) s.
Proof. reflexivity. Qed.

Lemma mode_with_digits_is_no_keyword (mode : string) (m : Re.match_obj) :
  Re.search [Re.Plus Re.CDigit] mode = Some m ->
  (mode =? VolumeControl.UP)%string = false
  /\ (mode =? VolumeControl.DOWN)%string = false
  /\ (mode =? VolumeControl.MAX)%string = false
  /\ (mode =? VolumeControl.MUTE)%string = false
  /\ Text.is_empty mode = false.
Proof.
  intros H.
  repeat split;
    try (destruct (String.eqb_spec mode VolumeControl.UP) as [E | _];
         [subst; vm_compute in H; discriminate | reflexivity]);
    try (destruct (String.eqb_spec mode VolumeControl.DOWN) as [E | _];
         [subst; vm_compute in H; discriminate | reflexivity]);
    try (destruct (String.eqb_spec mode VolumeControl.MAX) as [E | _];
         [subst; vm_compute in H; discriminate | reflexivity]);
    try (destruct (String.eqb_spec mode VolumeControl.MUTE) as [E | _];
         [subst; vm_compute in H; discriminate | reflexivity]).
  destruct mode; [vm_compute in H; discriminate | reflexivity].
Qed.

Lemma set_then_tell env (value : Z) (s : St VolumeControl.t) :
  1 <= value ->
  call_fault env (VolumeControl.SET_VOLUME (Z.min 100 value)) = None ->
  (VolumeControl.set env value ;; VolumeControl.tell env) s
  = (Return tt,
     mkSt (VolumeControl.mk (VolumeControl.keyword (self s)) (Some (Z.min 100 value)))
          (((trace s ++ [Shell (VolumeControl.SET_VOLUME (Z.min 100 value))])
              ++ [Log "info" (PStr ("volume: " ++ Text.decimal (Z.min 100 value)))])
             ++ [Say ("Volume at " ++ Text.decimal (Z.min 100 value) ++ " %.")])
          (edge_detect s)).
Proof.
  intros V F.
  assert (E : Z.max 0 (Z.min 100 value) = Z.min 100 value) by lia.
  unfold bind at 1. rewrite set_without_fault by now rewrite E.
  rewrite E. rewrite (tell_known_level env _ (Z.min 100 value)); [reflexivity | reflexivity | lia].
Qed.

(** X9.  A command with a number sets the volume to the first run of
    digits of the mode, read as a decimal number and cut at 100, and
    announces that level; the mixer is not read. *)
Theorem volume_number_sets_level env cmd (s : St VolumeControl.t)
        (pre post ds : string) (d : ascii) :
  volume_mode (self s) cmd = pre ++ String d ds ++ post ->
  all_of not_digit pre = true ->
  Text.all_decimal (String d ds) = true ->
  no_digit_first post = true ->
  1 <= Text.digits_value 0 (String d ds) ->
  call_fault env (VolumeControl.SET_VOLUME
                    (Z.min 100 (Text.digits_value 0 (String d ds)))) = None ->
  VolumeControl.run env cmd s
  = (Return tt,
     mkSt (VolumeControl.mk (VolumeControl.keyword (self s))
                            (Some (Z.min 100 (Text.digits_value 0 (String d ds)))))
          (((trace s
             ++ [Shell (VolumeControl.SET_VOLUME
                          (Z.min 100 (Text.digits_value 0 (String d ds))))])
              ++ [Log "info"
                      (PStr ("volume: "
                             ++ Text.decimal
                                  (Z.min 100 (Text.digits_value 0 (String d ds)))))])
             ++ [Say ("Volume at "
                      ++ Text.decimal (Z.min 100 (Text.digits_value 0 (String d ds)))
                      ++ " %.")])
          (edge_detect s)).
Proof.
  intros M A D P V F.
  assert (S : Re.search [Re.Plus Re.CDigit] (volume_mode (self s) cmd)
              = Some {| Re.group0 := String d ds; Re.group1 := None |})
    by (rewrite M; now apply search_first_digits).
  destruct (mode_with_digits_is_no_keyword _ _ S) as (U & Dn & Mx & Mu & Em).
  rewrite volume_run_unfold, U, Dn, Mx, Mu, Em, S. cbn [negb Re.group0].
  unfold bind at 1. unfold int_of. rewrite (parse_int_digits d ds D).
  unfold ret at 1. now apply set_then_tell.
Qed.

Lemma volume_number_sets_level_witness :
  volume_mode (self Scenario.volume_start) "Volume to 250 percent"
  = "to " ++ String "2" "50" ++ " percent"
  /\ VolumeControl.value
       (self (snd (VolumeControl.run Scenario.offline "Volume to 250 percent"
                                     Scenario.volume_start)))
     = Some 100.
Proof.
  split; [reflexivity|].
  rewrite (volume_number_sets_level
             Scenario.offline "Volume to 250 percent" Scenario.volume_start
             "to " " percent" "50" "2"%char
             eq_refl eq_refl eq_refl eq_refl ltac:(vm_compute; discriminate) eq_refl).
  reflexivity.
Defined.

(** X10.  A mode that is not empty, is none of up, down, max and mute
    and has no digit is answered by "Please specify a value."; the
    mixer is neither read nor set and the level is not announced. *)
Theorem volume_without_number_asks env cmd (s : St VolumeControl.t) :
  Text.is_empty (volume_mode (self s) cmd) = false ->
  (volume_mode (self s) cmd =? VolumeControl.UP)%string = false ->
  (volume_mode (self s) cmd =? VolumeControl.DOWN)%string = false ->
  (volume_mode (self s) cmd =? VolumeControl.MAX)%string = false ->
  (volume_mode (self s) cmd =? VolumeControl.MUTE)%string = false ->
  all_of not_digit (volume_mode (self s) cmd) = true ->
  VolumeControl.run env cmd s
  = (Return tt,
     mkSt (self s) (trace s ++ [Say "Please specify a value."]) (edge_detect s)).
Proof.
  intros Em U Dn Mx Mu A.
  rewrite volume_run_unfold, U, Dn, Mx, Mu, Em. cbn [negb].
  unfold Re.search. now rewrite search_from_no_digit.
Qed.

Lemma volume_without_number_asks_witness :
  all_of not_digit (volume_mode (self Scenario.volume_start) "volume louder") = true
  /\ VolumeControl.run Scenario.offline "volume louder" Scenario.volume_start
     = (Return tt,
        mkSt (self Scenario.volume_start) [Say "Please specify a value."] []).
Proof.
  split; [reflexivity|].
  exact (volume_without_number_asks
           Scenario.offline "volume louder" Scenario.volume_start
           eq_refl eq_refl eq_refl eq_refl eq_refl eq_refl).
Defined.

(** X11.  After "mute" the recorded level 0 counts as no level: [tell]
    reads the mixer again, and the level announced and kept is the one
    the mixer reports. *)
Theorem volume_mute_reads_mixer_again env cmd (s : St VolumeControl.t)
        (out : string) (n : Z) :
  volume_mode (self s) cmd = VolumeControl.MUTE ->
  call_fault env (VolumeControl.SET_VOLUME 0) = None ->
  check_output env VolumeControl.GET_VOLUME = Some out ->
  Text.parse_int (Text.bytes_strip out) = Some n ->
  VolumeControl.run env cmd s
  = (Return tt,
     mkSt (VolumeControl.mk (VolumeControl.keyword (self s)) (Some n))
          ((((trace s ++ [Shell (VolumeControl.SET_VOLUME 0)])
               ++ [Log "info" (PStr ("volume: " ++ Text.decimal 0))])
              ++ [Shell VolumeControl.GET_VOLUME])
             ++ [Say ("Volume at " ++ Text.decimal n ++ " %.")])
          (edge_detect s)).
Proof.
  intros M F C P. rewrite volume_run_unfold, M. cbn [String.eqb Ascii.eqb Bool.eqb].
  change ((VolumeControl.MUTE =? VolumeControl.UP)%string) with false.
  change ((VolumeControl.MUTE =? VolumeControl.DOWN)%string) with false.
  change ((VolumeControl.MUTE =? VolumeControl.MAX)%string) with false.
  change ((VolumeControl.MUTE =? VolumeControl.MUTE)%string) with true.
  cbv iota. unfold bind at 1.
  rewrite (set_without_fault env 0 s F).
  change (Z.max 0 (Z.min 100 0)) with 0.
  rewrite (tell_reads_mixer env _ out n); [reflexivity | right; reflexivity | exact C | exact P].
Qed.

Lemma volume_mute_reads_mixer_again_witness :
  volume_mode (self Scenario.volume_start) "Volume mute" = VolumeControl.MUTE
  /\ VolumeControl.value
       (self (snd (VolumeControl.run Scenario.offline "Volume mute"
                                     Scenario.volume_start)))
     = Some 40.
Proof.
  split; [reflexivity|].
  rewrite (volume_mute_reads_mixer_again
             Scenario.offline "Volume mute" Scenario.volume_start "40" 40
             eq_refl eq_refl eq_refl eq_refl).
  reflexivity.
Defined.

Lemma increment_reads env (delta : Z) (s : St VolumeControl.t) (out : string) (n : Z) :
  check_output env VolumeControl.GET_VOLUME = Some out ->
  Text.parse_int (Text.bytes_strip out) = Some n ->
  VolumeControl.increment env delta s
  = VolumeControl.set env (n + delta)
      (mkSt (self s) (trace s ++ [Shell VolumeControl.GET_VOLUME]) (edge_detect s)).
Proof.
  intros C P.
  cbv [VolumeControl.increment bind subprocess_check_output emit int_of].
  rewrite C. cbv [ret]. now rewrite P.
Qed.

Lemma increment_then_tell env (delta : Z) (s : St VolumeControl.t) (out : string) (n : Z) :
  check_output env VolumeControl.GET_VOLUME = Some out ->
  Text.parse_int (Text.bytes_strip out) = Some n ->
  1 <= n + delta ->
  call_fault env (VolumeControl.SET_VOLUME (Z.min 100 (n + delta))) = None ->
  (VolumeControl.increment env delta ;; VolumeControl.tell env) s
  = (Return tt,
     mkSt (VolumeControl.mk (VolumeControl.keyword (self s))
                            (Some (Z.min 100 (n + delta))))
          ((((trace s ++ [Shell VolumeControl.GET_VOLUME])
               ++ [Shell (VolumeControl.SET_VOLUME (Z.min 100 (n + delta)))])
              ++ [Log "info" (PStr ("volume: " ++ Text.decimal (Z.min 100 (n + delta))))])
             ++ [Say ("Volume at " ++ Text.decimal (Z.min 100 (n + delta)) ++ " %.")])
          (edge_detect s)).
Proof.
  intros C P V F.
  pose proof (set_then_tell
                env (n + delta)
                (mkSt (self s) (trace s ++ [Shell VolumeControl.GET_VOLUME])
                      (edge_detect s)) V F) as E.
  unfold bind in *. rewrite (increment_reads env delta s out n C P).
  exact E.
Qed.

(** X12.  "up" and "down" read the level from the mixer, move it by ten
    and cut the result at 100: from 95, "up" sets and announces 100. *)
Theorem volume_up_down_by_ten env cmd (s : St VolumeControl.t)
        (out : string) (n delta : Z) :
  (volume_mode (self s) cmd = VolumeControl.UP /\ delta = 10)
  \/ (volume_mode (self s) cmd = VolumeControl.DOWN /\ delta = -10) ->
  check_output env VolumeControl.GET_VOLUME = Some out ->
  Text.parse_int (Text.bytes_strip out) = Some n ->
  1 <= n + delta ->
  call_fault env (VolumeControl.SET_VOLUME (Z.min 100 (n + delta))) = None ->
  VolumeControl.run env cmd s
  = (Return tt,
     mkSt (VolumeControl.mk (VolumeControl.keyword (self s))
                            (Some (Z.min 100 (n + delta))))
          ((((trace s ++ [Shell VolumeControl.GET_VOLUME])
               ++ [Shell (VolumeControl.SET_VOLUME (Z.min 100 (n + delta)))])
              ++ [Log "info" (PStr ("volume: " ++ Text.decimal (Z.min 100 (n + delta))))])
             ++ [Say ("Volume at " ++ Text.decimal (Z.min 100 (n + delta)) ++ " %.")])
          (edge_detect s)).
Proof.
  intros [[M ->] | [M ->]] C P V F; rewrite volume_run_unfold, M.
  - change ((VolumeControl.UP =? VolumeControl.UP)%string) with true. cbv iota.
    now apply (increment_then_tell env 10 s out n).
  - change ((VolumeControl.DOWN =? VolumeControl.UP)%string) with false.
    change ((VolumeControl.DOWN =? VolumeControl.DOWN)%string) with true. cbv iota.
    now apply (increment_then_tell env (-10) s out n).
Qed.

Lemma volume_up_down_by_ten_witness :
  volume_mode (self Scenario.volume_start) "volume UP" = VolumeControl.UP
  /\ VolumeControl.value
       (self (snd (VolumeControl.run Scenario.offline "volume UP"
                                     Scenario.volume_start)))
     = Some 50.
Proof.
  split; [reflexivity|].
  rewrite (volume_up_down_by_ten
             Scenario.offline "volume UP" Scenario.volume_start "40" 40 10
             (or_introl (conj eq_refl eq_refl)) eq_refl eq_refl
             ltac:(lia) eq_refl).
  reflexivity.
Defined.

(** X13.  When the level cannot be read ("up" or "down" and the mixer
    command fails, or prints something that is not a number), [run]
    ends with the exception: the volume is not set, nothing is said and
    the recorded level stays. *)
Theorem volume_unreadable_level_escapes env cmd (s : St VolumeControl.t) :
  volume_mode (self s) cmd = VolumeControl.UP
  \/ volume_mode (self s) cmd = VolumeControl.DOWN ->
  (check_output env VolumeControl.GET_VOLUME = None ->
   VolumeControl.run env cmd s
   = (Raise CalledProcessError,
      mkSt (self s) (trace s ++ [Shell VolumeControl.GET_VOLUME]) (edge_detect s)))
  /\ (forall out,
         check_output env VolumeControl.GET_VOLUME = Some out ->
         Text.parse_int (Text.bytes_strip out) = None ->
         VolumeControl.run env cmd s
         = (Raise ValueError,
            mkSt (self s) (trace s ++ [Shell VolumeControl.GET_VOLUME])
                 (edge_detect s))).
Proof.
  intros M. split.
  - intros C. rewrite volume_run_unfold.
    destruct M as [M | M]; rewrite M;
      [change ((VolumeControl.UP =? VolumeControl.UP)%string) with true
      |change ((VolumeControl.DOWN =? VolumeControl.UP)%string) with false;
       change ((VolumeControl.DOWN =? VolumeControl.DOWN)%string) with true];
      cbv iota;
      cbv [VolumeControl.increment bind subprocess_check_output emit];
      now rewrite C.
  - intros out C P. rewrite volume_run_unfold.
    destruct M as [M | M]; rewrite M;
      [change ((VolumeControl.UP =? VolumeControl.UP)%string) with true
      |change ((VolumeControl.DOWN =? VolumeControl.UP)%string) with false;
       change ((VolumeControl.DOWN =? VolumeControl.DOWN)%string) with true];
      cbv iota;
      cbv [VolumeControl.increment bind subprocess_check_output emit int_of];
      rewrite C; cbv [ret]; now rewrite P.
Qed.

Lemma volume_unreadable_level_escapes_witness :
  volume_mode (self Scenario.volume_start) "volume down" = VolumeControl.DOWN
  /\ check_output Cases.no_shell VolumeControl.GET_VOLUME = None
  /\ VolumeControl.run Cases.no_shell "volume down" Scenario.volume_start
     = (Raise CalledProcessError,
        mkSt (self Scenario.volume_start) [Shell VolumeControl.GET_VOLUME] []).
Proof.
  split; [reflexivity|]. split; [reflexivity|].
  exact (proj1 (volume_unreadable_level_escapes
                  Cases.no_shell "volume down" Scenario.volume_start
                  (or_intror eq_refl))
               eq_refl).
Defined.

(** ** The label of a video *)

Lemma last_of_last_char (prev tok : string) :
  last_of prev tok
  = match last_char tok with Some d => Some d | None => first_char prev end.
Proof.
  revert prev. induction tok as [|x tok IH]; intros prev.
  - now destruct prev.
  - cbn [last_of last_char]. rewrite IH. cbn [first_char].
    now destruct (last_char tok).
Qed.

Lemma run_not_behind (c : ascii) (prev rest : string) gs cap after cap' :
  Re.run [Re.NotBehind c] prev rest gs cap = Some (after, cap') ->
  after = rest /\ first_char prev <> Some c.
Proof.
  cbn [Re.run]. destruct prev as [|x prev]; cbn [first_char].
  - intros H. injection H as <- _. split; [reflexivity | discriminate].
  - destruct (Ascii.eqb_spec x c) as [-> | N]; [discriminate|].
    intros H. injection H as <- _. split; [reflexivity | congruence].
Qed.

Lemma greedy_word_shape (w prev : string) gs cap after cap' :
  Re.greedy Re.CWord (Re.run [Re.NotBehind "_"%char]) prev w gs cap
  = Some (after, cap') ->
  exists tok, w = tok ++ after /\ all_word tok = true
              /\ last_of prev tok <> Some "_"%char.
Proof.
  revert prev. induction w as [|x w IH]; intros prev H.
  - cbn [Re.greedy] in H. apply run_not_behind in H as [-> N].
    exists "". repeat split. now destruct prev.
  - cbn [Re.greedy Re.cmatch] in H.
    destruct (Text.isword x) eqn:Wx.
    + destruct (Re.greedy Re.CWord (Re.run [Re.NotBehind "_"%char])
                          (String x prev) w gs cap) as [[a c]|] eqn:G.
      * injection H as -> ->. destruct (IH _ G) as (tok & E & A & L).
        exists (String x tok). cbn [append all_word last_of].
        rewrite Wx, A, <- E. repeat split. exact L.
      * apply run_not_behind in H as [-> N].
        exists "". repeat split. now destruct prev.
    + apply run_not_behind in H as [-> N].
      exists "". repeat split. now destruct prev.
Qed.

(** What one match of the pattern is. *)
Lemma run_pattern_shape (prev rest after : string) cap :
  Re.run YouTubePlayer.pattern prev rest None None = Some (after, cap) ->
  exists tok, rest = tok ++ after /\ token_ok tok = true.
Proof.
  destruct rest as [|c w]; [discriminate|].
  rewrite run_pattern.
  destruct (Ascii.eqb_spec c "_"%char) as [-> | N]; [discriminate|].
  destruct (Text.isword c) eqn:Wc; [|discriminate].
  intros G. apply greedy_word_shape in G as (tok & E & A & L).
  exists (String c tok). split; [cbn; now rewrite E|].
  unfold token_ok. cbn [all_word first_char]. rewrite Wc, A. cbn [andb].
  apply Ascii.eqb_neq in N. rewrite N. cbn [negb andb].
  rewrite last_of_last_char in L. cbn [last_char first_char] in *.
  destruct (last_char tok) as [d|].
  - destruct (Ascii.eqb_spec d "_"%char); [congruence | reflexivity].
  - now rewrite N.
Qed.

Lemma findall_tokens (rest prev : string) (skip : nat) :
  Forall (fun tok => token_ok tok = true)
         (Re.findall_from YouTubePlayer.pattern prev rest skip).
Proof.
  revert prev skip. induction rest as [|x rest IH]; intros prev skip.
  - destruct skip; constructor.
  - destruct skip as [|n]; cbn [Re.findall_from]; [|apply IH].
    destruct (Re.run YouTubePlayer.pattern prev (String x rest) None None)
      as [[after cap]|] eqn:R; [|apply IH].
    constructor; [|apply IH].
    apply run_pattern_shape in R as (tok & E & T).
    now rewrite E, consumed_app.
Qed.

Lemma all_of_append (P : ascii -> bool) (a b : string) :
  all_of P (a ++ b) = all_of P a && all_of P b.
Proof.
  induction a as [|c a IH]; cbn; [reflexivity|]. now rewrite IH, andb_assoc.
Qed.

Lemma all_of_join (P : ascii -> bool) (l : list string) :
  P " "%char = true ->
  Forall (fun tok => all_of P tok = true) l ->
  all_of P (Text.join " " l) = true.
Proof.
  intros Sp H. induction H as [|x l Hx Hl IH]; [reflexivity|].
  destruct l as [|y l]; [exact Hx|].
  change (Text.join " " (x :: y :: l)) with (x ++ " " ++ Text.join " " (y :: l)).
  rewrite !all_of_append, Hx, IH. cbn. now rewrite Sp.
Qed.

Lemma all_word_all_of (tok : string) :
  all_word tok = true -> all_of word_or_space tok = true.
Proof.
  induction tok as [|c tok IH]; cbn; [reflexivity|].
  intros H. apply andb_true_iff in H as [Hc H].
  unfold word_or_space at 1. now rewrite Hc, IH.
Qed.

(** X14.  Whatever the title, the matches that make up the label are
    runs of word characters that neither start nor end with an
    underscore, and none is empty; the label, their join by single
    spaces, has no character that is not a word character or a space. *)
Theorem label_is_made_of_words (title : string) :
  Forall (fun tok => token_ok tok = true) (Re.findall YouTubePlayer.pattern title)
  /\ all_of word_or_space (YouTubePlayer.clean_title title) = true.
Proof.
  split; [apply findall_tokens|].
  unfold YouTubePlayer.clean_title. apply all_of_join; [reflexivity|].
  eapply Forall_impl; [|apply (findall_tokens title "" 0)].
  intros tok T. unfold token_ok in T.
  apply andb_true_iff in T as [T _]. apply andb_true_iff in T as [T _].
  now apply all_word_all_of.
Qed.

Lemma findall_no_alnum (s prev : string) :
  all_of not_alnum s = true ->
  Re.findall_from YouTubePlayer.pattern prev s 0 = [].
Proof.
  revert prev. induction s as [|c s IH]; intros prev A; [reflexivity|].
  cbn [all_of] in A. apply andb_true_iff in A as [Ac A].
  unfold not_alnum in Ac. apply negb_true_iff in Ac.
  cbn [Re.findall_from]. rewrite run_pattern.
  unfold Text.isword. rewrite Ac. cbn [orb].
  destruct (c =? "_")%char; now apply IH.
Qed.

(** X15.  A title without any letter or digit gives the empty label. *)
Theorem title_without_alnum_gives_empty_label (title : string) :
  all_of not_alnum title = true -> YouTubePlayer.clean_title title = "".
Proof.
  intros A. unfold YouTubePlayer.clean_title, Re.findall.
  now rewrite findall_no_alnum.
Qed.

Lemma title_without_alnum_gives_empty_label_witness :
  all_of not_alnum "__ (!?) -- __" = true
  /\ YouTubePlayer.clean_title "__ (!?) -- __" = "".
Proof.
  split; [reflexivity|].
  exact (title_without_alnum_gives_empty_label "__ (!?) -- __" eq_refl).
Defined.

(** X16.  A run of word characters that neither starts nor ends with an
    underscore passes into the label unchanged: the underscores inside
    it are kept. *)
Theorem title_word_is_kept_whole (c : ascii) (w : string) :
  Text.isword c = true -> c <> "_"%char ->
  all_word w = true -> last_of (String c "") w <> Some "_"%char ->
  YouTubePlayer.clean_title (String c w) = String c w.
Proof. exact (clean_title_keeps_word c w). Qed.

Lemma title_word_is_kept_whole_witness :
  Text.isword "s" = true /\ all_word "now_flake_2" = true
  /\ YouTubePlayer.clean_title (String "s" "now_flake_2") = String "s" "now_flake_2".
Proof.
  split; [reflexivity|]. split; [reflexivity|].
  apply (title_word_is_kept_whole "s" "now_flake_2");
    [reflexivity | discriminate | reflexivity | discriminate].
Defined.

(** ** Waiting for the end of playback *)

Lemma wait_blocks (ticks : list (list async)) (s : St player) :
  done (self s) = false ->
  Forall (Forall (idle (input_value (self s)))) ticks ->
  yt_wait ticks s
  = (Blocks,
     mkSt (self s) (trace s ++ repeat Sleep (List.length ticks)) (edge_detect s)).
Proof.
  intros D Q.
  rewrite <- (app_nil_r ticks) at 1.
  rewrite (wait_idle_ticks ticks [] s D Q). cbn [wait self]. now rewrite D.
Qed.

(** X17.  The loop has no time limit.  Once [run] has started playback
    and waits, ticks that bring no terminal event (no end of stream, no
    error, no press at the active level) never make it return; this is
    so whatever callbacks ran while [player.play()] was in progress,
    because [done] is set to false after that call. *)
Theorem run_waits_while_nothing_ends_playback
        env sched cmd (s : St player) meta entries first url title :
  Text.is_empty (query_of (self s) cmd) = false ->
  extract_info env (query_of (self s) cmd) = Some meta ->
  truthy meta = true ->
  getitem_key meta "entries" = inr entries ->
  getitem_0 entries = inr first ->
  truthy first = true ->
  getitem_key first "url" = inr url ->
  getitem_key first "title" = inr (PStr title) ->
  Forall (Forall (idle (input_value (self s)))) (ticks sched) ->
  fst (YouTubePlayer.run env sched cmd s) = Blocks
  /\ done (self (snd (YouTubePlayer.run env sched cmd s))) = false.
Proof.
  intros Q E T K I F U L W.
  rewrite (YouTube_run_plays env sched cmd s meta entries first url title
                             Q E T K I F U L).
  match goal with
  | |- context [yt_deliver_all (during_play sched) ?x] =>
      pose proof (deliver_all_extends (during_play sched) x) as X; set (s1 := x) in *
  end.
  rewrite wait_blocks.
  - split; reflexivity.
  - reflexivity.
  - cbn [set_done bind get_self set_self snd self input_value].
    now rewrite (same_input_value _ _ X).
Qed.

Lemma run_waits_while_nothing_ends_playback_witness :
  Forall (Forall (idle (input_value (self Scenario.youtube_ready))))
         [[]; [InputEvent 23 1]; [PlayerEvent MediaPlayerOther]]
  /\ fst (YouTubePlayer.run
            (Scenario.one_video "x")
            {| during_play := [InputEvent 23 0];
               ticks := [[]; [InputEvent 23 1]; [PlayerEvent MediaPlayerOther]] |}
            "play it" Scenario.youtube_ready)
     = Blocks.
Proof.
  assert (W : Forall (Forall (idle (input_value (self Scenario.youtube_ready))))
                     [[]; [InputEvent 23 1]; [PlayerEvent MediaPlayerOther]])
    by (repeat constructor; cbn; discriminate).
  split; [exact W|].
  exact (proj1 (run_waits_while_nothing_ends_playback
                  (Scenario.one_video "x")
                  {| during_play := [InputEvent 23 0];
                     ticks := [[]; [InputEvent 23 1]; [PlayerEvent MediaPlayerOther]] |}
                  "play it" Scenario.youtube_ready
                  (Scenario.video "x")
                  (PList [PDict [("url", PStr "http://v/1"); ("title", PStr "x")]])
                  (PDict [("url", PStr "http://v/1"); ("title", PStr "x")])
                  (PStr "http://v/1") "x"
                  eq_refl eq_refl eq_refl eq_refl eq_refl eq_refl eq_refl eq_refl W)).
Defined.

Lemma repeat_sleep_snoc (n : nat) :
  (repeat Sleep n ++ [Sleep])%list = repeat Sleep (S n).
Proof. now rewrite <- repeat_cons. Qed.

Lemma wait_first_terminal (s : St player) (a : async)
      (quiet later : list (list async)) (before after : list async) :
  done (self s) = false ->
  Forall (Forall (idle (input_value (self s)))) quiet ->
  Forall (idle (input_value (self s))) before ->
  Forall (idle (input_value (self s))) after ->
  forall t,
    yt_deliver a (mkSt (self s) (trace s ++ repeat Sleep (S (List.length quiet)))
                       (edge_detect s))
    = finished s t ->
    yt_wait (quiet ++ (before ++ a :: after) :: later)%list s = (Return tt, finished s t).
Proof.
  intros D Q B A t E.
  rewrite wait_idle_ticks by assumption.
  rewrite wait_tick by exact D. cbn [self trace edge_detect].
  rewrite deliver_all_app. rewrite (deliver_all_idle before) by exact B.
  rewrite deliver_all_cons, <- app_assoc, repeat_sleep_snoc, E.
  rewrite deliver_all_idle by exact A.
  now apply wait_done.
Qed.

(** X18.  The first terminal event ends the wait.  When it is the end
    of the stream, [run] returns without a word and without calling
    [player.stop()]; when it is a player error, the one thing added is
    the sentence "Can't play" with the label.  The loop has slept once
    per tick up to that event. *)
Theorem first_player_event_ends_wait (s : St player) (label : string)
        (quiet later : list (list async)) (before after : list async) :
  done (self s) = false ->
  now_playing (self s) = PStr label ->
  Forall (Forall (idle (input_value (self s)))) quiet ->
  Forall (idle (input_value (self s))) before ->
  Forall (idle (input_value (self s))) after ->
  yt_wait (quiet ++ (before ++ PlayerEvent MediaPlayerEndReached :: after) :: later)%list s
  = (Return tt, finished s (trace s ++ repeat Sleep (S (List.length quiet))))
  /\ yt_wait (quiet ++ (before ++ PlayerEvent MediaPlayerEncounteredError :: after)
                       :: later)%list s
     = (Return tt,
        finished s ((trace s ++ repeat Sleep (S (List.length quiet)))
                      ++ [Say ("Can't play " ++ label)]))
  /\ ti_wait (quiet ++ (before ++ PlayerEvent MediaPlayerEndReached :: after)
                       :: later)%list s
     = (Return tt, finished s (trace s ++ repeat Sleep (S (List.length quiet))))
  /\ ti_wait (quiet ++ (before ++ PlayerEvent MediaPlayerEncounteredError :: after)
                       :: later)%list s
     = (Return tt,
        finished s ((trace s ++ repeat Sleep (S (List.length quiet)))
                      ++ [Say ("Can't play " ++ label)])).
Proof.
  intros D N Q B A.
  assert (E1 : yt_wait (quiet ++ (before ++ PlayerEvent MediaPlayerEndReached :: after)
                                 :: later)%list s
               = (Return tt, finished s (trace s ++ repeat Sleep (S (List.length quiet))))).
  { apply wait_first_terminal; try assumption. reflexivity. }
  assert (E2 : yt_wait (quiet ++ (before ++ PlayerEvent MediaPlayerEncounteredError :: after)
                                 :: later)%list s
               = (Return tt,
                  finished s ((trace s ++ repeat Sleep (S (List.length quiet)))
                                ++ [Say ("Can't play " ++ label)]))).
  { apply wait_first_terminal; try assumption.
    unfold deliver. now rewrite (on_error label) by exact N. }
  repeat split; assumption.
Qed.

Lemma first_player_event_ends_wait_witness :
  done (self (Scenario.playing "x")) = false
  /\ now_playing (self (Scenario.playing "x")) = PStr "x"
  /\ yt_wait [[]; [InputEvent 23 1; PlayerEvent MediaPlayerEncounteredError]; []]
             (Scenario.playing "x")
     = (Return tt,
        finished (Scenario.playing "x")
                 ((trace (Scenario.playing "x") ++ [Sleep; Sleep])
                    ++ [Say "Can't play x"])).
Proof.
  split; [reflexivity|]. split; [reflexivity|].
  refine (proj1 (proj2 (first_player_event_ends_wait
                          (Scenario.playing "x") "x" [[]] [[]] [InputEvent 23 1] []
                          eq_refl eq_refl _ _ _))).
  - repeat constructor.
  - repeat constructor; cbn; discriminate.
  - constructor.
Defined.

(** X19.  A player error that arrives while [now_playing] is not a
    string (it is [None] until a first title is announced) is not
    reported: the callback raises [TypeError] before it marks the
    session done, and the state is unchanged. *)
Theorem error_before_first_title (s : St player) :
  (forall label, now_playing (self s) <> PStr label) ->
  YouTubePlayer._on_player_event MediaPlayerEncounteredError s = (Raise TypeError, s)
  /\ TuneInRadio._on_player_event MediaPlayerEncounteredError s = (Raise TypeError, s).
Proof.
  intros N. split.
  - now apply on_error_without_label.
  - exact (on_error_without_label s N).
Qed.

Lemma error_before_first_title_witness :
  (forall label, now_playing (self Scenario.youtube_ready) <> PStr label)
  /\ YouTubePlayer._on_player_event MediaPlayerEncounteredError Scenario.youtube_ready
     = (Raise TypeError, Scenario.youtube_ready).
Proof.
  assert (N : forall label, now_playing (self Scenario.youtube_ready) <> PStr label)
    by (intros label; discriminate).
  split; [exact N|].
  exact (proj1 (error_before_first_title Scenario.youtube_ready N)).
Defined.

(** ** Results of the video search that cannot be read *)

(** X20.  A search result without an ["entries"] key, or whose
    ["entries"] is the empty list, makes [run] raise ([KeyError],
    [IndexError]) after the one request: nothing is said and the media
    player is not touched. *)
Theorem video_result_without_entry env sched cmd (s : St player)
        (d : list (string * pyval)) :
  Text.is_empty (query_of (self s) cmd) = false ->
  extract_info env (query_of (self s) cmd) = Some (PDict d) ->
  d <> [] ->
  (assoc "entries" d = None ->
   YouTubePlayer.run env sched cmd s
   = (Raise KeyError,
      mkSt (self s) (trace s ++ [YdlExtract (query_of (self s) cmd)]) (edge_detect s)))
  /\ (assoc "entries" d = Some (PList []) ->
      YouTubePlayer.run env sched cmd s
      = (Raise IndexError,
         mkSt (self s) (trace s ++ [YdlExtract (query_of (self s) cmd)])
              (edge_detect s))).
Proof.
  unfold query_of. intros Q E N.
  assert (T : truthy (PDict d) = true) by (destruct d; [contradiction | reflexivity]).
  split; intros K;
    cbv [YouTubePlayer.run bind get_self try_except YouTubePlayer.ydl_extract_info
         emit say];
    cbn [self trace edge_detect]; rewrite Q, E; cbv [ret]; rewrite T; cbn [negb];
    unfold getitem_key; rewrite K; reflexivity.
Qed.

Lemma video_result_without_entry_witness :
  Text.is_empty (query_of (self Scenario.youtube_ready) "play xyzzy") = false
  /\ YouTubePlayer.run
       (Scenario.env_of (Some (PDict [("entries", PList [])])) (fun _ => None) None)
       Scenario.no_events "play xyzzy" Scenario.youtube_ready
     = (Raise IndexError,
        mkSt (self Scenario.youtube_ready)
             (trace Scenario.youtube_ready ++ [YdlExtract "xyzzy"])
             (edge_detect Scenario.youtube_ready)).
Proof.
  split; [reflexivity|].
  refine (proj2 (video_result_without_entry
                   (Scenario.env_of (Some (PDict [("entries", PList [])]))
                                    (fun _ => None) None)
                   Scenario.no_events "play xyzzy" Scenario.youtube_ready
                   [("entries", PList [])] eq_refl eq_refl _) eq_refl).
  discriminate.
Defined.

(** ** The categories of the radio guide *)

Lemma first_category_none (wanted : string) (categories : list pyval) :
  Forall (other_category wanted) categories ->
  TuneInRadio.first_category wanted categories = inr PNone.
Proof.
  induction 1 as [|c l (title & T & N) _ IH]; cbn [TuneInRadio.first_category];
    [reflexivity|].
  now rewrite T, N.
Qed.

(** X21.  The loop over the categories stops at the first one whose
    title is the filter and returns its guide items; the categories
    after it are not looked at (they may be anything).  When no title
    is the filter the result is [None]. *)
Theorem first_category_is_first_match
        (wanted : string) (before after : list pyval) (category : pyval) :
  Forall (other_category wanted) before ->
  (getitem_key category "Title" = inr (PStr wanted) ->
   TuneInRadio.first_category wanted (before ++ category :: after)
   = getitem_key category "GuideItems")
  /\ TuneInRadio.first_category wanted before = inr PNone.
Proof.
  intros B. split; [|now apply first_category_none].
  intros T. induction B as [|c l (title & Tc & N) _ IH];
    cbn [app TuneInRadio.first_category].
  - rewrite T. cbn [eq_str]. now rewrite String.eqb_refl.
  - now rewrite Tc, N.
Qed.

Lemma first_category_is_first_match_witness :
  Forall (other_category "Stations") [PDict [("Title", PStr "Shows")]]
  /\ TuneInRadio.first_category
       "Stations"
       ([PDict [("Title", PStr "Shows")]]
          ++ PDict [("Title", PStr "Stations"); ("GuideItems", PList [PStr "s1"])]
          :: [PNone; PInt 3])
     = inr (PList [PStr "s1"]).
Proof.
  assert (B : Forall (other_category "Stations") [PDict [("Title", PStr "Shows")]]).
  { constructor; [|constructor]. exists (PStr "Shows"). split; reflexivity. }
  split; [exact B|].
  exact (proj1 (first_category_is_first_match
                  "Stations" [PDict [("Title", PStr "Shows")]] [PNone; PInt 3]
                  (PDict [("Title", PStr "Stations"); ("GuideItems", PList [PStr "s1"])])
                  B)
               eq_refl).
Defined.

(** X22.  A radio search whose payload lists categories, none of them
    titled "Stations", finds nothing: after its one request [run] says
    "Didn't find any stations" and returns, without a second request
    and without touching the media player. *)
Theorem radio_search_without_stations_category
        env sched cmd (s : St player) body found payload result guide categories :
  Text.is_empty (query_of (self s) cmd) = false ->
  urlopen env (TuneInRadio.BASE_URL ++ "search/?query="
               ++ quote env (query_of (self s) cmd)) = Some body ->
  Re.search TuneInRadio.payload_pattern body = Some found ->
  Re.group1 found = Some payload ->
  json_loads env payload = Some result ->
  getitem_key result "ContainerGuideItems" = inr guide ->
  getitem_key guide "containers" = inr (PList categories) ->
  Forall (other_category TuneInRadio.FILTER_STATIONS) categories ->
  TuneInRadio.run env sched cmd s
  = (Return tt,
     mkSt (self s)
          (((trace s
             ++ [Log "debug" (PStr (TuneInRadio.BASE_URL ++ "search/?query="
                                    ++ quote env (query_of (self s) cmd)))])
              ++ [UrlOpen (TuneInRadio.BASE_URL ++ "search/?query="
                           ++ quote env (query_of (self s) cmd))])
             ++ [Say "Didn't find any stations"])
          (edge_detect s)).
Proof.
  intros Q U R G J K1 K2 C.
  rewrite (TuneIn_run_no_stations
             env sched cmd s
             (mkSt (self s)
                   ((trace s
                     ++ [Log "debug" (PStr (TuneInRadio.BASE_URL ++ "search/?query="
                                            ++ quote env (query_of (self s) cmd)))])
                      ++ [UrlOpen (TuneInRadio.BASE_URL ++ "search/?query="
                                   ++ quote env (query_of (self s) cmd))])
                   (edge_detect s))
             PNone Q); [reflexivity | | reflexivity].
  cbv [TuneInRadio._search bind emit TuneInRadio.read_url TuneInRadio.loads].
  cbn [self trace edge_detect]. rewrite U. cbv [ret]. rewrite R, G, J, K1.
  cbv [lift ret]. rewrite K2. cbn [iterate].
  now rewrite (first_category_none _ _ C).
Qed.

Lemma radio_search_without_stations_category_witness :
  Re.search TuneInRadio.payload_pattern "var TuneIn.payload = {};"
  = Some {| Re.group0 := "TuneIn.payload = {}"; Re.group1 := Some "{}" |}
  /\ spoken (snd (TuneInRadio.run
                    (Scenario.env_of
                       None (fun _ => Some "var TuneIn.payload = {};")
                       (Some (PDict [("ContainerGuideItems",
                                      PDict [("containers",
                                              PList [PDict [("Title", PStr "Shows")]])])])))
                    Scenario.no_events "radio jazz" Scenario.tunein_ready))
     = ["Didn't find any stations"].
Proof.
  split; [reflexivity|].
  rewrite (radio_search_without_stations_category
             (Scenario.env_of
                None (fun _ => Some "var TuneIn.payload = {};")
                (Some (PDict [("ContainerGuideItems",
                               PDict [("containers",
                                       PList [PDict [("Title", PStr "Shows")]])])])))
             Scenario.no_events "radio jazz" Scenario.tunein_ready
             "var TuneIn.payload = {};"
             {| Re.group0 := "TuneIn.payload = {}"; Re.group1 := Some "{}" |}
             "{}"
             (PDict [("ContainerGuideItems",
                      PDict [("containers", PList [PDict [("Title", PStr "Shows")]])])])
             (PDict [("containers", PList [PDict [("Title", PStr "Shows")]])])
             [PDict [("Title", PStr "Shows")]]
             eq_refl eq_refl eq_refl eq_refl eq_refl eq_refl eq_refl).
  - reflexivity.
  - constructor; [|constructor]. exists (PStr "Shows"). split; reflexivity.
Defined.

(** ** How many requests a command makes *)

Section Requests.

Context {O : Type}.

Lemma amr_pure {A} (m : M O A) (n : nat) :
  (forall s, snd (m s) = s) -> at_most_requests n m.
Proof.
  intros H s. exists []. rewrite H, app_nil_r. split; [reflexivity | cbn; lia].
Qed.

Lemma amr_ret {A} (a : A) n : at_most_requests n (ret a : M O A).
Proof. now apply amr_pure. Qed.

Lemma amr_raise {A} (e : exn) n : at_most_requests n (raise e : M O A).
Proof. now apply amr_pure. Qed.

Lemma amr_lift {A} (r : exn + A) n : at_most_requests n (lift r : M O A).
Proof. destruct r; [apply amr_raise | apply amr_ret]. Qed.

Lemma amr_get_self n : at_most_requests n (get_self : M O O).
Proof. now apply amr_pure. Qed.

Lemma amr_set_self (o : O) n : at_most_requests n (set_self o).
Proof. intros s. exists []. cbn. rewrite app_nil_r. split; [reflexivity | lia]. Qed.

Lemma amr_emit (e : event) n :
  is_network e = false -> at_most_requests n (emit e : M O unit).
Proof.
  intros H s. exists [e]. cbn. rewrite H. split; [reflexivity | cbn; lia].
Qed.

Lemma amr_request (e : event) n : at_most_requests (S n) (emit e : M O unit).
Proof.
  intros s. exists [e]. cbn. split; [reflexivity|].
  destruct (is_network e); cbn; lia.
Qed.

Lemma amr_bind {A B} (n1 n2 : nat) (m : M O A) (f : A -> M O B) :
  at_most_requests n1 m -> (forall a, at_most_requests n2 (f a)) ->
  at_most_requests (n1 + n2) (bind m f).
Proof.
  intros Hm Hf s. unfold bind.
  destruct (Hm s) as (l & Hl & Nl).
  destruct (m s) as [[a | e |] s1]; cbn [snd] in *.
  - destruct (Hf a s1) as (l' & Hl' & Nl').
    exists (l ++ l')%list. rewrite Hl', Hl, app_assoc. split; [reflexivity|].
    rewrite filter_app, length_app. lia.
  - exists l. split; [assumption | lia].
  - exists l. split; [assumption | lia].
Qed.

Lemma amr_try_except {A} (n1 n2 : nat) (body handler : M O A) caught :
  at_most_requests n1 body -> at_most_requests n2 handler ->
  at_most_requests (n1 + n2) (try_except body caught handler).
Proof.
  intros Hb Hh s. unfold try_except.
  destruct (Hb s) as (l & Hl & Nl).
  destruct (body s) as [[a | e |] s1]; cbn [snd] in *.
  - exists l. split; [assumption | lia].
  - destruct (caught e).
    + destruct (Hh s1) as (l' & Hl' & Nl').
      exists (l ++ l')%list. rewrite Hl', Hl, app_assoc. split; [reflexivity|].
      rewrite filter_app, length_app. lia.
    + exists l. split; [assumption | lia].
  - exists l. split; [assumption | lia].
Qed.

End Requests.

Create HintDb amr.

#[local] Hint Resolve amr_ret amr_raise amr_lift amr_get_self amr_set_self : amr.
#[local] Hint Extern 1 (at_most_requests _ (emit _)) =>
  (apply amr_emit; reflexivity) : amr.
#[local] Hint Extern 1 (at_most_requests _ (say _)) =>
  (apply amr_emit; reflexivity) : amr.
#[local] Hint Extern 2 (at_most_requests (S _) (emit _)) =>
  (apply amr_request) : amr.

Ltac amr :=
  lazymatch goal with
  | |- at_most_requests _ (bind _ _) =>
      first [ apply (amr_bind 0); [solve [amr] | intros; amr]
            | apply (amr_bind 1); [solve [amr] | intros; amr]
            | apply (amr_bind 2); [solve [amr] | intros; amr] ]
  | |- at_most_requests _ (try_except _ _ _) =>
      first [ apply (amr_try_except 0); solve [amr]
            | apply (amr_try_except 1); solve [amr] ]
  | |- at_most_requests _ (if ?b then _ else _) => destruct b; amr
  | |- at_most_requests _ (match ?x with _ => _ end) => destruct x; amr
  | |- _ => solve [auto with amr]
  end.

Lemma amr_set_now_playing v n : at_most_requests n (set_now_playing v).
Proof. unfold set_now_playing. amr. Qed.

Lemma amr_set_done b n : at_most_requests n (set_done b).
Proof. unfold set_done. amr. Qed.

Lemma amr_str_add {O} text v n : at_most_requests n (str_add text v : M O string).
Proof. unfold str_add. amr. Qed.

#[local] Hint Resolve amr_set_now_playing amr_set_done amr_str_add : amr.

Lemma callback_events_no_request (l : list event) :
  Forall (fun e => e = PlayerStop \/ exists label, e = Say ("Can't play " ++ label)) l ->
  filter is_network l = [].
Proof.
  induction 1 as [|e l [-> | (label & ->)] _ IH]; cbn; auto.
Qed.

Lemma amr_callbacks (l : list async) n :
  at_most_requests n
    (callbacks YouTubePlayer._on_input_event YouTubePlayer._on_player_event l).
Proof.
  intros s. unfold callbacks. cbn [snd].
  destruct (trace_grows _ _ (deliver_all_extends l s)) as (t & E & F).
  exists t. split; [exact E|]. rewrite (callback_events_no_request t F). cbn. lia.
Qed.

Lemma amr_wait (ticks : list (list async)) n : at_most_requests n (yt_wait ticks).
Proof.
  induction ticks as [|l ticks IH]; intros s.
  - exists []. rewrite app_nil_r. cbn [wait].
    destruct (done (self s)); cbn; split; (reflexivity || lia).
  - cbn [wait]. destruct (done (self s)).
    + exists []. rewrite app_nil_r. cbn. split; [reflexivity | lia].
    + cbn [emit snd].
      match goal with
      | |- context [yt_deliver_all l ?x] =>
          destruct (trace_grows _ _ (deliver_all_extends l x)) as (t & E & F);
          destruct (IH (yt_deliver_all l x)) as (t' & E' & N')
      end.
      cbn [trace] in E.
      exists ((Sleep :: t) ++ t')%list. rewrite E', E. split.
      * now rewrite <- !app_assoc.
      * rewrite filter_app, length_app. cbn [filter is_network].
        rewrite (callback_events_no_request t F). cbn. lia.
Qed.

#[local] Hint Resolve amr_callbacks amr_wait : amr.

Lemma amr_ydl_extract_info env track n :
  at_most_requests (S n) (YouTubePlayer.ydl_extract_info env track).
Proof. unfold YouTubePlayer.ydl_extract_info. amr. Qed.

Lemma amr_read_url env url n : at_most_requests (S n) (TuneInRadio.read_url env url).
Proof. unfold TuneInRadio.read_url. amr. Qed.

Lemma amr_loads env text n : at_most_requests n (TuneInRadio.loads env text).
Proof. unfold TuneInRadio.loads. amr. Qed.

#[local] Hint Resolve amr_ydl_extract_info amr_read_url amr_loads : amr.

Lemma amr_search env q f n : at_most_requests (S n) (TuneInRadio._search env q f).
Proof. unfold TuneInRadio._search. amr. Qed.

Lemma amr_get_stream_list env url n :
  at_most_requests (S n) (TuneInRadio._get_stream_list env url).
Proof. unfold TuneInRadio._get_stream_list. amr. Qed.

#[local] Hint Resolve amr_search amr_get_stream_list : amr.

Lemma amr_get_stream_url env station_id n :
  at_most_requests (S (S n)) (TuneInRadio._get_stream_url env station_id).
Proof. unfold TuneInRadio._get_stream_url. amr. Qed.

#[local] Hint Resolve amr_get_stream_url : amr.

(** X23.  No request is tried twice: whatever the network answers and
    whatever happens during playback, one run of the video player makes
    at most one request, and one run of the radio player at most three
    (the search page, the page of the station, the list of streams). *)
Theorem run_makes_few_requests env sched cmd :
  at_most_requests 1 (YouTubePlayer.run env sched cmd)
  /\ at_most_requests 3 (TuneInRadio.run env sched cmd).
Proof.
  split.
  - unfold YouTubePlayer.run. amr.
  - unfold TuneInRadio.run. amr.
Qed.

(** ** Creating the two players *)

Lemma lookup_update_other (c c' : Z) x (t : GPIO.table) :
  c' <> c -> GPIO.lookup c' (GPIO.update c x t) = GPIO.lookup c' t.
Proof.
  intros N. induction t as [|[k y] t IH]; cbn.
  - apply Z.eqb_neq in N. rewrite Z.eqb_sym. now rewrite N.
  - destruct (k =? c) eqn:E; cbn.
    + apply Z.eqb_eq in E. subst k.
      assert (F : (c =? c') = false) by (apply Z.eqb_neq; congruence).
      now rewrite F.
    + destruct (k =? c'); [reflexivity | exact IH].
Qed.

Lemma YouTube_init_result kw (s : St player) :
  exists s' e cbs,
    YouTubePlayer.__init__ kw s = (Return tt, s')
    /\ self s' = mkPlayer kw PNone false false
    /\ GPIO.lookup 23 (edge_detect s') = Some (e, cbs ++ [YouTube_on_input_event])%list
    /\ match GPIO.lookup 23 (edge_detect s) with
       | Some x => x = (e, cbs)
       | None => (e, cbs) = (FALLING, [])
       end
    /\ forall c, c <> 23 -> GPIO.lookup c (edge_detect s') = GPIO.lookup c (edge_detect s).
Proof.
  rewrite YouTube_init_unfold.
  destruct (GPIO.lookup 23 (edge_detect s)) as [[e cbs]|] eqn:L.
  - rewrite (YouTube_init_gpio_bound
               23 FALLING PUD_UP
               (mkSt (mkPlayer kw PNone false false) (trace s) (edge_detect s)) e cbs L).
    eexists _, e, cbs. split; [reflexivity|].
    cbn [self edge_detect]. rewrite lookup_update.
    repeat split. intros c N. now apply lookup_update_other.
  - rewrite (YouTube_init_gpio_free
               23 FALLING PUD_UP
               (mkSt (mkPlayer kw PNone false false) (trace s) (edge_detect s)) L).
    eexists _, FALLING, []. split; [reflexivity|].
    cbn [self edge_detect app]. rewrite lookup_update.
    repeat split. intros c N. now apply lookup_update_other.
Qed.

Lemma TuneIn_init_result kw (s : St player) :
  exists s' e cbs,
    TuneInRadio.__init__ kw s = (Return tt, s')
    /\ self s' = mkPlayer kw PNone false false
    /\ GPIO.lookup 23 (edge_detect s') = Some (e, cbs ++ [TuneIn_on_input_event])%list
    /\ match GPIO.lookup 23 (edge_detect s) with
       | Some x => x = (e, cbs)
       | None => (e, cbs) = (FALLING, [])
       end
    /\ forall c, c <> 23 -> GPIO.lookup c (edge_detect s') = GPIO.lookup c (edge_detect s).
Proof.
  rewrite TuneIn_init_unfold.
  destruct (GPIO.lookup 23 (edge_detect s)) as [[e cbs]|] eqn:L.
  - rewrite (TuneIn_init_gpio_bound
               23 FALLING PUD_UP
               (mkSt (mkPlayer kw PNone false false) (trace s) (edge_detect s)) e cbs L).
    eexists _, e, cbs. split; [reflexivity|].
    cbn [self edge_detect]. rewrite lookup_update.
    repeat split. intros c N. now apply lookup_update_other.
  - rewrite (TuneIn_init_gpio_free
               23 FALLING PUD_UP
               (mkSt (mkPlayer kw PNone false false) (trace s) (edge_detect s)) L).
    eexists _, FALLING, []. split; [reflexivity|].
    cbn [self edge_detect app]. rewrite lookup_update.
    repeat split. intros c N. now apply lookup_update_other.
Qed.

(** X24.  Creating the video player and then the radio player, as
    [make_actor] does, never raises, whatever was bound before: each
    object starts with no title and not done, the callbacks of channel
    23 end with the video player's and then the radio player's, the
    callbacks that were there stay in front, and no other channel is
    touched. *)
Theorem players_created_in_turn (kw1 kw2 : string) (s : St player) :
  exists s1 s2 e cbs,
    YouTubePlayer.__init__ kw1 s = (Return tt, s1)
    /\ TuneInRadio.__init__ kw2 s1 = (Return tt, s2)
    /\ self s1 = mkPlayer kw1 PNone false false
    /\ self s2 = mkPlayer kw2 PNone false false
    /\ GPIO.lookup 23 (edge_detect s2)
       = Some (e, cbs ++ [YouTube_on_input_event; TuneIn_on_input_event])%list
    /\ match GPIO.lookup 23 (edge_detect s) with
       | Some x => x = (e, cbs)
       | None => (e, cbs) = (FALLING, [])
       end
    /\ forall c, c <> 23 -> GPIO.lookup c (edge_detect s2) = GPIO.lookup c (edge_detect s).
Proof.
  destruct (YouTube_init_result kw1 s) as (s1 & e & cbs & I1 & O1 & L1 & P1 & U1).
  destruct (TuneIn_init_result kw2 s1) as (s2 & e2 & cbs2 & I2 & O2 & L2 & P2 & U2).
  rewrite L1 in P2. injection P2 as <- <-.
  exists s1, s2, e, cbs. repeat split; try assumption.
  - now rewrite L2, <- app_assoc.
  - intros c N. now rewrite U2, U1.
Qed.

(** ** The page of a station *)

Lemma append_assoc_s (a b c : string) : (a ++ b) ++ c = a ++ b ++ c.
Proof. induction a as [|x a IH]; cbn; [reflexivity | now rewrite IH]. Qed.

Lemma run_lit (m : string) (r : Re.regex) (prev rest : string) gs cap :
  Re.run (Re.lit m ++ r)%list prev rest gs cap
  = match Text.drop_prefix m rest with
    | Some rest' => Re.run r (rev_onto m prev) rest' gs cap
    | None => None
    end.
Proof.
  revert prev rest. induction m as [|a m IH]; intros prev rest; [reflexivity|].
  cbn [Re.lit app Re.run Text.drop_prefix rev_onto Re.cmatch].
  destruct rest as [|x rest]; [reflexivity|].
  rewrite (Ascii.eqb_sym x a).
  destruct (Ascii.eqb_spec a x) as [-> | _]; [apply IH | reflexivity].
Qed.

Lemma search_from_skip (m : string) (r : Re.regex) (pre rest prev : string) :
  not_before m pre rest = true ->
  Re.search_from (Re.lit m ++ r)%list prev (pre ++ rest)
  = Re.search_from (Re.lit m ++ r)%list (rev_onto pre prev) rest.
Proof.
  revert prev. induction pre as [|c pre IH]; intros prev N; [reflexivity|].
  cbn [not_before] in N.
  destruct (Text.drop_prefix m (String c pre ++ rest)) eqn:D; [discriminate|].
  cbn [append Re.search_from rev_onto]. rewrite run_lit.
  change (String c (pre ++ rest)) with (String c pre ++ rest). rewrite D.
  now apply IH.
Qed.

Lemma run_close_quote (prev rest from : string) (x : ascii) cap :
  Re.run [Re.GClose; Re.One (Re.CChar double_quote)] prev (String x rest)
         (Some from) cap
  = if (x =? double_quote)%char
    then Some (rest, Some (Re.consumed from (String x rest)))
    else None.
Proof. reflexivity. Qed.

Lemma lazy_to_quote (g prev from post : string) cap :
  all_of in_quotes g = true ->
  Re.lazy Re.CDot (Re.run [Re.GClose; Re.One (Re.CChar double_quote)])
          prev (g ++ String double_quote post) (Some from) cap
  = Some (post, Some (Re.consumed from (String double_quote post))).
Proof.
  revert prev. induction g as [|x g IH]; intros prev A.
  - cbn [append Re.lazy]. rewrite run_close_quote. reflexivity.
  - cbn [all_of] in A. apply andb_true_iff in A as [Ax A].
    unfold in_quotes in Ax. apply andb_true_iff in Ax as [Q N].
    apply negb_true_iff in Q.
    cbn [append Re.lazy]. rewrite run_close_quote, Q.
    cbn [Re.cmatch]. rewrite N. now apply IH.
Qed.

Lemma stream_url_pattern_eq :
  TuneInRadio.stream_url_pattern
  = (Re.lit stream_marker
     ++ [Re.GOpen; Re.LazyStar Re.CDot; Re.GClose; Re.One (Re.CChar double_quote)])%list.
Proof. reflexivity. Qed.

(** The first [StreamUrl] marker of the page decides: the address is the
    text between the marker and the next double quote. *)
Lemma search_stream_url (pre g post : string) :
  not_before stream_marker pre (stream_marker ++ g ++ String double_quote post) = true ->
  all_of in_quotes g = true ->
  Re.search TuneInRadio.stream_url_pattern
            (pre ++ stream_marker ++ g ++ String double_quote post)
  = Some {| Re.group0 := stream_marker ++ g ++ String double_quote "";
            Re.group1 := Some g |}.
Proof.
  intros N A. unfold Re.search. rewrite stream_url_pattern_eq.
  rewrite search_from_skip by exact N.
  destruct (stream_marker ++ g ++ String double_quote post) as [|c0 tl] eqn:B;
    [discriminate|].
  cbn [Re.search_from]. rewrite run_lit, <- B, drop_prefix_app.
  cbn [Re.run]. rewrite (lazy_to_quote g _ _ post None A).
  rewrite consumed_app.
  replace (stream_marker ++ g ++ String double_quote post)
    with ((stream_marker ++ g ++ String double_quote "") ++ post)
    by (now rewrite !append_assoc_s).
  now rewrite consumed_app.
Qed.

(** X25.  On the page of a station, the stream address is the text
    between the first [StreamUrl] marker and the next double quote.
    When that text is empty, [_get_stream_url] returns [None] after its
    one request.  Otherwise it fetches "http:" followed by the address
    and returns the ["Url"] of the first entry of ["Streams"], or [None]
    when that list is empty. *)
Theorem stream_url_of_station_page
        env station_id (s : St player) (pre g post : string) :
  urlopen env (TuneInRadio.BASE_URL ++ "station/?stationId=" ++ str_of env station_id)
  = Some (pre ++ stream_marker ++ g ++ String double_quote post) ->
  not_before stream_marker pre (stream_marker ++ g ++ String double_quote post) = true ->
  all_of in_quotes g = true ->
  (g = "" ->
   TuneInRadio._get_stream_url env station_id s
   = (Return PNone,
      mkSt (self s)
           ((trace s
             ++ [Log "debug" (PStr (TuneInRadio.BASE_URL ++ "station/?stationId="
                                    ++ str_of env station_id))])
              ++ [UrlOpen (TuneInRadio.BASE_URL ++ "station/?stationId="
                           ++ str_of env station_id)])
           (edge_detect s)))
  /\ (g <> "" ->
      forall json_str result streams,
        urlopen env ("http:" ++ g) = Some json_str ->
        json_loads env json_str = Some result ->
        getitem_key result "Streams" = inr (PList streams) ->
        TuneInRadio._get_stream_url env station_id s
        = (match streams with
           | [] => Return PNone
           | stream :: _ =>
               match getitem_key stream "Url" with
               | inr url => Return url
               | inl e => Raise e
               end
           end,
           mkSt (self s)
                ((((trace s
                    ++ [Log "debug" (PStr (TuneInRadio.BASE_URL ++ "station/?stationId="
                                           ++ str_of env station_id))])
                     ++ [UrlOpen (TuneInRadio.BASE_URL ++ "station/?stationId="
                                  ++ str_of env station_id)])
                    ++ [Log "debug" (PStr ("http:" ++ g))])
                   ++ [UrlOpen ("http:" ++ g)])
                (edge_detect s))).
Proof.
  intros U N A. split.
  - intros ->.
    cbv [TuneInRadio._get_stream_url TuneInRadio.read_url bind emit].
    cbn [self trace edge_detect]. rewrite U. cbv [ret].
    now rewrite (search_stream_url pre "" post N A).
  - intros G json_str result streams U2 J K.
    cbv [TuneInRadio._get_stream_url TuneInRadio.read_url bind emit].
    cbn [self trace edge_detect]. rewrite U. cbv [ret].
    rewrite (search_stream_url pre g post N A). cbn [Re.group1].
    destruct g as [|c g]; [contradiction|]. cbn [Text.is_empty].
    cbv [TuneInRadio._get_stream_list TuneInRadio.read_url TuneInRadio.loads bind emit].
    cbn [self trace edge_detect]. rewrite U2. cbv [ret]. rewrite J, K.
    cbv [lift ret]. destruct streams as [|stream rest]; [reflexivity|].
    cbn [truthy negb getitem_0].
    destruct (getitem_key stream "Url"); reflexivity.
Qed.

Lemma stream_url_of_station_page_witness :
  urlopen Cases.with_stream
          (TuneInRadio.BASE_URL ++ "station/?stationId="
           ++ str_of Cases.with_stream (PStr "s1"))
  = Some ("var x = {" ++ stream_marker ++ "//stream.example/1.json"
          ++ String double_quote ",}")
  /\ TuneInRadio._get_stream_url Cases.with_stream (PStr "s1") Scenario.tunein_ready
     = (Return (PStr "http://radio/1.mp3"),
        mkSt (self Scenario.tunein_ready)
             (trace Scenario.tunein_ready
              ++ [Log "debug" (PStr "http://tunein.com/station/?stationId=s1");
                  UrlOpen "http://tunein.com/station/?stationId=s1";
                  Log "debug" (PStr "http://stream.example/1.json");
                  UrlOpen "http://stream.example/1.json"])
             (edge_detect Scenario.tunein_ready)).
Proof.
  split; [reflexivity|].
  refine (proj2 (stream_url_of_station_page
                   Cases.with_stream (PStr "s1") Scenario.tunein_ready
                   "var x = {" "//stream.example/1.json" ",}"
                   eq_refl eq_refl eq_refl)
                _ "streams"
                (PDict [("Streams", PList [PDict [("Url", PStr "http://radio/1.mp3")]])])
                [PDict [("Url", PStr "http://radio/1.mp3")]]
                eq_refl eq_refl eq_refl).
  discriminate.
Defined.

(** ** The payload of the search page *)








(** * A press while playback starts *)

(** ** The requests of the radio leave the object alone *)

Section KeepsObject.

Context {O : Type}.

Lemma keeps_ret {A} (a : A) : keeps_object (ret a : M O A).
Proof. intros s. now split. Qed.

Lemma keeps_raise {A} (e : exn) : keeps_object (raise e : M O A).
Proof. intros s. now split. Qed.

Lemma keeps_lift {A} (r : exn + A) : keeps_object (lift r : M O A).
Proof. destruct r; [apply keeps_raise | apply keeps_ret]. Qed.

Lemma keeps_emit (e : event) : keeps_object (emit e : M O unit).
Proof. intros s. now split. Qed.

Lemma keeps_bind {A B} (m : M O A) (f : A -> M O B) :
  keeps_object m -> (forall a, keeps_object (f a)) -> keeps_object (bind m f).
Proof.
  intros Hm Hf s. unfold bind.
  destruct (Hm s) as [S1 G1].
  destruct (m s) as [[a | e |] s1]; cbn [snd] in *; auto.
  destruct (Hf a s1) as [S2 G2]. split; congruence.
Qed.

End KeepsObject.

Create HintDb keeps.

#[local] Hint Resolve keeps_ret keeps_raise keeps_lift keeps_emit keeps_bind : keeps.

Lemma read_url_keeps env url : keeps_object (TuneInRadio.read_url env url).
Proof.
  unfold TuneInRadio.read_url. apply keeps_bind; [auto with keeps|].
  intros _. destruct (urlopen env url); auto with keeps.
Qed.

Lemma loads_keeps env text : keeps_object (TuneInRadio.loads env text).
Proof. unfold TuneInRadio.loads. destruct (json_loads env text); auto with keeps. Qed.

#[local] Hint Resolve read_url_keeps loads_keeps : keeps.

Lemma search_keeps env q f : keeps_object (TuneInRadio._search env q f).
Proof.
  unfold TuneInRadio._search.
  apply keeps_bind; [auto with keeps|]. intros _.
  apply keeps_bind; [auto with keeps|]. intros xml_str.
  destruct (Re.search _ _) as [m|]; [|auto with keeps].
  destruct (Re.group1 m); [|auto with keeps].
  repeat (apply keeps_bind; [auto with keeps|]; intros ?).
  auto with keeps.
Qed.

Lemma get_stream_list_keeps env url :
  keeps_object (TuneInRadio._get_stream_list env url).
Proof.
  unfold TuneInRadio._get_stream_list.
  repeat (apply keeps_bind; [auto with keeps|]; intros ?).
  auto with keeps.
Qed.

Lemma get_stream_url_keeps env station_id :
  keeps_object (TuneInRadio._get_stream_url env station_id).
Proof.
  unfold TuneInRadio._get_stream_url.
  apply keeps_bind; [auto with keeps|]. intros _.
  apply keeps_bind; [auto with keeps|]. intros xml_str.
  destruct (Re.search _ _) as [m|]; [|auto with keeps].
  destruct (Re.group1 m) as [g|]; [|auto with keeps].
  destruct (Text.is_empty g); [auto with keeps|].
  apply keeps_bind; [apply get_stream_list_keeps|]. intros streams.
  destruct (negb (truthy streams)); [auto with keeps|].
  apply keeps_bind; auto with keeps.
Qed.

(** What the two requests of a radio session that finds a station leave
    behind: the object and the GPIO table as they were, and a trace with
    more background events. *)
Lemma station_found_state env q (s s2 : St player) url title :
  station_found env q s s2 url title ->
  self s2 = self s /\ edge_detect s2 = edge_detect s
  /\ exists l, trace s2 = (trace s ++ l)%list /\ Forall background l.
Proof.
  intros (stations & station & station_id & s1 & S & _ & _ & _ & U & _ & _).
  destruct (search_keeps env q TuneInRadio.FILTER_STATIONS s) as [K1 G1].
  destruct (get_stream_url_keeps env station_id s1) as [K2 G2].
  destruct (search_background env q TuneInRadio.FILTER_STATIONS s) as (l1 & E1 & B1).
  destruct (get_stream_url_background env station_id s1) as (l2 & E2 & B2).
  rewrite S in K1, G1, E1. rewrite U in K2, G2, E2. cbn [snd] in *.
  split; [congruence|]. split; [congruence|].
  exists (l1 ++ l2)%list. rewrite E2, E1, app_assoc. split; [reflexivity|].
  apply Forall_app. now split.
Qed.

(** ** The state in which [run] starts to wait *)

(** The session as [player.play()] finds it: the label is set, the
    announcement made. *)
Lemma TuneIn_run_plays env sched cmd (s s2 : St player) url title :
  Text.is_empty (query_of (self s) cmd) = false ->
  station_found env (query_of (self s) cmd) s s2 url title ->
  TuneInRadio.run env sched cmd s
  = ti_wait (ticks sched)
            (snd (set_done false
                    (ti_deliver_all
                       (during_play sched)
                       (mkSt (mkPlayer (keyword (self s2)) (PStr title)
                                       (done (self s2)) (input_value (self s2)))
                             (trace s2
                              ++ [Log "debug" url; MediaNew url; SetMedia;
                                  Log "info" (PStr title);
                                  Say ("Now playing " ++ title);
                                  PlayerPlay])
                             (edge_detect s2))))).
Proof.
  unfold query_of.
  intros Q (stations & station & station_id & s1 & S & T & G0 & GI & U & TU & GT).
  unfold TuneInRadio.run. unfold bind at 1. unfold get_self at 1. rewrite Q.
  unfold bind at 1. rewrite S, T. cbn [negb].
  unfold bind at 1. rewrite G0. cbn [lift]. unfold ret at 1.
  unfold bind at 1. rewrite GI. cbn [lift]. unfold ret at 1.
  unfold bind at 1. rewrite U, TU. cbn [negb].
  cbv [bind emit lift ret say str_add set_now_playing get_self set_self callbacks].
  cbn [self trace edge_detect]. rewrite GT.
  cbn [self trace edge_detect keyword now_playing done input_value].
  rewrite <- !app_assoc. reflexivity.
Qed.

(** A press at the active level in a tick of the loop: the loop has
    slept once per tick, the player is stopped, the loop returns. *)
Lemma wait_press (s : St player) (channel : Z)
      (quiet later : list (list async)) (before after : list async) :
  done (self s) = false ->
  Forall (Forall (idle (input_value (self s)))) quiet ->
  Forall (idle (input_value (self s))) before ->
  yt_wait (quiet ++ (before ++ InputEvent channel (Z.b2z (input_value (self s)))
                            :: after) :: later)%list s
  = (Return tt,
     yt_deliver_all
       after
       (finished s ((trace s ++ repeat Sleep (S (List.length quiet))) ++ [PlayerStop]))).
Proof.
  intros D Hq Hb.
  rewrite wait_idle_ticks by assumption.
  rewrite wait_tick by exact D. cbn [self trace edge_detect].
  rewrite deliver_all_app. rewrite (deliver_all_idle before) by exact Hb.
  rewrite deliver_all_cons. unfold deliver at 1.
  rewrite on_input_active by reflexivity. cbn [self trace edge_detect snd].
  rewrite <- app_assoc, repeat_sleep_snoc.
  apply wait_done.
  apply (done_stays _ _ (deliver_all_extends after _)). reflexivity.
Qed.

(** The two ways a press can meet a session that has just called
    [player.play()] on the state [s1]: in a tick of the loop, after idle
    events only, it ends the wait; while [player.play()] is still in
    progress, it is followed by the reset of [done], and the loop waits
    through every idle tick. *)
Lemma press_in_loop (s1 : St player) (channel : Z)
      (quiet later : list (list async)) (calm before after : list async) :
  Forall (idle (input_value (self s1))) calm ->
  Forall (Forall (idle (input_value (self s1)))) quiet ->
  Forall (idle (input_value (self s1))) before ->
  exists s' t,
    yt_wait (quiet ++ (before ++ InputEvent channel (Z.b2z (input_value (self s1)))
                              :: after) :: later)%list
            (snd (set_done false (yt_deliver_all calm s1)))
    = (Return tt, s')
    /\ done (self s') = true
    /\ trace s' = (trace s1 ++ repeat Sleep (S (List.length quiet))
                     ++ PlayerStop :: t)%list
    /\ (Forall not_error after -> flat_map spoken_of t = []).
Proof.
  intros Hc Hq Hb.
  rewrite (deliver_all_idle calm s1 Hc).
  set (x := snd (set_done false s1)).
  assert (I : input_value (self x) = input_value (self s1)) by reflexivity.
  rewrite <- I in *.
  rewrite (wait_press x channel quiet later before after eq_refl Hq Hb).
  match goal with
  | |- context [yt_deliver_all after ?y] =>
      set (s3 := y); pose proof (deliver_all_extends after s3) as E
  end.
  destruct (trace_grows _ _ E) as (t & Et & Ft).
  exists (yt_deliver_all after s3), t. split; [reflexivity|].
  split; [apply (done_stays _ _ E); reflexivity|].
  split.
  - rewrite Et. subst s3 x. unfold finished.
    cbn [trace snd set_done bind get_self set_self].
    now rewrite <- !app_assoc.
  - intros Ha.
    pose proof (deliver_all_quiet after s3 Ha) as Sp.
    unfold spoken in Sp. rewrite Et, flat_map_app in Sp.
    apply (app_inv_head (flat_map spoken_of (trace s3))).
    now rewrite app_nil_r.
Qed.

Lemma press_while_starting (s1 : St player) (channel : Z)
      (quiet : list (list async)) (early late : list async) :
  Forall (Forall (idle (input_value (self s1)))) quiet ->
  exists s' t,
    yt_wait quiet
            (snd (set_done false
                    (yt_deliver_all
                       (early ++ InputEvent channel (Z.b2z (input_value (self s1)))
                              :: late)%list s1)))
    = (Blocks, s')
    /\ done (self s') = false
    /\ trace s' = (trace s1 ++ t ++ repeat Sleep (List.length quiet))%list
    /\ In PlayerStop t.
Proof.
  intros Hq.
  rewrite deliver_all_app, deliver_all_cons.
  pose proof (deliver_all_extends early s1) as E.
  set (sE := yt_deliver_all early s1) in *.
  rewrite <- (same_input_value _ _ E).
  unfold deliver at 1. rewrite on_input_active by reflexivity. cbn [snd].
  match goal with
  | |- context [yt_deliver_all late ?y] =>
      set (sP := y); pose proof (deliver_all_extends late sP) as L
  end.
  set (x := snd (set_done false (yt_deliver_all late sP))).
  assert (I : input_value (self x) = input_value (self s1)).
  { subst x. cbn [set_done bind get_self set_self snd self input_value].
    rewrite (same_input_value _ _ L). subst sP. cbn. apply (same_input_value _ _ E). }
  rewrite <- I in Hq.
  rewrite (wait_blocks quiet x eq_refl Hq).
  destruct (trace_grows _ _ E) as (tE & EE & _).
  destruct (trace_grows _ _ L) as (tL & EL & _).
  eexists _, (tE ++ PlayerStop :: tL)%list. split; [reflexivity|].
  split; [reflexivity|]. split.
  - cbn [trace]. subst x. cbn [set_done bind get_self set_self snd trace].
    rewrite EL. subst sP. unfold finished. cbn [trace]. rewrite EE.
    now rewrite <- !app_assoc.
  - apply in_or_app. right. now left.
Qed.

(** The same for a session [s1] reached from [s] by a call of
    [player.play()]. *)
Lemma press_after_play (s s1 : St player) (t1 : list event) (text : string)
      (channel : Z) (quiet later : list (list async))
      (calm before after early late : list async) :
  input_value (self s1) = input_value (self s) ->
  trace s1 = (trace s ++ t1 ++ [PlayerPlay])%list ->
  flat_map spoken_of t1 = [text] ->
  Forall (idle (input_value (self s))) calm ->
  Forall (Forall (idle (input_value (self s)))) quiet ->
  Forall (idle (input_value (self s))) before ->
  (exists s' t2,
      yt_wait (quiet ++ (before ++ InputEvent channel (Z.b2z (input_value (self s)))
                                :: after) :: later)%list
              (snd (set_done false (yt_deliver_all calm s1)))
      = (Return tt, s')
      /\ done (self s') = true
      /\ trace s' = (trace s ++ t1 ++ PlayerPlay :: t2)%list
      /\ In PlayerStop t2
      /\ (Forall not_error after -> spoken s' = (spoken s ++ [text])%list))
  /\
  (exists s' t2,
      yt_wait quiet
              (snd (set_done false
                      (yt_deliver_all
                         (early ++ InputEvent channel (Z.b2z (input_value (self s)))
                                :: late)%list s1)))
      = (Blocks, s')
      /\ done (self s') = false
      /\ trace s' = (trace s ++ t1 ++ PlayerPlay :: t2)%list
      /\ In PlayerStop t2).
Proof.
  intros I T Sp Hc Hq Hb. rewrite <- I in *. split.
  - destruct (press_in_loop s1 channel quiet later calm before after Hc Hq Hb)
      as (s' & t & W & D & Tr & Q).
    exists s', (repeat Sleep (S (List.length quiet)) ++ PlayerStop :: t)%list.
    split; [exact W|]. split; [exact D|].
    assert (Tr' : trace s'
                  = (trace s ++ t1 ++ PlayerPlay
                       :: repeat Sleep (S (List.length quiet)) ++ PlayerStop :: t)%list).
    { rewrite Tr, T, <- !app_assoc. reflexivity. }
    split; [exact Tr'|]. split; [apply in_or_app; right; now left|].
    intros Ha. unfold spoken. rewrite Tr', !flat_map_app, Sp.
    cbn [flat_map spoken_of app]. rewrite flat_map_app, spoken_repeat_sleep.
    cbn [flat_map spoken_of app]. now rewrite (Q Ha).
  - destruct (press_while_starting s1 channel quiet early late Hq)
      as (s' & t & W & D & Tr & P).
    exists s', (t ++ repeat Sleep (List.length quiet))%list.
    split; [exact W|]. split; [exact D|]. split.
    + rewrite Tr, T, <- !app_assoc. reflexivity.
    + apply in_or_app. now left.
Qed.

(** C5 fails on the code.  A session that has found something to play
    calls [player.play()] and only then sets [done] to false, before it
    starts to wait.  A press of the cancel switch that comes in a tick of
    the waiting loop, after idle events only, ends the session:
    [player.stop()] is called, the loop returns with [done] set, and,
    when no player error follows in that tick, the only sentence of the
    session is the announcement.
    The same press delivered while [player.play()] is still in progress
    also calls [player.stop()] and sets [done], but [run] then clears
    [done]: the player is stopped and the loop waits through every tick
    that brings no further terminal event.  Both players behave so. *)
Theorem press_during_play_does_not_end_wait
        env cmd (s : St player) (channel : Z) (quiet later : list (list async))
        (calm before after early late : list async) :
  Text.is_empty (query_of (self s) cmd) = false ->
  Forall (idle (input_value (self s))) calm ->
  Forall (Forall (idle (input_value (self s)))) quiet ->
  Forall (idle (input_value (self s))) before ->
  (forall url title,
      video_found env (query_of (self s) cmd) url title ->
      (exists s' t1 t2,
          YouTubePlayer.run
            env
            {| during_play := calm;
               ticks := (quiet
                         ++ (before ++ InputEvent channel (Z.b2z (input_value (self s)))
                                    :: after) :: later)%list |}
            cmd s
          = (Return tt, s')
          /\ done (self s') = true
          /\ trace s' = (trace s ++ t1 ++ PlayerPlay :: t2)%list
          /\ In PlayerStop t2
          /\ (Forall not_error after ->
              spoken s'
              = (spoken s
                 ++ [("Now playing " ++ YouTubePlayer.clean_title title)%string])%list))
      /\
      (exists s' t1 t2,
          YouTubePlayer.run
            env
            {| during_play := (early ++ InputEvent channel (Z.b2z (input_value (self s)))
                                     :: late)%list;
               ticks := quiet |}
            cmd s
          = (Blocks, s')
          /\ done (self s') = false
          /\ trace s' = (trace s ++ t1 ++ PlayerPlay :: t2)%list
          /\ In PlayerStop t2))
  /\
  (forall s2 url title,
      station_found env (query_of (self s) cmd) s s2 url title ->
      (exists s' t1 t2,
          TuneInRadio.run
            env
            {| during_play := calm;
               ticks := (quiet
                         ++ (before ++ InputEvent channel (Z.b2z (input_value (self s)))
                                    :: after) :: later)%list |}
            cmd s
          = (Return tt, s')
          /\ done (self s') = true
          /\ trace s' = (trace s ++ t1 ++ PlayerPlay :: t2)%list
          /\ In PlayerStop t2
          /\ (Forall not_error after ->
              spoken s' = (spoken s ++ [("Now playing " ++ title)%string])%list))
      /\
      (exists s' t1 t2,
          TuneInRadio.run
            env
            {| during_play := (early ++ InputEvent channel (Z.b2z (input_value (self s)))
                                     :: late)%list;
               ticks := quiet |}
            cmd s
          = (Blocks, s')
          /\ done (self s') = false
          /\ trace s' = (trace s ++ t1 ++ PlayerPlay :: t2)%list
          /\ In PlayerStop t2)).
Proof.
  intros Q Hc Hq Hb. split.
  - intros url title (meta & entries & first & E & T & K & I & F & U & L).
    rewrite !(YouTube_run_plays env _ cmd s meta entries first url title
                                Q E T K I F U L).
    cbn [during_play ticks].
    match goal with
    | |- context [yt_deliver_all calm ?x] => set (s1 := x)
    end.
    destruct (press_after_play
                s s1
                [YdlExtract (query_of (self s) cmd); Log "debug" url; MediaNew url;
                 SetMedia; Log "info" (PStr (YouTubePlayer.clean_title title));
                 Say ("Now playing " ++ YouTubePlayer.clean_title title)]
                ("Now playing " ++ YouTubePlayer.clean_title title)
                channel quiet later calm before after early late
                eq_refl eq_refl eq_refl Hc Hq Hb)
      as [(s' & t2 & W) (s'' & t2' & W')].
    split; [exists s'; eexists _, t2; exact W | exists s''; eexists _, t2'; exact W'].
  - intros s2 url title SF.
    destruct (station_found_state _ _ _ _ _ _ SF) as (Se & _ & l & Tr & B).
    rewrite !(TuneIn_run_plays env _ cmd s s2 url title Q SF).
    cbn [during_play ticks].
    match goal with
    | |- context [ti_deliver_all calm ?x] => set (s1 := x)
    end.
    assert (I : input_value (self s1) = input_value (self s))
      by (subst s1; cbn [self input_value]; now rewrite Se).
    assert (T : trace s1
                = (trace s
                   ++ (l ++ [Log "debug" url; MediaNew url; SetMedia;
                             Log "info" (PStr title); Say ("Now playing " ++ title)])
                   ++ [PlayerPlay])%list).
    { subst s1. cbn [trace]. rewrite Tr, <- !app_assoc. reflexivity. }
    assert (Sp : flat_map spoken_of
                   (l ++ [Log "debug" url; MediaNew url; SetMedia;
                          Log "info" (PStr title); Say ("Now playing " ++ title)])
                 = ["Now playing " ++ title]).
    { rewrite flat_map_app, (proj1 (background_events l B)). reflexivity. }
    destruct (press_after_play
                s s1 _ _ channel quiet later calm before after early late
                I T Sp Hc Hq Hb)
      as [(s' & t2 & W) (s'' & t2' & W')].
    split; [exists s'; eexists _, t2; exact W | exists s''; eexists _, t2'; exact W'].
Qed.

Lemma press_during_play_does_not_end_wait_witness :
  Text.is_empty (query_of (self Scenario.youtube_ready) "play it") = false
  /\ Forall (Forall (idle (input_value (self Scenario.youtube_ready))))
            [[]; [InputEvent 23 1]]
  /\ video_found (Scenario.one_video "x")
                 (query_of (self Scenario.youtube_ready) "play it")
                 (PStr "http://v/1") "x"
  /\ exists s' t1 t2,
      YouTubePlayer.run
        (Scenario.one_video "x")
        {| during_play := [InputEvent 23 0; PlayerEvent MediaPlayerOther];
           ticks := [[]; [InputEvent 23 1]] |}
        "play it" Scenario.youtube_ready
      = (Blocks, s')
      /\ done (self s') = false
      /\ trace s' = (trace Scenario.youtube_ready ++ t1 ++ PlayerPlay :: t2)%list
      /\ In PlayerStop t2.
Proof.
  assert (Hq : Forall (Forall (idle (input_value (self Scenario.youtube_ready))))
                      [[]; [InputEvent 23 1]])
    by (repeat constructor; cbn; discriminate).
  assert (V : video_found (Scenario.one_video "x")
                          (query_of (self Scenario.youtube_ready) "play it")
                          (PStr "http://v/1") "x").
  { exists (Scenario.video "x"),
           (PList [PDict [("url", PStr "http://v/1"); ("title", PStr "x")]]),
           (PDict [("url", PStr "http://v/1"); ("title", PStr "x")]).
    repeat split; reflexivity. }
  split; [reflexivity|]. split; [exact Hq|]. split; [exact V|].
  exact (proj2 (proj1 (press_during_play_does_not_end_wait
                         (Scenario.one_video "x") "play it" Scenario.youtube_ready 23
                         [[]; [InputEvent 23 1]] [] [] [] []
                         [] [PlayerEvent MediaPlayerOther]
                         eq_refl (Forall_nil _) Hq (Forall_nil _))
                      (PStr "http://v/1") "x" V)).
Defined.

(** The radio player in the same two situations. *)
Example radio_press_in_loop_and_while_starting :
  station_found
    Cases.on_air "jazz" Scenario.tunein_ready
    (snd (TuneInRadio._get_stream_url
            Cases.on_air (PStr "s1")
            (snd (TuneInRadio._search Cases.on_air "jazz" TuneInRadio.FILTER_STATIONS
                                      Scenario.tunein_ready))))
    (PStr "http://radio/1.mp3") "Jazz FM"
  /\ (let r := TuneInRadio.run Cases.on_air
                 {| during_play := []; ticks := [[]; [InputEvent 23 0]; []] |}
                 "radio jazz" Scenario.tunein_ready in
      fst r = Return tt /\ done (self (snd r)) = true
      /\ player_calls (snd r)
         = [MediaNew (PStr "http://radio/1.mp3"); SetMedia; PlayerPlay; PlayerStop]
      /\ spoken (snd r) = ["Now playing Jazz FM"])
  /\ (let r := TuneInRadio.run Cases.on_air
                 {| during_play := [InputEvent 23 0]; ticks := [[]; []; []] |}
                 "radio jazz" Scenario.tunein_ready in
      fst r = Blocks /\ done (self (snd r)) = false
      /\ player_calls (snd r)
         = [MediaNew (PStr "http://radio/1.mp3"); SetMedia; PlayerPlay; PlayerStop]
      /\ spoken (snd r) = ["Now playing Jazz FM"]).
Proof.
  split.
  - exists (PList [PDict [("Id", PStr "s1"); ("Title", PStr "Jazz FM")]]),
           (PDict [("Id", PStr "s1"); ("Title", PStr "Jazz FM")]),
           (PStr "s1"),
           (snd (TuneInRadio._search Cases.on_air "jazz" TuneInRadio.FILTER_STATIONS
                                     Scenario.tunein_ready)).
    repeat split; vm_compute; reflexivity.
  - split; repeat split; vm_compute; reflexivity.
Qed.
